(** * AutoPipe: the stack resolution engine

    A shallow embedding of [autopipe/core/models.py] and
    [autopipe/core/resolver.py], and the properties of the resolver:
    the priority score, the stable choice of the primary stack, the
    monorepo fields, metadata extraction and the absence of writes to the
    caller's candidate list. *)

From Stdlib Require Import ZArith Lia Ascii String SpecFloat.
From stdpp Require Import base option strings list sorting gmap.

Local Open Scope string_scope.
Local Open Scope Z_scope.

(** ** models.py *)

Module Language.
Inductive t := JAVA | KOTLIN | PYTHON | NODEJS | TYPESCRIPT | GO | DOTNET | PHP | UNKNOWN.

(** The [str] value of each member of the enum. *)
Definition value (l : t) : string :=
    match l with
    | JAVA => "java" | KOTLIN => "kotlin" | PYTHON => "python"
    | NODEJS => "nodejs" | TYPESCRIPT => "typescript" | GO => "go"
    | DOTNET => "dotnet" | PHP => "php" | UNKNOWN => "unknown"
    end.

#[global] Instance eq_dec : EqDecision t.
Proof. solve_decision. Defined.
End Language.

Module Framework.
Inductive t :=
  | SPRING_BOOT | QUARKUS | MICRONAUT | KTOR
  | DJANGO | FASTAPI | FLASK | AIOHTTP
  | REACT | NEXTJS | NESTJS | EXPRESS | VUE | NUXT | ANGULAR
  | LARAVEL | SYMFONY | YII | CODEIGNITER
  | ASPNET_CORE | BLAZOR
  | GIN | ECHO | FIBER
  | NONE.

#[global] Instance eq_dec : EqDecision t.
Proof. solve_decision. Defined.

(** Members in declaration order; the position of a member is its code. *)
Definition members : list t :=
    [SPRING_BOOT; QUARKUS; MICRONAUT; KTOR; DJANGO; FASTAPI; FLASK; AIOHTTP;
     REACT; NEXTJS; NESTJS; EXPRESS; VUE; NUXT; ANGULAR;
     LARAVEL; SYMFONY; YII; CODEIGNITER; ASPNET_CORE; BLAZOR;
     GIN; ECHO; FIBER; NONE].

Definition code (f : t) : nat :=
    match f with
    | SPRING_BOOT => 0 | QUARKUS => 1 | MICRONAUT => 2 | KTOR => 3
    | DJANGO => 4 | FASTAPI => 5 | FLASK => 6 | AIOHTTP => 7
    | REACT => 8 | NEXTJS => 9 | NESTJS => 10 | EXPRESS => 11
    | VUE => 12 | NUXT => 13 | ANGULAR => 14
    | LARAVEL => 15 | SYMFONY => 16 | YII => 17 | CODEIGNITER => 18
    | ASPNET_CORE => 19 | BLAZOR => 20
    | GIN => 21 | ECHO => 22 | FIBER => 23
    | NONE => 24
    end%nat.

(** Enum members are hashable: they can be the keys of a dict. *)
#[global] Instance countable : Countable t.
Proof.
  refine (inj_countable code (fun n => members !! n) _).
  intros f; destruct f; reflexivity.
Defined.
End Framework.

Module BuildTool.
Inductive t :=
  | MAVEN | GRADLE | ANT | NPM | YARN | PNPM | POETRY | PIP | PIPENV | CONDA
  | UV | GO_MOD | DOTNET_CLI | COMPOSER | NONE.
End BuildTool.

Record Dependency := {
  dep_name : string;
  dep_version : string;
  is_dev : bool;
}.

Record ProjectMetadata := {
  name : string;
  version : string;
  description : option string;
}.

Record DetectedStack := {
  language : Language.t;
  framework : Framework.t;
  build_tool : BuildTool.t;
  language_version : string;
  dependencies : list Dependency;
  java_version : option string;
  kotlin_version : option string;
  dotnet_framework_version : option string;
  node_version : option string;
  python_version : option string;
  go_version : option string;
  php_version : option string;
  project_root : option string;
  source_dir : option string;
  config_file : option string;
  entrypoint : option string;
  test_dir : option string;
  build_output_dir : option string;
  is_multi_module : bool;
  parent_project : option string;
  modules : list string;
  has_dockerfile : bool;
  has_tests : bool;
  test_framework : option string;
  package_manager_lock : option string;
}.

(** [DetectedStack(language=l, framework=f, project_root=r, has_dockerfile=d,
    has_tests=t)], every other field at its declared default. *)
Definition mk_stack (l : Language.t) (f : Framework.t) (r : option string)
    (d t : bool) : DetectedStack :=
  {| language := l; framework := f; build_tool := BuildTool.NONE;
     language_version := "latest"; dependencies := [];
     java_version := None; kotlin_version := None;
     dotnet_framework_version := None; node_version := None;
     python_version := None; go_version := None; php_version := None;
     project_root := r; source_dir := None; config_file := None;
     entrypoint := None; test_dir := None; build_output_dir := None;
     is_multi_module := false; parent_project := None; modules := [];
     has_dockerfile := d; has_tests := t; test_framework := None;
     package_manager_lock := None |}.

(** ** resolver.py: the priority score *)

(** [xs.index(x)]: the first position of [x], [None] for [ValueError]. *)
Fixpoint list_index {A} `{EqDecision A} (xs : list A) (x : A) : option nat :=
  match xs with
  | [] => None
  | y :: ys => if decide (y = x) then Some O else S <$> list_index ys x
  end.

Definition LANGUAGE_PRIORITY : list Language.t :=
  [Language.JAVA; Language.KOTLIN; Language.DOTNET; Language.GO;
   Language.PYTHON; Language.PHP; Language.TYPESCRIPT; Language.NODEJS].

Definition FRAMEWORK_PRIORITY : gmap Framework.t Z :=
  list_to_map
    [(Framework.SPRING_BOOT, 0); (Framework.QUARKUS, 1);
     (Framework.MICRONAUT, 2); (Framework.KTOR, 3);
     (Framework.DJANGO, 0); (Framework.FASTAPI, 1);
     (Framework.FLASK, 2); (Framework.AIOHTTP, 3);
     (Framework.NESTJS, 0); (Framework.EXPRESS, 1);
     (Framework.NEXTJS, 10); (Framework.NUXT, 11);
     (Framework.ANGULAR, 20); (Framework.VUE, 21); (Framework.REACT, 22);
     (Framework.GIN, 0); (Framework.ECHO, 1); (Framework.FIBER, 2);
     (Framework.LARAVEL, 0); (Framework.SYMFONY, 1);
     (Framework.YII, 2); (Framework.CODEIGNITER, 3);
     (Framework.ASPNET_CORE, 0); (Framework.BLAZOR, 1)].

(** [x in xs] on a list literal. *)
Definition py_in {A} `{EqDecision A} (x : A) (xs : list A) : bool :=
  bool_decide (x ∈ xs).

Definition _get_priority (stack : DetectedStack) : Z :=
  let base_priority :=
    match list_index LANGUAGE_PRIORITY (language stack) with
    | Some i => Z.of_nat i * 100
    | None => 999
    end in
  let framework_priority := default 50 (FRAMEWORK_PRIORITY !! framework stack) in
  let base_priority := base_priority + framework_priority in
  let base_priority :=
    if bool_decide (language stack = Language.TYPESCRIPT) then
      if py_in (framework stack) [Framework.NESTJS; Framework.EXPRESS]
      then base_priority - 50 else base_priority
    else base_priority in
  let base_priority :=
    if bool_decide (language stack = Language.NODEJS) then
      if py_in (framework stack)
           [Framework.REACT; Framework.VUE; Framework.ANGULAR]
      then base_priority + 200 else base_priority
    else base_priority in
  let base_priority :=
    if bool_decide (language stack = Language.KOTLIN) then
      if bool_decide (framework stack = Framework.KTOR)
      then base_priority - 10 else base_priority
    else base_priority in
  let base_priority :=
    if has_dockerfile stack then base_priority - 5 else base_priority in
  let base_priority :=
    if has_tests stack then base_priority - 3 else base_priority in
  base_priority.

(** *** The reference formula of the specification *)

Module Reference.
(** 0-based position in the precedence list Java, Kotlin, .NET, Go,
      Python, PHP, TypeScript, Node.js. *)
Definition language_rank (l : Language.t) : option Z :=
    match l with
    | Language.JAVA => Some 0 | Language.KOTLIN => Some 1
    | Language.DOTNET => Some 2 | Language.GO => Some 3
    | Language.PYTHON => Some 4 | Language.PHP => Some 5
    | Language.TYPESCRIPT => Some 6 | Language.NODEJS => Some 7
    | Language.UNKNOWN => None
    end.

Definition base (l : Language.t) : Z :=
    match language_rank l with Some r => r * 100 | None => 999 end.

(** The framework rank table of the glossary; unlisted = 50. *)
Definition framework_rank (f : Framework.t) : Z :=
    match f with
    | Framework.SPRING_BOOT => 0 | Framework.QUARKUS => 1
    | Framework.MICRONAUT => 2 | Framework.KTOR => 3
    | Framework.DJANGO => 0 | Framework.FASTAPI => 1
    | Framework.FLASK => 2 | Framework.AIOHTTP => 3
    | Framework.NESTJS => 0 | Framework.EXPRESS => 1
    | Framework.NEXTJS => 10 | Framework.NUXT => 11
    | Framework.ANGULAR => 20 | Framework.VUE => 21 | Framework.REACT => 22
    | Framework.GIN => 0 | Framework.ECHO => 1 | Framework.FIBER => 2
    | Framework.LARAVEL => 0 | Framework.SYMFONY => 1
    | Framework.YII => 2 | Framework.CODEIGNITER => 3
    | Framework.ASPNET_CORE => 0 | Framework.BLAZOR => 1
    | Framework.NONE => 50
    end.

Definition is_backend_ts (s : DetectedStack) : bool :=
    match language s, framework s with
    | Language.TYPESCRIPT, (Framework.NESTJS | Framework.EXPRESS) => true
    | _, _ => false
    end.

Definition is_frontend_js (s : DetectedStack) : bool :=
    match language s, framework s with
    | Language.NODEJS, (Framework.REACT | Framework.VUE | Framework.ANGULAR) => true
    | _, _ => false
    end.

Definition is_kotlin_ktor (s : DetectedStack) : bool :=
    match language s, framework s with
    | Language.KOTLIN, Framework.KTOR => true
    | _, _ => false
    end.

(** [when b z]: the adjustment [z] applies only if [b] holds. *)
Definition when (b : bool) (z : Z) : Z := if b then z else 0.

Definition score (s : DetectedStack) : Z :=
    base (language s) + framework_rank (framework s)
    + when (is_backend_ts s) (-50)
    + when (is_frontend_js s) 200
    + when (is_kotlin_ktor s) (-10)
    + when (has_dockerfile s) (-5)
    + when (has_tests s) (-3).
End Reference.


(** ** Python's stable sort *)

(** [sorted(xs, key=key)] and [xs.sort(key=key)] order by ascending key and
    keep elements of equal key in their input order.  The model is a
    right-to-left insertion sort: the element that came first in the input
    is inserted last and stops in front of the first element whose key is
    not smaller. *)
Fixpoint insert_by {A} (key : A -> Z) (x : A) (ys : list A) : list A :=
  match ys with
  | [] => [x]
  | y :: ys' => if key x <=? key y then x :: y :: ys' else y :: insert_by key x ys'
  end.

Definition sorted {A} (key : A -> Z) (xs : list A) : list A :=
  foldr (insert_by key) [] xs.

(** The first element, in input order, among those of minimal key. *)
Fixpoint first_min {A} (key : A -> Z) (x : A) (xs : list A) : A :=
  match xs with
  | [] => x
  | y :: ys => let m := first_min key y ys in if key x <=? key m then x else m
  end.

(** Exchange of the elements at positions [i] and [j] (nothing happens when
    a position is out of range). *)
Definition swap {A} (i j : nat) (l : list A) : list A :=
  match l !! i, l !! j with
  | Some a, Some b => <[j := a]> (<[i := b]> l)
  | _, _ => l
  end.

(** Where the element at position [k] of [swap i j l] comes from. *)
Definition transp (i j k : nat) : nat :=
  if decide (k = i) then j else if decide (k = j) then i else k.

(** ** Exceptions

    [ValidationError] is the class of pydantic's validation errors: the
    message, which tells the field that failed, is not kept, so that two
    validation errors are not told apart. *)

Inductive exn :=
| ValueError (msg : string)
| ValidationError
| IndexError
| TypeError.

Inductive result (A : Type) :=
| Ok (a : A)
| Raise (e : exn).
Arguments Ok {A} a.
Arguments Raise {A} e.

#[global] Instance result_ret : MRet result := fun A a => Ok a.
#[global] Instance result_bind : MBind result :=
  fun A B f m => match m with Ok a => f a | Raise e => Raise e end.

(** The error raised for an empty candidate list. *)
Definition EmptyInputError : exn :=
  ValueError "No technology stack detected. Cannot generate pipeline.".

(** ** Strings and paths *)

(** [s.split(sep)] for a one-character separator. *)
Fixpoint split_on (sep : ascii) (s : string) : list string :=
  match s with
  | EmptyString => [EmptyString]
  | String c s' =>
      if Ascii.eqb c sep then EmptyString :: split_on sep s'
      else match split_on sep s' with
           | [] => [String c EmptyString]
           | w :: ws => String c w :: ws
           end
  end.

(** [needle in s] for two strings. *)
Fixpoint str_contains (needle s : string) : bool :=
  String.prefix needle s ||
  match s with
  | EmptyString => false
  | String _ s' => str_contains needle s'
  end.

(** [s.endswith(suffix)]. *)
Definition endswith (s suffix : string) : bool :=
  let n := String.length s in
  let m := String.length suffix in
  (m <=? n)%nat && String.eqb (String.substring (n - m) m s) suffix.

(** [s.rfind(c)], [None] standing for -1. *)
Fixpoint rfind (c : ascii) (s : string) : option nat :=
  match s with
  | EmptyString => None
  | String a s' =>
      match rfind c s' with
      | Some i => Some (S i)
      | None => if Ascii.eqb a c then Some O else None
      end
  end.

Definition slash : ascii := "/"%char.
Definition dot : ascii := "."%char.

(** [os.path.join(a, b)] of [posixpath]; paths are POSIX paths
    throughout. *)
Definition os_path_join (a b : string) : string :=
  if String.prefix "/" b then b
  else if String.eqb a "" || endswith a "/" then (a ++ b)%string
  else (a ++ "/" ++ b)%string.

(** [pathlib.PurePosixPath]: the root ([""], ["/"] or ["//"]) and the
    segments, with empty and ["."] segments dropped as pathlib drops them. *)
Module Path.
Record t := { root : string; segments : list string }.

Definition is_segment (c : string) : bool :=
  negb (String.eqb c "") && negb (String.eqb c ".").

Definition of_str (s : string) : t :=
  {| root := if String.prefix "//" s && negb (String.prefix "///" s) then "//"
             else if String.prefix "/" s then "/" else "";
     segments := List.filter is_segment (split_on slash s) |}.

(** [p / child] *)
Definition truediv (p : t) (child : string) : t :=
  let c := of_str child in
  if String.eqb (root c) "" then
    {| root := root p; segments := segments p ++ segments c |}
  else c.

(** [p.name]: the last segment, [""] when there is none. *)
Definition name (p : t) : string := List.last (segments p) "".

(** [p.stem]: the name without its last suffix. *)
Definition stem (p : t) : string :=
  let n := name p in
  match rfind dot n with
  | Some i =>
      if (0 <? i)%nat && (i <? String.length n - 1)%nat
      then String.substring 0 i n else n
  | None => n
  end.
End Path.

(** ** Values read from manifests *)

(** What [json.load] and [tomllib.load] return, and what the local
    variables [name] and [version] of the extractors hold. *)
#[warnings="-register-all"]
Inductive pyval :=
| PyNone
| PyBool (b : bool)
| PyInt (z : Z)
| PyFloat (f : spec_float)
| PyDate (iso : string)
| PyStr (s : string)
| PyList (items : list pyval)
| PyDict (entries : gmap string pyval).

(** [bool(v)] *)
Definition py_truthy (v : pyval) : bool :=
  match v with
  | PyNone => false
  | PyBool b => b
  | PyInt z => negb (Z.eqb z 0)
  | PyFloat f => match f with S754_zero _ => false | _ => true end
  | PyDate _ => true
  | PyStr s => negb (String.eqb s "")
  | PyList items => match items with [] => false | _ => true end
  | PyDict entries => match map_to_list entries with [] => false | _ => true end
  end.

(** [v.get(key, dflt)]; [None]: the call raises ([AttributeError] when [v]
    is not a dict). *)
Definition py_get (v : pyval) (key : string) (dflt : pyval) : option pyval :=
  match v with
  | PyDict entries => Some (default dflt (entries !! key))
  | _ => None
  end.

(** [v[key]] for a string key; [None]: [KeyError] or [TypeError]. *)
Definition py_getitem (v : pyval) (key : string) : option pyval :=
  match v with
  | PyDict entries => entries !! key
  | _ => None
  end.

Definition is_str (s : string) (v : pyval) : bool :=
  match v with PyStr s' => String.eqb s s' | _ => false end.

(** [key in v] for a string key; [None]: [TypeError]. *)
Definition py_contains (key : string) (v : pyval) : option bool :=
  match v with
  | PyDict entries => Some (bool_decide (is_Some (entries !! key)))
  | PyStr s => Some (str_contains key s)
  | PyList items => Some (existsb (is_str key) items)
  | _ => None
  end.

(** [v.split("/")[-1]]; [None]: [AttributeError] when [v] is not a str. *)
Definition py_split_last (v : pyval) : option pyval :=
  match v with
  | PyStr s => Some (PyStr (List.last (split_on slash s) ""))
  | _ => None
  end.

(** An [xml.etree.ElementTree] element. *)
#[warnings="-register-all"]
Inductive Element :=
| Elem (tag : string) (text : option string) (children : list Element).

Definition tag_of (e : Element) : string := let 'Elem t _ _ := e in t.
Definition text_of (e : Element) : option string := let 'Elem _ t _ := e in t.
Definition children_of (e : Element) : list Element := let 'Elem _ _ c := e in c.

(** [e.find(tag)]: the first direct child with that tag. *)
Definition find_child (tag : string) (e : Element) : option Element :=
  List.find (fun c => String.eqb (tag_of c) tag) (children_of e).

(** [e.find(".//tag")]: the first descendant with that tag, in document
    order. *)
Fixpoint find_descendant (tag : string) (e : Element) : option Element :=
  let fix go (cs : list Element) : option Element :=
    match cs with
    | [] => None
    | c :: cs' =>
        if String.eqb (tag_of c) tag then Some c
        else match find_descendant tag c with
             | Some r => Some r
             | None => go cs'
             end
    end in
  go (children_of e).

(** [elem.text] as a Python value. *)
Definition py_text (e : Element) : pyval :=
  match text_of e with Some s => PyStr s | None => PyNone end.

(** The regular expressions of the extractors, each with one group:
    - [RE_NAME]: the word name, an equals sign, a quoted non-empty text;
    - [RE_VERSION]: the word version, an equals sign, a quoted non-empty text;
    - [RE_ROOT_PROJECT_NAME]: rootProject.name, an equals sign, a quoted
      non-empty text;
    - [RE_MODULE]: at the start of a line, the word module, blanks and a
      run of non-blank characters (multi-line mode). *)
Inductive Regex := RE_NAME | RE_VERSION | RE_ROOT_PROJECT_NAME | RE_MODULE.

(** ** The environment of metadata extraction

    The file system as the extractors probe it, and the library calls they
    make on what they read.  [None] says that the call raises.  The probes
    [exists()] and [glob] answer here; a file system on which they can
    raise [OSError] is the subject of [Probing] below, where
    [_extract_metadata] is shown to do what it does here as long as no
    probe raises. *)
Record Env := {
  (** [p.exists()] *)
  path_exists : Path.t -> bool;
  (** [open(p)] followed by [json.load] *)
  json_load : Path.t -> option pyval;
  (** [open(p, "rb")] followed by [tomllib.load] *)
  toml_load : Path.t -> option pyval;
  (** [p.read_text(encoding="utf-8")] *)
  read_text : Path.t -> option string;
  (** [ET.parse(p).getroot()] *)
  xml_parse : Path.t -> option Element;
  (** [list(p.glob("*.csproj"))] *)
  glob_csproj : Path.t -> list Path.t;
  (** [re.search(pattern, content)]: group 1 of the first match. *)
  re_search : Regex -> string -> option string;
}.

(** ** The body of a [try] block

    A computation over the two local variables [name] and [version] that
    may raise; the assignments made before the exception stay. *)
Record locals := { l_name : pyval; l_version : pyval }.

Definition Try (A : Type) : Type := locals -> option A * locals.

#[global] Instance Try_ret : MRet Try := fun A a s => (Some a, s).
#[global] Instance Try_bind : MBind Try :=
  fun A B f m s =>
    match m s with
    | (Some a, s') => f a s'
    | (None, s') => (None, s')
    end.

(** A call that may raise. *)
Definition call {A} (o : option A) : Try A := fun s => (o, s).
Definition get_name : Try pyval := fun s => (Some (l_name s), s).
Definition get_version : Try pyval := fun s => (Some (l_version s), s).
Definition set_name (v : pyval) : Try unit :=
  fun s => (Some tt, {| l_name := v; l_version := l_version s |}).
Definition set_version (v : pyval) : Try unit :=
  fun s => (Some tt, {| l_name := l_name s; l_version := v |}).
Definition pass : Try unit := mret tt.

(** [try: body / except Exception: pass] *)
Definition try_except_pass (body : Try unit) (s : locals) : locals :=
  snd (body s).

(** ** resolver.py: metadata extraction *)

Definition MAVEN_NS : string := "{http://maven.apache.org/POM/4.0.0}".

(** [name = v.get("name", name); version = v.get("version", version)] *)
Definition get_name_version (v : pyval) : Try unit :=
  name ← get_name;
  n ← call (py_get v "name" name);
  set_name n;;
  version ← get_version;
  w ← call (py_get v "version" version);
  set_version w.

(** [match = re.search(re, content); if match: name = match.group(1)] *)
Definition search_name (env : Env) (re : Regex) (content : string) : Try unit :=
  match re_search env re content with
  | Some g => set_name (PyStr g)
  | None => pass
  end.

Definition search_version (env : Env) (re : Regex) (content : string) : Try unit :=
  match re_search env re content with
  | Some g => set_version (PyStr g)
  | None => pass
  end.

Definition _extract_from_package_json (env : Env) (root : Path.t)
    (s : locals) : locals :=
  let package_json := Path.truediv root "package.json" in
  if path_exists env package_json then
    try_except_pass
      (data ← call (json_load env package_json);
       get_name_version data) s
  else s.

Definition _extract_from_python_config (env : Env) (root : Path.t)
    (stack : DetectedStack) (s : locals) : locals :=
  let pyproject := Path.truediv root "pyproject.toml" in
  let s :=
    if path_exists env pyproject then
      try_except_pass
        (data ← call (toml_load env pyproject);
         has_tool ← call (py_contains "tool" data);
         is_poetry ←
           (if has_tool : bool then
              tool ← call (py_getitem data "tool");
              call (py_contains "poetry" tool)
            else mret false);
         if is_poetry : bool then
           tool ← call (py_getitem data "tool");
           poetry ← call (py_getitem tool "poetry");
           get_name_version poetry
         else
           has_project ← call (py_contains "project" data);
           if has_project : bool then
             project ← call (py_getitem data "project");
             get_name_version project
           else pass) s
    else s in
  let setup_py := Path.truediv root "setup.py" in
  if negb (py_truthy (l_name s)) && path_exists env setup_py then
    try_except_pass
      (content ← call (read_text env setup_py);
       search_name env RE_NAME content;;
       search_version env RE_VERSION content) s
  else s.

Definition _extract_from_jvm_config (env : Env) (root : Path.t)
    (stack : DetectedStack) (s : locals) : locals :=
  let pom_xml := Path.truediv root "pom.xml" in
  let s :=
    if path_exists env pom_xml then
      try_except_pass
        (root_elem ← call (xml_parse env pom_xml);
         let artifact_id :=
           match find_child (MAVEN_NS ++ "artifactId")%string root_elem with
           | Some e => Some e
           | None => find_child "artifactId" root_elem
           end in
         match artifact_id with
         | Some e => set_name (py_text e)
         | None => pass
         end;;
         let ver :=
           match find_child (MAVEN_NS ++ "version")%string root_elem with
           | Some e => Some e
           | None => find_child "version" root_elem
           end in
         match ver with
         | Some e => set_version (py_text e)
         | None => pass
         end) s
    else s in
  let build_gradle := Path.truediv root "build.gradle" in
  let s :=
    if negb (py_truthy (l_name s)) && path_exists env build_gradle then
      try_except_pass
        (content ← call (read_text env build_gradle);
         search_name env RE_ROOT_PROJECT_NAME content;;
         search_version env RE_VERSION content) s
    else s in
  let settings_gradle := Path.truediv root "settings.gradle" in
  if negb (py_truthy (l_name s)) && path_exists env settings_gradle then
    try_except_pass
      (content ← call (read_text env settings_gradle);
       search_name env RE_ROOT_PROJECT_NAME content) s
  else s.

Definition _extract_from_go_mod (env : Env) (root : Path.t)
    (s : locals) : locals :=
  let go_mod := Path.truediv root "go.mod" in
  if path_exists env go_mod then
    try_except_pass
      (content ← call (read_text env go_mod);
       match re_search env RE_MODULE content with
       | Some module_path =>
           n ← call (py_split_last (PyStr module_path));
           set_name n
       | None => pass
       end) s
  else s.

Definition _extract_from_csproj (env : Env) (root : Path.t)
    (stack : DetectedStack) (s : locals) : locals :=
  let config_file := default "" (config_file stack) in
  let csproj_path :=
    if endswith config_file ".csproj"
    then Some (Path.truediv root config_file) else None in
  let csproj_path :=
    match csproj_path with
    | Some p => Some p
    | None =>
        match glob_csproj env root with
        | p :: _ => Some p
        | [] => None
        end
    end in
  match csproj_path with
  | Some p =>
      if path_exists env p then
        try_except_pass
          (root_elem ← call (xml_parse env p);
           set_name (PyStr (Path.stem p));;
           match find_descendant "Version" root_elem with
           | Some ver =>
               if py_truthy (py_text ver) then set_version (py_text ver)
               else pass
           | None => pass
           end) s
      else s
  | None => s
  end.

Definition _extract_from_composer (env : Env) (root : Path.t)
    (s : locals) : locals :=
  let composer_json := Path.truediv root "composer.json" in
  if path_exists env composer_json then
    try_except_pass
      (data ← call (json_load env composer_json);
       full_name ← call (py_get data "name" (PyStr ""));
       has_slash ←
         (if py_truthy full_name then call (py_contains "/" full_name)
          else mret false);
       (if has_slash : bool then
          n ← call (py_split_last full_name);
          set_name n
        else if py_truthy full_name then set_name full_name
        else pass);;
       version ← get_version;
       w ← call (py_get data "version" version);
       set_version w) s
  else s.

(** [ProjectMetadata(name=n, version=v)]: both fields are declared [str],
    and the model validates what it is given. *)
Definition validate_str (v : pyval) : result string :=
  match v with
  | PyStr s => Ok s
  | _ => Raise ValidationError
  end.

Definition new_ProjectMetadata (n v : pyval) : result ProjectMetadata :=
  n' ← validate_str n;
  v' ← validate_str v;
  mret {| name := n'; version := v'; description := None |}.

Definition _extract_metadata (env : Env) (stack : DetectedStack)
    (root_path : string) : result ProjectMetadata :=
  let s := {| l_name := PyNone; l_version := PyStr "0.1.0" |} in
  let root := Path.of_str root_path in
  let s :=
    if py_in (language stack) [Language.NODEJS; Language.TYPESCRIPT] then
      _extract_from_package_json env root s
    else if bool_decide (language stack = Language.PYTHON) then
      _extract_from_python_config env root stack s
    else if py_in (language stack) [Language.JAVA; Language.KOTLIN] then
      _extract_from_jvm_config env root stack s
    else if bool_decide (language stack = Language.GO) then
      _extract_from_go_mod env root s
    else if bool_decide (language stack = Language.DOTNET) then
      _extract_from_csproj env root stack s
    else if bool_decide (language stack = Language.PHP) then
      _extract_from_composer env root s
    else s in
  let name :=
    if negb (py_truthy (l_name s)) then
      if negb (String.eqb (Path.name root) "") then PyStr (Path.name root)
      else PyStr ("auto-generated-" ++ Language.value (language stack))%string
    else l_name s in
  new_ProjectMetadata name (l_version s).

(** ** models.py: the project context

    [R] is what a context holds for a stack: the record itself when
    contexts are compared by value, an object reference when the identity
    of the caller's objects matters. *)
Record ProjectContext {R : Type} := {
  metadata : ProjectMetadata;
  stack : R;
  root_path : string;
  source_path : string;
  docker_context : string;
  is_monorepo : bool;
  detected_projects : list R;
  extra_vars : gmap string pyval;
}.
Arguments ProjectContext R : clear implicits.

(** [ProjectContext(metadata=m, stack=w, root_path=r, is_monorepo=b,
    detected_projects=ps)], the other fields at their defaults.  The list
    given for [detected_projects] is copied into a list that belongs to the
    context; its elements are not copied. *)
Definition new_ProjectContext {R} (m : ProjectMetadata) (w : R) (r : string)
    (b : bool) (ps : list R) : ProjectContext R :=
  {| metadata := m; stack := w; root_path := r; source_path := ".";
     docker_context := "."; is_monorepo := b; detected_projects := ps;
     extra_vars := ∅ |}.

(** ** resolver.py: resolution, on values

    The calls to the logger are left out: they read the stacks and write
    to the log only. *)

(** [xs[0]] *)
Definition getitem0 {A} (xs : list A) : result A :=
  match xs !! 0%nat with
  | Some x => Ok x
  | None => Raise IndexError
  end.

(** [bool(xs)] for a list. *)
Definition list_truthy {A} (xs : list A) : bool :=
  match xs with [] => false | _ => true end.

(** [bool(s)] for an [Optional[str]]. *)
Definition opt_str_truthy (o : option string) : bool :=
  match o with
  | Some s => negb (String.eqb s "")
  | None => false
  end.

(** [os.path.join(root_path, stack.project_root) if stack.project_root
    else root_path] *)
Definition project_path_of (root_path : string) (s : DetectedStack) : string :=
  if opt_str_truthy (project_root s)
  then os_path_join root_path (default "" (project_root s))
  else root_path.

Definition resolve (env : Env) (detected_stacks : list DetectedStack)
    (root_path : string) : result (ProjectContext DetectedStack) :=
  if negb (list_truthy detected_stacks) then Raise EmptyInputError
  else
    let is_monorepo := (1 <? length detected_stacks)%nat in
    let sorted_stacks := sorted _get_priority detected_stacks in
    winner ← getitem0 sorted_stacks;
    metadata ← _extract_metadata env winner root_path;
    mret (new_ProjectContext metadata winner root_path is_monorepo
            (if is_monorepo then detected_stacks else [])).

Definition resolve_all (env : Env) (detected_stacks : list DetectedStack)
    (root_path : string) : result (list (ProjectContext DetectedStack)) :=
  if negb (list_truthy detected_stacks) then Raise EmptyInputError
  else
    contexts ←
      mapM (fun stack =>
              let project_path := project_path_of root_path stack in
              metadata ← _extract_metadata env stack project_path;
              mret (new_ProjectContext metadata stack project_path false []))
           detected_stacks;
    mret (sorted (fun ctx => _get_priority (stack ctx)) contexts).

(** ** resolver.py: resolution, on objects

    The caller's candidate list and the stacks in it are objects with an
    identity: the store maps each reference to the object it denotes.
    [sorted] allocates the list it returns, [list.sort] rewrites the list
    it is called on. *)
Definition loc := nat.

Inductive obj :=
| ObjStack (s : DetectedStack)
| ObjStackList (items : list loc)
| ObjContextList (items : list (ProjectContext loc)).

Abbreviation store := (gmap loc obj).

Definition St (A : Type) : Type := store -> result A * store.

#[global] Instance St_ret : MRet St := fun A a h => (Ok a, h).
#[global] Instance St_bind : MBind St :=
  fun A B f m h =>
    match m h with
    | (Ok a, h') => f a h'
    | (Raise e, h') => (Raise e, h')
    end.

Definition raise {A} (e : exn) : St A := fun h => (Raise e, h).
Definition lift {A} (r : result A) : St A := fun h => (r, h).

Definition load_stack (p : loc) : St DetectedStack :=
  fun h => match h !! p with
           | Some (ObjStack s) => (Ok s, h)
           | _ => (Raise TypeError, h)
           end.

Definition load_list (p : loc) : St (list loc) :=
  fun h => match h !! p with
           | Some (ObjStackList items) => (Ok items, h)
           | _ => (Raise TypeError, h)
           end.

Definition load_contexts (p : loc) : St (list (ProjectContext loc)) :=
  fun h => match h !! p with
           | Some (ObjContextList items) => (Ok items, h)
           | _ => (Raise TypeError, h)
           end.

(** A new object, at a reference that no object of the store has. *)
Definition alloc (o : obj) : St loc :=
  fun h => let p := fresh (dom h) in (Ok p, <[p := o]> h).

(** The object at [p] is overwritten. *)
Definition write (p : loc) (o : obj) : St unit :=
  fun h => (Ok tt, <[p := o]> h).

(** The order of [sorted(xs, key=keyfn)]: the keys are computed first, one
    call per element in input order, then the elements are ordered by
    their keys. *)
Definition sort_order {A} (keyfn : A -> St Z) (xs : list A) : St (list A) :=
  keys ← mapM keyfn xs;
  mret (snd <$> sorted fst (zip keys xs)).

(** [self._get_priority(p)] on a reference. *)
Definition priority_at (p : loc) : St Z :=
  s ← load_stack p; mret (_get_priority s).

Definition resolve_obj (env : Env) (detected_stacks : loc)
    (root_path : string) : St (ProjectContext loc) :=
  items ← load_list detected_stacks;
  if negb (list_truthy items) then raise EmptyInputError
  else
    counted ← load_list detected_stacks;
    let is_monorepo := (1 <? length counted)%nat in
    items ← load_list detected_stacks;
    order ← sort_order priority_at items;
    sorted_stacks ← alloc (ObjStackList order);
    first ← load_list sorted_stacks;
    winner ← lift (getitem0 first);
    w ← load_stack winner;
    metadata ← lift (_extract_metadata env w root_path);
    projects ← (if is_monorepo then load_list detected_stacks else mret []);
    mret (new_ProjectContext metadata winner root_path is_monorepo projects).

(** One turn of the loop of [resolve_all]. *)
Definition resolve_all_step (env : Env) (root_path : string) (contexts : loc)
    (stack : loc) : St unit :=
  s ← load_stack stack;
  let project_path := project_path_of root_path s in
  metadata ← lift (_extract_metadata env s project_path);
  cs ← load_contexts contexts;
  write contexts
    (ObjContextList
       (cs ++ [new_ProjectContext metadata stack project_path false []])).

Definition resolve_all_obj (env : Env) (detected_stacks : loc)
    (root_path : string) : St loc :=
  items ← load_list detected_stacks;
  if negb (list_truthy items) then raise EmptyInputError
  else
    contexts ← alloc (ObjContextList []);
    items ← load_list detected_stacks;
    mapM (resolve_all_step env root_path contexts) items;;
    cs ← load_contexts contexts;
    order ← sort_order (fun ctx => priority_at (stack ctx)) cs;
    write contexts (ObjContextList order);;
    mret contexts.

(** *** Reading the store by value *)

Definition deref_stack (h : store) (p : loc) : option DetectedStack :=
  match h !! p with
  | Some (ObjStack s) => Some s
  | _ => None
  end.

(** The candidate list at [l]: its stacks by value, in the order of the
    list. *)
Definition candidates (h : store) (l : loc) : option (list DetectedStack) :=
  match h !! l with
  | Some (ObjStackList items) => mapM (deref_stack h) items
  | _ => None
  end.

Definition deref_context (h : store) (c : ProjectContext loc)
    : option (ProjectContext DetectedStack) :=
  w ← deref_stack h (stack c);
  ps ← mapM (deref_stack h) (detected_projects c);
  mret {| metadata := metadata c; stack := w; root_path := root_path c;
          source_path := source_path c; docker_context := docker_context c;
          is_monorepo := is_monorepo c; detected_projects := ps;
          extra_vars := extra_vars c |}.

Definition contexts_at (h : store) (l : loc)
    : option (list (ProjectContext DetectedStack)) :=
  match h !! l with
  | Some (ObjContextList cs) => mapM (deref_context h) cs
  | _ => None
  end.

(** ** resolver.py: probes that raise

    [exists()] and [glob] are called outside the [try] blocks.  An
    [OSError] that one of them raises (a path that is too long, a
    directory that may not be searched) leaves the extractor and
    [_extract_metadata].  [Env] describes the file systems on which these
    probes answer; here they can raise as well, and the extractors are
    those of the source again, with every probe in its place. *)
Module Probing.

Record Probes := {
  (** [p.exists()] raises [OSError] *)
  exists_raises : Path.t -> bool;
  (** [list(p.glob("*.csproj"))] raises [OSError] *)
  glob_raises : Path.t -> bool;
}.

(** The outcome of code that probes the file system outside of a [try]
    block: a value, or the [OSError] of a probe. *)
Inductive probed (A : Type) :=
| Answered (a : A)
| OSError.
Arguments Answered {A} a.
Arguments OSError {A}.

#[global] Instance probed_ret : MRet probed := fun A a => Answered a.
#[global] Instance probed_bind : MBind probed :=
  fun A B f m => match m with Answered a => f a | OSError => OSError end.

(** [p.exists()] *)
Definition probe_exists (pr : Probes) (env : Env) (p : Path.t) : probed bool :=
  if exists_raises pr p then OSError else Answered (path_exists env p).

(** [list(p.glob("*.csproj"))] *)
Definition probe_glob (pr : Probes) (env : Env) (p : Path.t)
    : probed (list Path.t) :=
  if glob_raises pr p then OSError else Answered (glob_csproj env p).

Definition _extract_from_package_json (pr : Probes) (env : Env)
    (root : Path.t) (s : locals) : probed locals :=
  let package_json := Path.truediv root "package.json" in
  e ← probe_exists pr env package_json;
  if e : bool then
    Answered
      (try_except_pass
         (data ← call (json_load env package_json);
          get_name_version data) s)
  else Answered s.

Definition _extract_from_python_config (pr : Probes) (env : Env)
    (root : Path.t) (stack : DetectedStack) (s : locals) : probed locals :=
  let pyproject := Path.truediv root "pyproject.toml" in
  e ← probe_exists pr env pyproject;
  let s :=
    if e : bool then
      try_except_pass
        (data ← call (toml_load env pyproject);
         has_tool ← call (py_contains "tool" data);
         is_poetry ←
           (if has_tool : bool then
              tool ← call (py_getitem data "tool");
              call (py_contains "poetry" tool)
            else mret false);
         if is_poetry : bool then
           tool ← call (py_getitem data "tool");
           poetry ← call (py_getitem tool "poetry");
           get_name_version poetry
         else
           has_project ← call (py_contains "project" data);
           if has_project : bool then
             project ← call (py_getitem data "project");
             get_name_version project
           else pass) s
    else s in
  let setup_py := Path.truediv root "setup.py" in
  e ← (if negb (py_truthy (l_name s)) then probe_exists pr env setup_py
       else Answered false);
  if e : bool then
    Answered
      (try_except_pass
         (content ← call (read_text env setup_py);
          search_name env RE_NAME content;;
          search_version env RE_VERSION content) s)
  else Answered s.

Definition _extract_from_jvm_config (pr : Probes) (env : Env)
    (root : Path.t) (stack : DetectedStack) (s : locals) : probed locals :=
  let pom_xml := Path.truediv root "pom.xml" in
  e ← probe_exists pr env pom_xml;
  let s :=
    if e : bool then
      try_except_pass
        (root_elem ← call (xml_parse env pom_xml);
         let artifact_id :=
           match find_child (MAVEN_NS ++ "artifactId")%string root_elem with
           | Some e => Some e
           | None => find_child "artifactId" root_elem
           end in
         match artifact_id with
         | Some e => set_name (py_text e)
         | None => pass
         end;;
         let ver :=
           match find_child (MAVEN_NS ++ "version")%string root_elem with
           | Some e => Some e
           | None => find_child "version" root_elem
           end in
         match ver with
         | Some e => set_version (py_text e)
         | None => pass
         end) s
    else s in
  let build_gradle := Path.truediv root "build.gradle" in
  e ← (if negb (py_truthy (l_name s)) then probe_exists pr env build_gradle
       else Answered false);
  let s :=
    if e : bool then
      try_except_pass
        (content ← call (read_text env build_gradle);
         search_name env RE_ROOT_PROJECT_NAME content;;
         search_version env RE_VERSION content) s
    else s in
  let settings_gradle := Path.truediv root "settings.gradle" in
  e ← (if negb (py_truthy (l_name s)) then probe_exists pr env settings_gradle
       else Answered false);
  if e : bool then
    Answered
      (try_except_pass
         (content ← call (read_text env settings_gradle);
          search_name env RE_ROOT_PROJECT_NAME content) s)
  else Answered s.

Definition _extract_from_go_mod (pr : Probes) (env : Env) (root : Path.t)
    (s : locals) : probed locals :=
  let go_mod := Path.truediv root "go.mod" in
  e ← probe_exists pr env go_mod;
  if e : bool then
    Answered
      (try_except_pass
         (content ← call (read_text env go_mod);
          match re_search env RE_MODULE content with
          | Some module_path =>
              n ← call (py_split_last (PyStr module_path));
              set_name n
          | None => pass
          end) s)
  else Answered s.

Definition _extract_from_csproj (pr : Probes) (env : Env) (root : Path.t)
    (stack : DetectedStack) (s : locals) : probed locals :=
  let config_file := default "" (config_file stack) in
  let csproj_path :=
    if endswith config_file ".csproj"
    then Some (Path.truediv root config_file) else None in
  csproj_path ←
    match csproj_path with
    | Some p => Answered (Some p)
    | None =>
        csproj_files ← probe_glob pr env root;
        Answered (match csproj_files with
                  | p :: _ => Some p
                  | [] => None
                  end)
    end;
  match csproj_path with
  | Some p =>
      e ← probe_exists pr env p;
      if e : bool then
        Answered
          (try_except_pass
             (root_elem ← call (xml_parse env p);
              set_name (PyStr (Path.stem p));;
              match find_descendant "Version" root_elem with
              | Some ver =>
                  if py_truthy (py_text ver) then set_version (py_text ver)
                  else pass
              | None => pass
              end) s)
      else Answered s
  | None => Answered s
  end.

Definition _extract_from_composer (pr : Probes) (env : Env) (root : Path.t)
    (s : locals) : probed locals :=
  let composer_json := Path.truediv root "composer.json" in
  e ← probe_exists pr env composer_json;
  if e : bool then
    Answered
      (try_except_pass
         (data ← call (json_load env composer_json);
          full_name ← call (py_get data "name" (PyStr ""));
          has_slash ←
            (if py_truthy full_name then call (py_contains "/" full_name)
             else mret false);
          (if has_slash : bool then
             n ← call (py_split_last full_name);
             set_name n
           else if py_truthy full_name then set_name full_name
           else pass);;
          version ← get_version;
          w ← call (py_get data "version" version);
          set_version w) s)
  else Answered s.

(** [_extract_metadata(stack, root_path)]: the [OSError] of a probe, or
    what the construction of [ProjectMetadata] gives. *)
Definition _extract_metadata (pr : Probes) (env : Env) (stack : DetectedStack)
    (root_path : string) : probed (result ProjectMetadata) :=
  let s := {| l_name := PyNone; l_version := PyStr "0.1.0" |} in
  let root := Path.of_str root_path in
  s ←
    (if py_in (language stack) [Language.NODEJS; Language.TYPESCRIPT] then
       _extract_from_package_json pr env root s
     else if bool_decide (language stack = Language.PYTHON) then
       _extract_from_python_config pr env root stack s
     else if py_in (language stack) [Language.JAVA; Language.KOTLIN] then
       _extract_from_jvm_config pr env root stack s
     else if bool_decide (language stack = Language.GO) then
       _extract_from_go_mod pr env root s
     else if bool_decide (language stack = Language.DOTNET) then
       _extract_from_csproj pr env root stack s
     else if bool_decide (language stack = Language.PHP) then
       _extract_from_composer pr env root s
     else Answered s);
  let name :=
    if negb (py_truthy (l_name s)) then
      if negb (String.eqb (Path.name root) "") then PyStr (Path.name root)
      else PyStr ("auto-generated-" ++ Language.value (language stack))%string
    else l_name s in
  Answered (new_ProjectMetadata name (l_version s)).

End Probing.

(** ** interfaces.py: the detector base class *)

(** What a detector can raise: [PermissionError], which the directory walk
    catches, and any other exception. *)
Inductive dexn :=
| PermissionError
| DetectorError (msg : string).

Inductive attempt (A : Type) :=
| Done (a : A)
| Failed (e : dexn).
Arguments Done {A} a.
Arguments Failed {A} e.

(** A detector: [detect(path)] returns a new stack, [None], or raises.
    The outcome depends on the path only, the directory tree being the
    same from one call to the next. *)
Record Detector := {
  detect : Path.t -> attempt (option DetectedStack);
}.

(** A directory tree as [iterdir] and [is_dir] show it: the entries of a
    directory in the order of [iterdir], [None] when listing the directory
    raises [PermissionError]. *)
#[warnings="-register-all"]
Inductive FsNode :=
| FsFile (name : string)
| FsDir (name : string) (listing : option (list FsNode)).

Definition SKIP_DIRS : gset string :=
  list_to_set
    ["node_modules"; ".git"; ".svn"; ".hg"; "__pycache__"; ".pytest_cache";
     "venv"; ".venv"; "env"; ".env"; "virtualenv";
     "vendor"; "bower_components";
     "target"; "build"; "dist"; "out"; "bin"; "obj";
     ".idea"; ".vscode"; ".gradle"; ".m2";
     "coverage"; ".nyc_output"; "htmlcov";
     ".tox"; ".nox"; ".eggs"].

Definition MAX_DEPTH : nat := 5.

(** [_should_search_dir(path)], on the name of the directory. *)
Definition should_search_name (name : string) : bool :=
  if String.prefix "." name && negb (py_in name [".github"; ".gitlab"])
  then false
  else if bool_decide (name ∈ SKIP_DIRS) then false
  else if endswith name ".egg-info" then false
  else true.

Definition _should_search_dir (path : Path.t) : bool :=
  should_search_name (Path.name path).

(** An entry of [p.iterdir()]: the directory path with one more segment. *)
Definition iterdir_child (p : Path.t) (name : string) : Path.t :=
  {| Path.root := Path.root p; Path.segments := (Path.segments p ++ [name])%list |}.

(** [p.relative_to(other)]: the segments of [p] below [other]; [None] for
    the [ValueError] raised when [p] is not below [other]. *)
Definition relative_to (p other : Path.t) : option (list string) :=
  let n := length (Path.segments other) in
  if String.eqb (Path.root p) (Path.root other)
     && bool_decide (take n (Path.segments p) = Path.segments other)
  then Some (drop n (Path.segments p))
  else None.

(** [str(rel)] for a relative path. *)
Definition str_rel (segs : list string) : string :=
  match segs with
  | [] => "."
  | _ => String.concat "/" segs
  end.

(** [stack.project_root = r] *)
Definition set_project_root (s : DetectedStack) (r : option string)
    : DetectedStack :=
  {| language := language s; framework := framework s;
     build_tool := build_tool s; language_version := language_version s;
     dependencies := dependencies s; java_version := java_version s;
     kotlin_version := kotlin_version s;
     dotnet_framework_version := dotnet_framework_version s;
     node_version := node_version s; python_version := python_version s;
     go_version := go_version s; php_version := php_version s;
     project_root := r; source_dir := source_dir s;
     config_file := config_file s; entrypoint := entrypoint s;
     test_dir := test_dir s; build_output_dir := build_output_dir s;
     is_multi_module := is_multi_module s;
     parent_project := parent_project s; modules := modules s;
     has_dockerfile := has_dockerfile s; has_tests := has_tests s;
     test_framework := test_framework s;
     package_manager_lock := package_manager_lock s |}.

(** [str(rel_path) if str(rel_path) != '.' else None] *)
Definition project_root_of_rel (segs : list string) : option string :=
  if String.eqb (str_rel segs) "." then None else Some (str_rel segs).

(** [_search_recursive(current_path, repo_root, results, depth)], where
    [node] is the directory at [current_path].  The list [results] is
    extended in place, so what was appended stays when an exception passes;
    the second component is the exception that leaves the call, if any.
    The [try] block holds the whole loop: a [PermissionError] raised by
    [iterdir] or inside a nested call ends the loop and is dropped. *)
Fixpoint _search_recursive (d : Detector) (repo_root : Path.t) (node : FsNode)
    (current_path : Path.t) (depth : nat) (results : list DetectedStack)
    {struct node} : list DetectedStack * option dexn :=
  if (MAX_DEPTH <? depth)%nat then (results, None)
  else
    match detect d current_path with
    | Failed e => (results, Some e)
    | Done found =>
        let after_detect :=
          match found with
          | Some stack =>
              match relative_to current_path repo_root with
              | Some rel =>
                  let stack := set_project_root stack (project_root_of_rel rel) in
                  ((results ++ [stack])%list, is_multi_module stack, None)
              | None => (results, true, Some (DetectorError "ValueError"))
              end
          | None => (results, false, None)
          end in
        let '(results, stop, raised) := after_detect in
        if stop : bool then (results, raised)
        else
          match node with
          | FsFile _ => (results, Some (DetectorError "NotADirectoryError"))
          | FsDir _ None => (results, None)
          | FsDir _ (Some items) =>
              (fix loop (items : list FsNode) (results : list DetectedStack)
                 : list DetectedStack * option dexn :=
                 match items with
                 | [] => (results, None)
                 | item :: rest =>
                     match item with
                     | FsDir name _ =>
                         if _should_search_dir (iterdir_child current_path name)
                         then
                           match _search_recursive d repo_root item
                                   (iterdir_child current_path name)
                                   (S depth) results with
                           | (results, None) => loop rest results
                           | (results, Some PermissionError) => (results, None)
                           | (results, Some e) => (results, Some e)
                           end
                         else loop rest results
                     | FsFile _ => loop rest results
                     end
                 end) items results
          end
    end.

(** The loop of [_search_recursive] over the entries of the directory at
    [current_path], as a function of its own. *)
Fixpoint search_loop (d : Detector) (repo_root current_path : Path.t)
    (depth : nat) (items : list FsNode) (results : list DetectedStack)
    : list DetectedStack * option dexn :=
  match items with
  | [] => (results, None)
  | item :: rest =>
      match item with
      | FsDir name _ =>
          if _should_search_dir (iterdir_child current_path name)
          then
            match _search_recursive d repo_root item
                    (iterdir_child current_path name) (S depth) results with
            | (results, None) =>
                search_loop d repo_root current_path depth rest results
            | (results, Some PermissionError) => (results, None)
            | (results, Some e) => (results, Some e)
            end
          else search_loop d repo_root current_path depth rest results
      | FsFile _ => search_loop d repo_root current_path depth rest results
      end
  end.

(** [detect_all(project_root)], where [tree] is the directory at
    [project_root]. *)
Definition detect_all (d : Detector) (tree : FsNode) (project_root : Path.t)
    : attempt (list DetectedStack) :=
  match _search_recursive d project_root tree project_root 0 [] with
  | (results, None) => Done results
  | (_, Some e) => Failed e
  end.

(** ** analyzer.py *)

#[global] Instance Language_countable : Countable Language.t.
Proof.
  refine (inj_countable'
            (fun l => match l with
                      | Language.JAVA => 0 | Language.KOTLIN => 1
                      | Language.PYTHON => 2 | Language.NODEJS => 3
                      | Language.TYPESCRIPT => 4 | Language.GO => 5
                      | Language.DOTNET => 6 | Language.PHP => 7
                      | Language.UNKNOWN => 8
                      end%nat)
            (fun n => match n with
                      | 0 => Language.JAVA | 1 => Language.KOTLIN
                      | 2 => Language.PYTHON | 3 => Language.NODEJS
                      | 4 => Language.TYPESCRIPT | 5 => Language.GO
                      | 6 => Language.DOTNET | 7 => Language.PHP
                      | _ => Language.UNKNOWN
                      end%nat) _).
  intros l; destruct l; reflexivity.
Defined.

Record Analyzer := {
  detectors : list Detector;
  recursive : bool;
}.

(** [Analyzer(recursive)] *)
Definition new_Analyzer (recursive : bool) : Analyzer :=
  {| detectors := []; recursive := recursive |}.

Definition register_detector (a : Analyzer) (d : Detector) : Analyzer :=
  {| detectors := (detectors a ++ [d])%list; recursive := recursive a |}.

(** [(result.language, result.project_root or "")] *)
Definition dedup_key (s : DetectedStack) : Language.t * string :=
  (language s, default "" (project_root s)).

Definition _analyze_single (a : Analyzer) (project_root : Path.t)
    : list DetectedStack :=
  foldl (fun results d =>
           match detect d project_root with
           | Done (Some result) => (results ++ [result])%list
           | Done None => results
           | Failed _ => results
           end)
        [] (detectors a).

(** [if key not in seen_paths: all_results.append(result);
    seen_paths.add(key)] *)
Definition add_unseen (acc : list DetectedStack * gset (Language.t * string))
    (result : DetectedStack) : list DetectedStack * gset (Language.t * string) :=
  let '(all_results, seen_paths) := acc in
  if bool_decide (dedup_key result ∈ seen_paths) then acc
  else ((all_results ++ [result])%list, {[dedup_key result]} ∪ seen_paths).

(** One turn of the loop over the detectors in [_analyze_recursive]; an
    exception ends the turn and keeps what the turn has appended. *)
Definition analyze_detector (tree : FsNode) (project_root : Path.t)
    (acc : list DetectedStack * gset (Language.t * string)) (d : Detector)
    : list DetectedStack * gset (Language.t * string) :=
  match detect d project_root with
  | Failed _ => acc
  | Done root_result =>
      let '(acc, skip) :=
        match root_result with
        | Some r =>
            if bool_decide (dedup_key r ∈ acc.2) then (acc, false)
            else (add_unseen acc r, is_multi_module r)
        | None => (acc, false)
        end in
      if skip : bool then acc
      else
        match detect_all d tree project_root with
        | Failed _ => acc
        | Done recursive_results => foldl add_unseen acc recursive_results
        end
  end.

Definition _analyze_recursive (a : Analyzer) (tree : FsNode)
    (project_root : Path.t) : list DetectedStack :=
  (foldl (analyze_detector tree project_root) ([], ∅) (detectors a)).1.

Definition analyze (a : Analyzer) (tree : FsNode) (project_root : Path.t)
    : list DetectedStack :=
  if recursive a then _analyze_recursive a tree project_root
  else _analyze_single a project_root.

Definition analyze_path (a : Analyzer) (env : Env) (project_root : Path.t)
    (path : string) : list DetectedStack :=
  let target_path := Path.truediv project_root path in
  if negb (path_exists env target_path) then []
  else
    foldl (fun results d =>
             match detect d target_path with
             | Done (Some result) =>
                 (results ++ [set_project_root result (Some path)])%list
             | Done None => results
             | Failed _ => results
             end)
          [] (detectors a).

(** ** Notions used by the statements *)

(** The context that [resolve] builds once the winner [w] is known. *)
Definition context_around (env : Env) (w : DetectedStack) (root_path : string)
    (detected_stacks : list DetectedStack)
    : result (ProjectContext DetectedStack) :=
  metadata ← _extract_metadata env w root_path;
  mret (new_ProjectContext metadata w root_path
          (1 <? length detected_stacks)%nat
          (if (1 <? length detected_stacks)%nat then detected_stacks else [])).

(** [w] stands at position [p] of [l], every candidate before it has a
    strictly larger key and no candidate has a smaller one: [w] is the
    earliest candidate of minimal key. *)
Definition wins_at {A} (key : A -> Z) (l : list A) (p : nat) (w : A) : Prop :=
  l !! p = Some w /\
  (forall k y, (k < p)%nat -> l !! k = Some y -> key w < key y) /\
  (forall k y, l !! k = Some y -> key w <= key y).

(** Ascending order of the keys: each element is below all later ones. *)
Definition ascending {A} (key : A -> Z) (l : list A) : Prop :=
  StronglySorted (fun x y => key x <= key y) l.

(** The candidates of key [k], in the order of the list. *)
Definition of_key {A} (key : A -> Z) (k : Z) (l : list A) : list A :=
  List.filter (fun x => Z.eqb (key x) k) l.

Definition is_Ok {A} (r : result A) : Prop := exists a, r = Ok a.

(** [m] leaves the store as it found it. *)
Definition reads_only {A} (m : St A) : Prop :=
  forall h, (m h).2 = h.

(** [m] changes the store at [p] at most. *)
Definition modifies_only {A} (p : loc) (m : St A) : Prop :=
  forall h q, q <> p -> (m h).2 !! q = h !! q.

(** Every object of the store is still there, unchanged, after [m]. *)
Definition preserves {A} (m : St A) : Prop :=
  forall h q o, h !! q = Some o -> (m h).2 !! q = Some o.

(** The outcome of [resolve_obj], read by value in the store it leaves. *)
Definition resolved_value (out : result (ProjectContext loc) * store)
    : result (option (ProjectContext DetectedStack)) :=
  match out with
  | (Ok c, h) => Ok (deref_context h c)
  | (Raise e, _) => Raise e
  end.

(** The outcome of [resolve_all_obj], read by value. *)
Definition resolved_all_value (out : result loc * store)
    : result (option (list (ProjectContext DetectedStack))) :=
  match out with
  | (Ok l, h) => Ok (contexts_at h l)
  | (Raise e, _) => Raise e
  end.

(** The band of scores of a language: its lowest and highest score over all
    frameworks and flags. *)
Definition score_low (l : Language.t) : Z :=
  match l with
  | Language.JAVA => -8 | Language.KOTLIN => 85 | Language.DOTNET => 192
  | Language.GO => 292 | Language.PYTHON => 392 | Language.PHP => 492
  | Language.TYPESCRIPT => 542 | Language.NODEJS => 692
  | Language.UNKNOWN => 991
  end.

Definition score_high (l : Language.t) : Z :=
  match l with
  | Language.JAVA => 50 | Language.KOTLIN => 150 | Language.DOTNET => 250
  | Language.GO => 350 | Language.PYTHON => 450 | Language.PHP => 550
  | Language.TYPESCRIPT => 650 | Language.NODEJS => 922
  | Language.UNKNOWN => 1049
  end.

(** The position of a language in [LANGUAGE_PRIORITY], the length of the
    list for a language that is not in it. *)
Definition precedence (l : Language.t) : nat :=
  default (length LANGUAGE_PRIORITY) (list_index LANGUAGE_PRIORITY l).

(** The names [segs] lead from the directory [node] down the tree: each
    is the name of a directory ([is_dir()] holds) that the listing of the
    directory before it shows. *)
Fixpoint dirs_below (node : FsNode) (segs : list string) : Prop :=
  match segs with
  | [] => True
  | n :: segs' =>
      match node with
      | FsDir _ (Some items) =>
          exists listing,
            FsDir n listing ∈ items /\ dirs_below (FsDir n listing) segs'
      | _ => False
      end
  end.

(** [r] is a stack that [d] detects in a directory of the tree under
    [node] (the directory at [base]), at most [MAX_DEPTH - depth] levels
    further down, through directories that the walk searches; its project
    root is the path of that directory relative to the repository root. *)
Definition found_below (d : Detector) (repo_root : Path.t) (node : FsNode)
    (base : list string) (depth : nat) (r : DetectedStack) : Prop :=
  exists ext s0,
    (depth + length ext <= MAX_DEPTH)%nat /\
    Forall (fun n => should_search_name n = true) ext /\
    dirs_below node ext /\
    detect d (foldl iterdir_child repo_root (base ++ ext)) = Done (Some s0) /\
    r = set_project_root s0 (project_root_of_rel (base ++ ext)).

(** [p] is the project file that [_extract_from_csproj] opens: the
    [config_file] of the stack under the root when it ends in [.csproj],
    the first file that [glob] returns otherwise. *)
Definition csproj_file (env : Env) (root : Path.t) (s : DetectedStack)
    (p : Path.t) : Prop :=
  (endswith (default "" (config_file s)) ".csproj" = true /\
   p = Path.truediv root (default "" (config_file s))) \/
  (endswith (default "" (config_file s)) ".csproj" = false /\
   head (glob_csproj env root) = Some p).

(** One of the probes raises. *)
Definition a_probe_raises (pr : Probing.Probes) : Prop :=
  (exists p, Probing.exists_raises pr p = true) \/
  (exists p, Probing.glob_raises pr p = true).

(** ** Sample inputs *)

#[global] Instance Path_eq_dec : EqDecision Path.t.
Proof. solve_decision. Defined.

(** A directory tree without any manifest. *)
Definition no_files : Env :=
  {| path_exists := fun _ => false;
     json_load := fun _ => None;
     toml_load := fun _ => None;
     read_text := fun _ => None;
     xml_parse := fun _ => None;
     glob_csproj := fun _ => [];
     re_search := fun _ _ => None |}.

(** The tree of [env] with one more file at [p], a JSON document whose
    content is [data]. *)
Definition with_json (p : Path.t) (data : pyval) (env : Env) : Env :=
  {| path_exists := fun q => if decide (q = p) then true else path_exists env q;
     json_load := fun q => if decide (q = p) then Some data else json_load env q;
     toml_load := toml_load env;
     read_text := read_text env;
     xml_parse := xml_parse env;
     glob_csproj := glob_csproj env;
     re_search := re_search env |}.

Definition demo_root : string := "/work/demo".

(** [package.json] with [{name: demo-svc, version: 2.3.1}]. *)
Definition demo_package : pyval :=
  PyDict (<["name" := PyStr "demo-svc"]> (<["version" := PyStr "2.3.1"]> ∅)).

(** [package.json] with [{name: demo-svc, version: null}]. *)
Definition null_version_package : pyval :=
  PyDict (<["name" := PyStr "demo-svc"]> (<["version" := PyNone]> ∅)).

Definition demo_env : Env :=
  with_json (Path.truediv (Path.of_str demo_root) "package.json")
    demo_package no_files.

Definition null_version_env : Env :=
  with_json (Path.truediv (Path.of_str demo_root) "package.json")
    null_version_package no_files.

Definition node_react : DetectedStack :=
  mk_stack Language.NODEJS Framework.REACT None false false.
Definition java_spring (r : option string) : DetectedStack :=
  mk_stack Language.JAVA Framework.SPRING_BOOT r false false.
Definition java_a : DetectedStack := java_spring (Some "a").
Definition java_b : DetectedStack := java_spring (Some "b").
Definition java_c : DetectedStack := java_spring (Some "c").
Definition ts_express : DetectedStack :=
  mk_stack Language.TYPESCRIPT Framework.EXPRESS None false false.
Definition ts_react : DetectedStack :=
  mk_stack Language.TYPESCRIPT Framework.REACT None false false.

(** The stacks of [demo_store] below, by value, in two other objects. *)
Definition demo_store_copy : store :=
  <[7%nat := ObjStackList [4; 9; 5]%nat]>
    (<[4%nat := ObjStack node_react]>
       (<[9%nat := ObjStack (java_spring (Some "api"))]>
          (<[5%nat := ObjStack ts_express]> ∅))).

(** A store with three stacks at 1, 2, 3 and the candidate list at 0. *)
Definition demo_store : store :=
  <[0%nat := ObjStackList [1; 2; 3]%nat]>
    (<[1%nat := ObjStack node_react]>
       (<[2%nat := ObjStack (java_spring (Some "api"))]>
          (<[3%nat := ObjStack ts_express]> ∅))).

(** *** More sample inputs *)

#[global] Instance Regex_eq_dec : EqDecision Regex.
Proof. solve_decision. Defined.

(** The tree of [env] with one more file at [p], a TOML document whose
    content is [data]. *)
Definition with_toml (p : Path.t) (data : pyval) (env : Env) : Env :=
  {| path_exists := fun q => if decide (q = p) then true else path_exists env q;
     json_load := json_load env;
     toml_load := fun q => if decide (q = p) then Some data else toml_load env q;
     read_text := read_text env;
     xml_parse := xml_parse env;
     glob_csproj := glob_csproj env;
     re_search := re_search env |}.

(** The tree of [env] with one more file at [p], an XML document whose
    root element is [e]. *)
Definition with_xml (p : Path.t) (e : Element) (env : Env) : Env :=
  {| path_exists := fun q => if decide (q = p) then true else path_exists env q;
     json_load := json_load env;
     toml_load := toml_load env;
     read_text := read_text env;
     xml_parse := fun q => if decide (q = p) then Some e else xml_parse env q;
     glob_csproj := glob_csproj env;
     re_search := re_search env |}.

(** The tree of [env] with one more text file at [p], in which [re] finds
    [group]. *)
Definition with_text (p : Path.t) (content : string) (re : Regex)
    (group : string) (env : Env) : Env :=
  {| path_exists := fun q => if decide (q = p) then true else path_exists env q;
     json_load := json_load env;
     toml_load := toml_load env;
     read_text := fun q => if decide (q = p) then Some content else read_text env q;
     xml_parse := xml_parse env;
     glob_csproj := glob_csproj env;
     re_search := fun r c =>
       if decide (r = re) then
         if String.eqb c content then Some group else re_search env r c
       else re_search env r c |}.

Definition demo_path (file : string) : Path.t :=
  Path.truediv (Path.of_str demo_root) file.

(** [pyproject.toml] with a Poetry table and a PEP 621 table. *)
Definition poetry_pyproject : pyval :=
  PyDict
    (<["tool" :=
         PyDict (<["poetry" :=
                     PyDict (<["name" := PyStr "poetry-name"]>
                               (<["version" := PyStr "1.2.3"]> ∅))]> ∅)]>
       (<["project" := PyDict (<["name" := PyStr "pep621-name"]> ∅)]> ∅)).

Definition poetry_env : Env :=
  with_toml (demo_path "pyproject.toml") poetry_pyproject
    (with_text (demo_path "setup.py") "name='setup-name'" RE_NAME "setup-name"
       no_files).

(** [pom.xml] with an artifactId and a version, beside a [build.gradle]. *)
Definition demo_pom : Element :=
  Elem (MAVEN_NS ++ "project")%string None
    [Elem (MAVEN_NS ++ "artifactId")%string (Some "demo-artifact") [];
     Elem (MAVEN_NS ++ "version")%string (Some "4.5.6") []].

Definition maven_env : Env :=
  with_xml (demo_path "pom.xml") demo_pom
    (with_text (demo_path "build.gradle") "rootProject.name = 'gradle-name'"
       RE_ROOT_PROJECT_NAME "gradle-name" no_files).

Definition go_env : Env :=
  with_text (demo_path "go.mod") "module github.com/acme/svc" RE_MODULE
    "github.com/acme/svc" no_files.

Definition composer_env : Env :=
  with_json (demo_path "composer.json")
    (PyDict (<["name" := PyStr "acme/billing"]> ∅)) no_files.

Definition go_gin : DetectedStack :=
  mk_stack Language.GO Framework.GIN None false false.
Definition python_django : DetectedStack :=
  mk_stack Language.PYTHON Framework.DJANGO None false false.
Definition php_laravel : DetectedStack :=
  mk_stack Language.PHP Framework.LARAVEL None false false.

(** The directory reached from [repo_root] through the entries [segs]. *)
Definition below (repo_root : Path.t) (segs : list string) : Path.t :=
  foldl iterdir_child repo_root segs.

(** A Maven parent project with two modules. *)
Definition multi_module_java : DetectedStack :=
  {| language := Language.JAVA; framework := Framework.QUARKUS;
     build_tool := BuildTool.MAVEN; language_version := "17";
     dependencies := [];
     java_version := Some "17"; kotlin_version := None;
     dotnet_framework_version := None; node_version := None;
     python_version := None; go_version := None; php_version := None;
     project_root := None; source_dir := None; config_file := Some "pom.xml";
     entrypoint := None; test_dir := None; build_output_dir := None;
     is_multi_module := true; parent_project := None;
     modules := ["core"; "rest"];
     has_dockerfile := false; has_tests := false; test_framework := None;
     package_manager_lock := None |}.

(** A detector that finds a Java stack in every directory named [api] or
    [billing], a multi-module one in [billing]. *)
Definition demo_java_detector : Detector :=
  {| detect := fun p =>
       if String.eqb (Path.name p) "api" then Done (Some (java_spring None))
       else if String.eqb (Path.name p) "billing" then
         Done (Some multi_module_java)
       else Done None |}.

(** A detector that finds a Node.js stack in every directory that is
    named [web], and raises in the directory [broken]. *)
Definition demo_node_detector : Detector :=
  {| detect := fun p =>
       if String.eqb (Path.name p) "web" then Done (Some node_react)
       else if String.eqb (Path.name p) "broken"
       then Failed (DetectorError "boom")
       else Done None |}.

(** A repository with [api], [web] (holding a [node_modules] with a [web]
    of its own and a nested [api]), a hidden [.cache] and a locked
    directory. *)
Definition demo_tree : FsNode :=
  FsDir "demo"
    (Some [FsFile "README.md";
           FsDir "api" (Some [FsFile "pom.xml"]);
           FsDir "web"
             (Some [FsDir "node_modules" (Some [FsDir "web" (Some [])]);
                    FsDir "api" (Some [])]);
           FsDir ".cache" (Some [FsDir "api" (Some [])]);
           FsDir "locked" None]).

Definition demo_analyzer : Analyzer :=
  register_detector
    (register_detector (new_Analyzer true) demo_java_detector)
    demo_node_detector.

(** A directory at [p]. *)
Definition with_dir (p : Path.t) (env : Env) : Env :=
  {| path_exists := fun q => if decide (q = p) then true else path_exists env q;
     json_load := json_load env;
     toml_load := toml_load env;
     read_text := read_text env;
     xml_parse := xml_parse env;
     glob_csproj := glob_csproj env;
     re_search := re_search env |}.

Definition demo_dirs_env : Env := with_dir (demo_path "web") no_files.

(** A detector that may not read the directory [demo]. *)
Definition demo_denied_detector : Detector :=
  {| detect := fun p =>
       if String.eqb (Path.name p) "demo" then Failed PermissionError
       else Done None |}.

(** Probes that never raise, and probes that may not look at [go.mod]. *)
Definition quiet_probes : Probing.Probes :=
  {| Probing.exists_raises := fun _ => false;
     Probing.glob_raises := fun _ => false |}.

Definition denied_probes : Probing.Probes :=
  {| Probing.exists_raises := fun p => bool_decide (p = demo_path "go.mod");
     Probing.glob_raises := fun _ => false |}.

(** ** Notions used by the statements on the analyzer *)

(** What the loops of [_analyze_recursive] keep: the keys of the results
    are pairwise distinct and [seen_paths] holds exactly these keys. *)
Definition dedup_ok (acc : list DetectedStack * gset (Language.t * string))
    : Prop :=
  NoDup (dedup_key <$> acc.1) /\
  (forall k, k ∈ acc.2 <-> k ∈ dedup_key <$> acc.1).

(** Where a stack of the result comes from: the detector found it in the
    root directory, or its walk returned it. *)
Definition detected_by (tree : FsNode) (project_root : Path.t) (d : Detector)
    (x : DetectedStack) : Prop :=
  detect d project_root = Done (Some x) \/
  exists rs, detect_all d tree project_root = Done rs /\ x ∈ rs.

(** The stacks that one turn of the loop of [_analyze_recursive] tests
    against [seen_paths], in the order of the tests, where [seen] holds
    the keys seen before the turn: the stack found in the root directory,
    then the stacks of the walk.  The walk is left out when the root stack
    is new and multi-module; a turn that an exception ends tests nothing
    after it. *)
Definition examined_by (tree : FsNode) (project_root : Path.t)
    (seen : gset (Language.t * string)) (d : Detector) : list DetectedStack :=
  match detect d project_root with
  | Failed _ => []
  | Done root_result =>
      let walk :=
        match detect_all d tree project_root with
        | Done recursive_results => recursive_results
        | Failed _ => []
        end in
      match root_result with
      | Some r =>
          if bool_decide (dedup_key r ∈ seen) then r :: walk
          else if is_multi_module r then [r]
          else r :: walk
      | None => walk
      end
  end.

(** All the stacks that [_analyze_recursive] tests, detector after
    detector, in the order of the tests. *)
Definition examined (a : Analyzer) (tree : FsNode) (project_root : Path.t)
    : list DetectedStack :=
  foldl (fun ex d =>
           (ex ++ examined_by tree project_root
                    (list_to_set (dedup_key <$> ex)) d)%list)
        [] (detectors a).

(** [x] stands in [l] before every other stack with its key. *)
Definition first_with_key (l : list DetectedStack) (x : DetectedStack)
    : Prop :=
  exists i, l !! i = Some x /\
            forall j y, (j < i)%nat -> l !! j = Some y ->
                        dedup_key y <> dedup_key x.

(** * Properties *)

(** ** The stable sort *)

Section Sorting.
Context {A : Type} (key : A -> Z).

Lemma insert_by_perm (x : A) (ys : list A) : insert_by key x ys ≡ₚ x :: ys.
Proof.
  induction ys as [|y ys IH]; simpl; [done|].
  destruct (key x <=? key y); [done|].
  rewrite IH. apply Permutation_swap.
Qed.

Lemma sorted_perm (xs : list A) : sorted key xs ≡ₚ xs.
Proof.
  induction xs as [|x xs IH]; simpl; [done|].
  rewrite insert_by_perm. by rewrite IH.
Qed.

Lemma sorted_length (xs : list A) : length (sorted key xs) = length xs.
Proof. apply Permutation_length, sorted_perm. Qed.

Lemma insert_by_ascending (x : A) (ys : list A) :
  ascending key ys -> ascending key (insert_by key x ys).
Proof.
  unfold ascending. induction 1 as [|y ys Hs IH Hy]; simpl.
  - repeat constructor.
  - destruct (Z.leb_spec (key x) (key y)) as [Hle|Hlt].
    + constructor; [by constructor|].
      constructor; [done|].
      eapply Forall_impl; [exact Hy|]. intros z Hz; simpl in Hz. lia.
    + constructor; [done|].
      rewrite insert_by_perm. constructor; [lia|done].
Qed.

Lemma sorted_ascending (xs : list A) : ascending key (sorted key xs).
Proof.
  induction xs as [|x xs IH]; simpl.
  - constructor.
  - by apply insert_by_ascending.
Qed.

Lemma insert_by_of_key (k : Z) (x : A) (ys : list A) :
  of_key key k (insert_by key x ys) = of_key key k (x :: ys).
Proof.
  unfold of_key. induction ys as [|y ys IH]; simpl; [done|].
  destruct (Z.leb_spec (key x) (key y)) as [Hle|Hlt]; simpl; [done|].
  rewrite IH. simpl.
  destruct (Z.eqb_spec (key x) k), (Z.eqb_spec (key y) k); try done; lia.
Qed.

(** Stability: candidates of equal key come out in their input order. *)
Lemma sorted_stable (k : Z) (xs : list A) :
  of_key key k (sorted key xs) = of_key key k xs.
Proof.
  induction xs as [|x xs IH]; simpl; [done|].
  rewrite insert_by_of_key. unfold of_key in *. simpl. by rewrite IH.
Qed.

Lemma of_key_elem (k : Z) (x : A) (l : list A) :
  x ∈ of_key key k l <-> x ∈ l /\ key x = k.
Proof.
  unfold of_key. rewrite !list_elem_of_In, List.filter_In, Z.eqb_eq. done.
Qed.

(** An ascending list is determined by its candidates of each key: the
    stable sort of a list is the only ascending list that keeps, for every
    key, the candidates of that key in their input order. *)
Lemma ascending_unique (ys zs : list A) :
  ascending key ys -> ascending key zs ->
  (forall k, of_key key k ys = of_key key k zs) ->
  ys = zs.
Proof.
  unfold ascending. intros Hys. revert zs.
  induction Hys as [|y ys Hys IH Hy]; intros zs Hzs Hk.
  - destruct zs as [|z zs]; [done|].
    specialize (Hk (key z)). unfold of_key in Hk. simpl in Hk.
    by rewrite Z.eqb_refl in Hk.
  - destruct Hzs as [|z zs Hzs Hz].
    { specialize (Hk (key y)). unfold of_key in Hk. simpl in Hk.
      by rewrite Z.eqb_refl in Hk. }
    assert (key y <= key z) as Hyz.
    { assert (z ∈ y :: ys) as Hin.
      { apply (of_key_elem (key z)). rewrite Hk. apply of_key_elem.
        split; [apply list_elem_of_here|done]. }
      apply elem_of_cons in Hin as [->|Hin]; [lia|].
      rewrite Forall_forall in Hy. by apply Hy. }
    assert (key z <= key y) as Hzy.
    { assert (y ∈ z :: zs) as Hin.
      { apply (of_key_elem (key y)). rewrite <- Hk. apply of_key_elem.
        split; [apply list_elem_of_here|done]. }
      apply elem_of_cons in Hin as [->|Hin]; [lia|].
      rewrite Forall_forall in Hz. by apply Hz. }
    assert (y = z) as ->.
    { specialize (Hk (key y)). unfold of_key in Hk. simpl in Hk.
      replace (key z) with (key y) in Hk by lia.
      rewrite Z.eqb_refl in Hk. congruence. }
    f_equal. apply IH; [done|]. intros k. specialize (Hk k).
    unfold of_key in *. simpl in Hk.
    destruct (key z =? k); congruence.
Qed.

Lemma head_insert_by (x : A) (ys : list A) :
  head (insert_by key x ys) =
  Some (match head ys with
        | Some y => if key x <=? key y then x else y
        | None => x
        end).
Proof. destruct ys as [|y ys]; simpl; [done|]. by destruct (key x <=? key y). Qed.

Lemma stable_sort_unique (xs ys : list A) :
  ascending key ys ->
  (forall k, of_key key k ys = of_key key k xs) ->
  ys = sorted key xs.
Proof.
  intros Hys Hk. apply ascending_unique; [done|apply sorted_ascending|].
  intros k. by rewrite sorted_stable.
Qed.

Lemma sorted_head (x : A) (xs : list A) :
  head (sorted key (x :: xs)) = Some (first_min key x xs).
Proof.
  revert x. induction xs as [|y ys IH]; intros x; [done|].
  change (sorted key (x :: y :: ys))
    with (insert_by key x (sorted key (y :: ys))).
  rewrite head_insert_by, IH. done.
Qed.

Lemma first_min_wins (x : A) (xs : list A) :
  exists p, wins_at key (x :: xs) p (first_min key x xs).
Proof.
  revert x. induction xs as [|y ys IH]; intros x.
  - exists 0%nat. split; [done|]. split.
    + intros k z Hk; lia.
    + intros k z Hz. destruct k as [|k]; simplify_eq/=. lia.
  - destruct (IH y) as (p & Hp & Hbefore & Hall). simpl.
    destruct (Z.leb_spec (key x) (key (first_min key y ys))) as [Hle|Hlt].
    + exists 0%nat. split; [done|]. split.
      * intros k z Hk; lia.
      * intros k z Hz. destruct k as [|k]; simpl in Hz.
        -- injection Hz as ->. lia.
        -- specialize (Hall k z Hz). lia.
    + exists (S p). split; [done|]. split.
      * intros k z Hk Hz. destruct k as [|k]; simpl in Hz.
        -- injection Hz as ->. lia.
        -- apply (Hbefore k); [lia|done].
      * intros k z Hz. destruct k as [|k]; simpl in Hz.
        -- injection Hz as ->. lia.
        -- by apply (Hall k).
Qed.

Lemma wins_at_unique (l : list A) (p q : nat) (v w : A) :
  wins_at key l p v -> wins_at key l q w -> p = q /\ v = w.
Proof.
  intros (Hp & Hpb & Hpa) (Hq & Hqb & Hqa).
  assert (p = q) as ->.
  { destruct (Nat.lt_trichotomy p q) as [Hlt|[Heq|Hgt]]; [|done|].
    - specialize (Hqb p v Hlt Hp). specialize (Hpa q w Hq). lia.
    - specialize (Hpb q w Hgt Hq). specialize (Hqa p v Hp). lia. }
  split; [done|]. congruence.
Qed.

Lemma wins_at_exists (l : list A) :
  l <> [] -> exists p w, wins_at key l p w.
Proof.
  destruct l as [|x xs]; [done|]. intros _.
  destruct (first_min_wins x xs) as [p Hp]. eauto.
Qed.

(** The head of the sorted list is the earliest candidate of minimal key. *)
Lemma wins_head_sorted (l : list A) (p : nat) (w : A) :
  wins_at key l p w -> head (sorted key l) = Some w.
Proof.
  intros Hw. destruct l as [|x xs].
  - destruct Hw as [Hw _]. done.
  - rewrite sorted_head. f_equal.
    destruct (first_min_wins x xs) as [q Hq].
    by destruct (wins_at_unique _ _ _ _ _ Hq Hw).
Qed.

Lemma head_sorted_wins (l : list A) (w : A) :
  head (sorted key l) = Some w -> exists p, wins_at key l p w.
Proof.
  destruct l as [|x xs]; [done|].
  rewrite sorted_head. intros [= <-]. apply first_min_wins.
Qed.

Lemma swap_lookup (i j k : nat) (l : list A) :
  (i < length l)%nat -> (j < length l)%nat ->
  swap i j l !! k = l !! transp i j k.
Proof.
  intros Hi Hj. unfold swap, transp.
  destruct (lookup_lt_is_Some_2 l i Hi) as [a Ha].
  destruct (lookup_lt_is_Some_2 l j Hj) as [b Hb].
  rewrite Ha, Hb.
  destruct (decide (k = j)) as [->|Hkj].
  - rewrite list_lookup_insert_eq by (rewrite length_insert; lia).
    destruct (decide (j = i)) as [->|]; congruence.
  - rewrite list_lookup_insert_ne by done.
    destruct (decide (k = i)) as [->|Hki].
    + rewrite list_lookup_insert_eq by lia. done.
    + by rewrite list_lookup_insert_ne.
Qed.

Lemma swap_length (i j : nat) (l : list A) : length (swap i j l) = length l.
Proof.
  unfold swap. destruct (l !! i), (l !! j); try done.
  by rewrite !length_insert.
Qed.

Lemma transp_involutive (i j k : nat) : transp i j (transp i j k) = k.
Proof. unfold transp. repeat case_decide; congruence. Qed.

(** Neither exchanged candidate has the minimal key: the winner stays. *)
Lemma wins_at_swap_above (l : list A) (p i j : nat) (w a b : A) :
  wins_at key l p w ->
  l !! i = Some a -> l !! j = Some b ->
  key w < key a -> key w < key b ->
  wins_at key (swap i j l) p w.
Proof.
  intros (Hp & Hbefore & Hall) Ha Hb Hwa Hwb.
  pose proof (lookup_lt_Some _ _ _ Ha) as Hi.
  pose proof (lookup_lt_Some _ _ _ Hb) as Hj.
  assert (p <> i) by (intros ->; simplify_eq; lia).
  assert (p <> j) by (intros ->; simplify_eq; lia).
  split; [|split].
  - rewrite swap_lookup by done. unfold transp. by repeat case_decide.
  - intros k y Hk. rewrite swap_lookup by done. unfold transp.
    repeat case_decide; intros Hy; simplify_eq; try done. by apply (Hbefore k).
  - intros k y. rewrite swap_lookup by done. unfold transp.
    repeat case_decide; intros Hy; simplify_eq; try lia. by apply (Hall k).
Qed.

(** One candidate only has the minimal key: it wins wherever it stands. *)
Lemma wins_at_swap_unique (l : list A) (p i j : nat) (w : A) :
  wins_at key l p w ->
  (forall k y, l !! k = Some y -> key y = key w -> k = p) ->
  (i < length l)%nat -> (j < length l)%nat ->
  wins_at key (swap i j l) (transp i j p) w.
Proof.
  intros (Hp & Hbefore & Hall) Huniq Hi Hj.
  split; [|split].
  - rewrite swap_lookup by done. by rewrite transp_involutive.
  - intros k y Hk. rewrite swap_lookup by done. intros Hy.
    pose proof (Hall _ _ Hy) as Hle.
    destruct (Z.eq_dec (key y) (key w)) as [Heq|Hne]; [|lia].
    pose proof (Huniq _ _ Hy Heq) as Hkp.
    rewrite <- Hkp, transp_involutive in Hk. lia.
  - intros k y. rewrite swap_lookup by done. apply Hall.
Qed.

(** Two candidates of equal key are exchanged: the winning position stays,
    and the winner is the candidate that now stands there. *)
Lemma wins_at_swap_equal (l : list A) (p i j : nat) (w a b : A) :
  wins_at key l p w ->
  l !! i = Some a -> l !! j = Some b -> key a = key b ->
  exists w', swap i j l !! p = Some w' /\ key w' = key w /\
             wins_at key (swap i j l) p w'.
Proof.
  intros (Hp & Hbefore & Hall) Ha Hb Hab.
  pose proof (lookup_lt_Some _ _ _ Ha) as Hi.
  pose proof (lookup_lt_Some _ _ _ Hb) as Hj.
  assert (forall k y, swap i j l !! k = Some y ->
                      exists z, l !! k = Some z /\ key z = key y) as Hkeys.
  { intros k y. rewrite swap_lookup by done. unfold transp.
    repeat case_decide; intros Hy; simplify_eq; eauto. }
  assert (exists w', swap i j l !! p = Some w') as [w' Hw'].
  { apply lookup_lt_is_Some_2. rewrite swap_length.
    by apply (lookup_lt_Some _ _ _ Hp). }
  destruct (Hkeys _ _ Hw') as (z & Hz & Hzw). simplify_eq.
  exists w'. split; [done|]. split; [done|]. split; [done|]. split.
  - intros k y Hk Hy. destruct (Hkeys _ _ Hy) as (z' & Hz' & Heq).
    rewrite <- Heq, <- Hzw. by apply (Hbefore k).
  - intros k y Hy. destruct (Hkeys _ _ Hy) as (z' & Hz' & Heq).
    rewrite <- Heq, <- Hzw. by apply (Hall k).
Qed.

End Sorting.

Lemma insert_by_fmap {A B} (f : A -> B) (key : B -> Z) (x : A) (ys : list A) :
  f <$> insert_by (fun x => key (f x)) x ys = insert_by key (f x) (f <$> ys).
Proof.
  induction ys as [|y ys IH]; [done|].
  rewrite fmap_cons. cbn [insert_by].
  destruct (key (f x) <=? key (f y)); rewrite !fmap_cons; [done|].
  by rewrite IH.
Qed.

(** Sorting commutes with a map that the key factors through. *)
Lemma sorted_fmap {A B} (f : A -> B) (key : B -> Z) (l : list A) :
  f <$> sorted (fun x => key (f x)) l = sorted key (f <$> l).
Proof.
  induction l as [|x l IH]; [done|].
  change (sorted (fun x => key (f x)) (x :: l))
    with (insert_by (fun x => key (f x)) x (sorted (fun x => key (f x)) l)).
  rewrite insert_by_fmap, IH. done.
Qed.

(** Sorting the pairs of a key and its element orders the elements as
    sorting them by key does. *)
Lemma sorted_decorated {A} (key : A -> Z) (l : list A) :
  snd <$> sorted fst (zip (key <$> l) l) = sorted key l.
Proof.
  assert (zip (key <$> l) l = (fun x => (key x, x)) <$> l) as ->.
  { induction l as [|x l IH]; [done|].
    rewrite !fmap_cons. cbn [zip zip_with]. by rewrite IH. }
  rewrite <- (sorted_fmap (fun x => (key x, x)) fst).
  rewrite <- list_fmap_compose. apply list_fmap_id.
Qed.

(** ** The result monad *)

Lemma result_bind_Ok {A B} (m : result A) (f : A -> result B) (b : B) :
  m ≫= f = Ok b -> exists a, m = Ok a /\ f a = Ok b.
Proof. destruct m as [a|e]; simpl; [eauto|done]. Qed.

Lemma result_bind_Raise {A B} (m : result A) (f : A -> result B) (e : exn) :
  m ≫= f = Raise e -> m = Raise e \/ exists a, m = Ok a /\ f a = Raise e.
Proof. destruct m as [a|e']; simpl; [eauto|]. intros [= ->]. by left. Qed.

Section ResultMapM.
Context {A B : Type} (f : A -> result B).

Lemma result_mapM_Ok (l : list A) (k : list B) :
  mapM f l = Ok k -> Forall2 (fun x y => f x = Ok y) l k.
Proof.
  revert k. induction l as [|x l IH]; intros k; simpl.
  - intros [= <-]. constructor.
  - intros H. apply result_bind_Ok in H as (y & Hy & H).
    apply result_bind_Ok in H as (k' & Hk' & H).
    injection H as <-. constructor; [done|]. by apply IH.
Qed.

Lemma result_mapM_Raise (l : list A) (e : exn) :
  mapM f l = Raise e -> exists x, x ∈ l /\ f x = Raise e.
Proof.
  induction l as [|x l IH]; simpl; [done|].
  intros H. apply result_bind_Raise in H as [H|(y & Hy & H)].
  - exists x. split; [apply list_elem_of_here|done].
  - apply result_bind_Raise in H as [H|(k & Hk & H)]; [|done].
    destruct (IH H) as (z & Hz & Hfz). exists z. split; [|done].
    by apply list_elem_of_further.
Qed.

Lemma result_mapM_total (l : list A) :
  Forall (fun x => is_Ok (f x)) l -> is_Ok (mapM f l).
Proof.
  induction 1 as [|x l [y Hy] _ [k Hk]]; simpl.
  - by exists [].
  - rewrite Hy. simpl. rewrite Hk. simpl. by exists (y :: k).
Qed.

End ResultMapM.

(** ** Metadata extraction and the context of the winner *)

Lemma new_ProjectMetadata_error (n v : pyval) (e : exn) :
  new_ProjectMetadata n v = Raise e -> e = ValidationError.
Proof.
  unfold new_ProjectMetadata. intros H.
  apply result_bind_Raise in H as [H|(n' & _ & H)].
  - destruct n; simpl in H; congruence.
  - apply result_bind_Raise in H as [H|(v' & _ & H)]; [|done].
    destruct v; simpl in H; congruence.
Qed.

(** The only exception that leaves [_extract_metadata] is the validation
    error of the model. *)
Lemma extract_metadata_error (env : Env) (s : DetectedStack) (root : string)
    (e : exn) :
  _extract_metadata env s root = Raise e -> e = ValidationError.
Proof. intros H. eapply new_ProjectMetadata_error. exact H. Qed.

Lemma context_around_Ok (env : Env) (w : DetectedStack) (root : string)
    (l : list DetectedStack) (ctx : ProjectContext DetectedStack) :
  context_around env w root l = Ok ctx ->
  stack ctx = w /\ root_path ctx = root /\
  _extract_metadata env w root = Ok (metadata ctx) /\
  is_monorepo ctx = (1 <? length l)%nat /\
  detected_projects ctx = (if (1 <? length l)%nat then l else []).
Proof.
  unfold context_around. intros H.
  apply result_bind_Ok in H as (m & Hm & H). injection H as <-. done.
Qed.

Lemma context_around_Raise (env : Env) (w : DetectedStack) (root : string)
    (l : list DetectedStack) (e : exn) :
  context_around env w root l = Raise e ->
  e = ValidationError /\ _extract_metadata env w root = Raise ValidationError.
Proof.
  unfold context_around. intros H.
  apply result_bind_Raise in H as [H|(m & _ & H)]; [|done].
  pose proof (extract_metadata_error _ _ _ _ H) as ->. done.
Qed.

Lemma context_around_total (env : Env) (w : DetectedStack) (root : string)
    (l : list DetectedStack) :
  is_Ok (_extract_metadata env w root) -> is_Ok (context_around env w root l).
Proof. intros [m Hm]. unfold context_around. rewrite Hm. by eexists. Qed.

(** [resolve] on a non-empty list builds the context of the earliest
    candidate of minimal score. *)
Lemma resolve_cons (env : Env) (root : string) (x : DetectedStack)
    (xs : list DetectedStack) :
  resolve env (x :: xs) root =
  context_around env (first_min _get_priority x xs) root (x :: xs).
Proof.
  unfold resolve, context_around, getitem0.
  change (negb (list_truthy (x :: xs))) with false. cbv iota.
  rewrite <- head_lookup, sorted_head. done.
Qed.

Lemma resolve_wins (env : Env) (root : string) (l : list DetectedStack)
    (p : nat) (w : DetectedStack) :
  wins_at _get_priority l p w -> resolve env l root = context_around env w root l.
Proof.
  intros Hw. destruct l as [|x xs]; [by destruct Hw|].
  rewrite resolve_cons. do 3 f_equal.
  destruct (first_min_wins _get_priority x xs) as [q Hq].
  by destruct (wins_at_unique _ _ _ _ _ _ Hq Hw).
Qed.

(** [resolve] returns when the metadata of the candidates validates. *)
Lemma resolve_total (env : Env) (root : string) (l : list DetectedStack) :
  l <> [] ->
  (forall s, s ∈ l -> is_Ok (_extract_metadata env s root)) ->
  is_Ok (resolve env l root).
Proof.
  intros Hne Hall.
  destruct (wins_at_exists _get_priority l Hne) as (p & w & Hw).
  rewrite (resolve_wins env root l p w Hw).
  apply context_around_total, Hall.
  destruct Hw as [Hw _]. by eapply list_elem_of_lookup_2.
Qed.

(** [resolve_all] returns when the metadata of every candidate, read at its
    project path, validates. *)
Lemma resolve_all_total (env : Env) (root : string) (l : list DetectedStack) :
  l <> [] ->
  (forall s, s ∈ l -> is_Ok (_extract_metadata env s (project_path_of root s))) ->
  is_Ok (resolve_all env l root).
Proof.
  intros Hne Hall. destruct l as [|x xs]; [done|]. unfold resolve_all.
  change (negb (list_truthy (x :: xs))) with false. cbv iota.
  match goal with |- is_Ok (mapM ?f ?l ≫= _) =>
    destruct (result_mapM_total f l) as [cs Hcs] end.
  - apply Forall_forall. intros s Hs. destruct (Hall s Hs) as [m Hm].
    rewrite Hm. by eexists.
  - rewrite Hcs. by eexists.
Qed.

Lemma priority_formula (s : DetectedStack) :
  _get_priority s = Reference.score s.
Proof.
  destruct s as [l f ? ? ? ? ? ? ? ? ? ? ? ? ? ? ? ? ? ? ? d t ? ?].
  unfold _get_priority, Reference.score;
    cbn [language framework has_dockerfile has_tests].
  destruct l, f, d, t; vm_compute; reflexivity.
Qed.

(** ** The priority score *)

(** C1: for every DetectedStack the score computed by [_get_priority] is
    the reference formula: the 0-based rank of the language in the
    precedence list times 100 (999 flat for a language outside the list),
    plus the framework's table entry (50 when absent), plus the five
    independent additive adjustments (-50 backend TypeScript, +200 frontend
    Node.js, -10 Kotlin with Ktor, -5 Dockerfile, -3 tests). *)
Theorem get_priority_reference (s : DetectedStack) :
  _get_priority s = Reference.score s.
Proof. apply priority_formula. Qed.

(** C7: two TypeScript candidates without maturity flags, one with Express
    and one with React, score 551 and 622, and [resolve] builds its context
    around the Express candidate in either input order. *)
Theorem express_beats_react (env : Env) (root : string) (e r : DetectedStack) :
  language e = Language.TYPESCRIPT -> framework e = Framework.EXPRESS ->
  has_dockerfile e = false -> has_tests e = false ->
  language r = Language.TYPESCRIPT -> framework r = Framework.REACT ->
  has_dockerfile r = false -> has_tests r = false ->
  _get_priority e = 551 /\ _get_priority r = 622 /\
  resolve env [e; r] root = context_around env e root [e; r] /\
  resolve env [r; e] root = context_around env e root [r; e] /\
  (forall ctx, resolve env [e; r] root = Ok ctx -> stack ctx = e) /\
  (forall ctx, resolve env [r; e] root = Ok ctx -> stack ctx = e).
Proof.
  intros Hle Hfe Hde Hte Hlr Hfr Hdr Htr.
  assert (_get_priority e = 551) as He.
  { rewrite priority_formula. unfold Reference.score, Reference.is_backend_ts,
      Reference.is_frontend_js, Reference.is_kotlin_ktor.
    by rewrite Hle, Hfe, Hde, Hte. }
  assert (_get_priority r = 622) as Hr.
  { rewrite priority_formula. unfold Reference.score, Reference.is_backend_ts,
      Reference.is_frontend_js, Reference.is_kotlin_ktor.
    by rewrite Hlr, Hfr, Hdr, Htr. }
  assert (resolve env [e; r] root = context_around env e root [e; r]) as H1.
  { rewrite resolve_cons. simpl. by rewrite He, Hr. }
  assert (resolve env [r; e] root = context_around env e root [r; e]) as H2.
  { rewrite resolve_cons. simpl. by rewrite He, Hr. }
  repeat split; try done.
  - intros ctx. rewrite H1. intros H. by apply context_around_Ok in H as [? _].
  - intros ctx. rewrite H2. intros H. by apply context_around_Ok in H as [? _].
Qed.

Lemma express_beats_react_witness :
  _get_priority ts_express = 551 /\ _get_priority ts_react = 622 /\
  (forall ctx, resolve demo_env [ts_react; ts_express] demo_root = Ok ctx ->
               stack ctx = ts_express).
Proof.
  destruct (express_beats_react demo_env demo_root ts_express ts_react)
    as (He & Hr & _ & _ & _ & H); try reflexivity.
  exact (conj He (conj Hr H)).
Defined.

(** ** The choice of the winner *)

(** C2 (as amended): on a non-empty candidate list [resolve] sorts
    ascending by score with a stable sort (a permutation of the input, in
    ascending order, candidates of equal score in input order) and builds
    its context around the first element, which is the earliest candidate
    of minimal score.  Exchanging two candidates of different scores keeps
    the winner when neither of them has the minimal score or when one
    candidate only has the minimal score.  Exchanging two candidates of
    equal score keeps the winning position: the winner becomes the
    candidate that the exchange brings there (the later of the two when the
    earlier one was the winner, the same winner otherwise).  Ties are
    broken by input order only. *)
Theorem resolve_picks_earliest_minimum (env : Env) (root : string)
    (l : list DetectedStack) :
  l <> [] ->
  exists p w,
    sorted _get_priority l ≡ₚ l /\
    ascending _get_priority (sorted _get_priority l) /\
    (forall k, of_key _get_priority k (sorted _get_priority l)
               = of_key _get_priority k l) /\
    head (sorted _get_priority l) = Some w /\
    wins_at _get_priority l p w /\
    resolve env l root = context_around env w root l /\
    (forall i j a b,
        l !! i = Some a -> l !! j = Some b ->
        _get_priority a <> _get_priority b ->
        (_get_priority w < _get_priority a /\ _get_priority w < _get_priority b)
        \/ (forall k y, l !! k = Some y ->
                        _get_priority y = _get_priority w -> k = p) ->
        resolve env (swap i j l) root
        = context_around env w root (swap i j l)) /\
    (forall i j a b,
        l !! i = Some a -> l !! j = Some b ->
        _get_priority a = _get_priority b ->
        exists w', l !! transp i j p = Some w' /\
                   swap i j l !! p = Some w' /\
                   resolve env (swap i j l) root
                   = context_around env w' root (swap i j l)) /\
    (forall v l' ctx, context_around env v root l' = Ok ctx -> stack ctx = v).
Proof.
  intros Hne.
  destruct (wins_at_exists _get_priority l Hne) as (p & w & Hw).
  exists p, w.
  split; [apply sorted_perm|]. split; [apply sorted_ascending|].
  split; [intros k; apply sorted_stable|].
  split; [by eapply wins_head_sorted|]. split; [done|].
  split; [by eapply resolve_wins|]. split; [|split].
  - intros i j a b Ha Hb _ [[Hwa Hwb]|Huniq].
    + eapply resolve_wins. by eapply wins_at_swap_above.
    + eapply resolve_wins. apply wins_at_swap_unique; try done.
      * by apply (lookup_lt_Some _ _ _ Ha).
      * by apply (lookup_lt_Some _ _ _ Hb).
  - intros i j a b Ha Hb Hab.
    destruct (wins_at_swap_equal _get_priority l p i j w a b Hw Ha Hb Hab)
      as (w' & Hw' & _ & Hwins).
    exists w'. split; [|split; [done|by eapply resolve_wins]].
    rewrite <- Hw'. symmetry. apply swap_lookup.
    + by apply (lookup_lt_Some _ _ _ Ha).
    + by apply (lookup_lt_Some _ _ _ Hb).
  - intros v l' ctx H. by apply context_around_Ok in H as [? _].
Qed.

Lemma resolve_picks_earliest_minimum_witness :
  [java_a; node_react; java_b] <> [] /\
  exists p w,
    wins_at _get_priority [java_a; node_react; java_b] p w /\
    resolve no_files [java_a; node_react; java_b] demo_root
    = context_around no_files w demo_root [java_a; node_react; java_b].
Proof.
  split; [done|].
  destruct (resolve_picks_earliest_minimum no_files demo_root
              [java_a; node_react; java_b])
    as (p & w & _ & _ & _ & _ & Hw & Hr & _); [done|].
  exists p, w. exact (conj Hw Hr).
Defined.

(** C2 as stated fails.  In [node_react; java_a; java_b] the first and the
    last candidate have different scores (922 and 0), and exchanging them
    moves the winner from [java_a] to [java_b].  In [java_a; java_b; java_c]
    the last two candidates have the equal, minimal score, and exchanging
    them leaves [java_a] the winner, which is neither of the two. *)
Lemma swap_changes_winner_with_tied_minimum :
  (_get_priority node_react <> _get_priority java_b /\
   (exists ctx, resolve no_files [node_react; java_a; java_b] demo_root = Ok ctx /\
                stack ctx = java_a) /\
   (exists ctx, resolve no_files (swap 0 2 [node_react; java_a; java_b]) demo_root
                = Ok ctx /\
                stack ctx = java_b) /\
   java_a <> java_b) /\
  (_get_priority java_b = _get_priority java_c /\
   (forall s, s ∈ [java_a; java_b; java_c] ->
              _get_priority java_b <= _get_priority s) /\
   (exists ctx, resolve no_files (swap 1 2 [java_a; java_b; java_c]) demo_root
                = Ok ctx /\
                stack ctx = java_a) /\
   java_a <> java_c /\ java_a <> java_b).
Proof.
  split; [split; [|split; [|split]]|split; [|split; [|split]]].
  - vm_compute. discriminate.
  - eexists. split; vm_compute; reflexivity.
  - eexists. split; vm_compute; reflexivity.
  - discriminate.
  - reflexivity.
  - intros s Hs.
    repeat (apply elem_of_cons in Hs as [->|Hs]); try (vm_compute; discriminate).
    by apply elem_of_nil in Hs.
  - eexists. split; vm_compute; reflexivity.
  - split; discriminate.
Qed.

(** ** The empty candidate list *)

(** [resolve] and [resolve_all] raise the empty-input error on the empty
    list, and on a non-empty list neither raises it: each returns as soon
    as the metadata of the candidates validates (for [resolve], those read
    at the root; for [resolve_all], those read at each project path). *)
Lemma empty_input_is_an_error (env : Env) (root : string) :
  resolve env [] root = Raise EmptyInputError /\
  resolve_all env [] root = Raise EmptyInputError /\
  (forall l, l <> [] ->
     resolve env l root <> Raise EmptyInputError /\
     resolve_all env l root <> Raise EmptyInputError /\
     ((forall s, s ∈ l -> is_Ok (_extract_metadata env s root)) ->
      is_Ok (resolve env l root)) /\
     ((forall s, s ∈ l ->
                 is_Ok (_extract_metadata env s (project_path_of root s))) ->
      is_Ok (resolve_all env l root))).
Proof.
  split; [done|]. split; [done|]. intros l Hne.
  destruct (wins_at_exists _get_priority l Hne) as (p & w & Hw).
  rewrite (resolve_wins env root l p w Hw).
  split; [|split; [|split]].
  - intros H. by apply context_around_Raise in H as [? _].
  - destruct l as [|x xs]; [done|]. unfold resolve_all.
    change (negb (list_truthy (x :: xs))) with false. cbv iota.
    intros H. apply result_bind_Raise in H as [H|(cs & _ & H)]; [|done].
    apply result_mapM_Raise in H as (s & _ & H).
    apply result_bind_Raise in H as [H|(m & _ & H)]; [|done].
    by apply extract_metadata_error in H.
  - intros Hall. rewrite <- (resolve_wins env root l p w Hw).
    by apply resolve_total.
  - by apply resolve_all_total.
Qed.

Lemma empty_input_is_an_error_witness :
  [node_react] <> [] /\
  resolve no_files [node_react] demo_root <> Raise EmptyInputError /\
  is_Ok (resolve no_files [node_react] demo_root) /\
  is_Ok (resolve_all no_files [node_react] demo_root).
Proof.
  destruct (empty_input_is_an_error no_files demo_root) as (_ & _ & H).
  destruct (H [node_react]) as (H1 & _ & H3 & H4); [done|].
  split; [done|]. split; [exact H1|]. split.
  - apply H3. intros s Hs. apply list_elem_of_singleton in Hs as ->.
    by eexists.
  - apply H4. intros s Hs. apply list_elem_of_singleton in Hs as ->.
    by eexists.
Defined.

(** C3: [resolve] and [resolve_all] raise the empty-input error on the
    empty list, and never on a non-empty list.  They do not succeed on
    every non-empty list: on the one candidate whose [package.json] has a
    null version, both raise the validation error of [ProjectMetadata]. *)
Theorem nonempty_list_can_raise_validation_error :
  (forall env root,
      resolve env [] root = Raise EmptyInputError /\
      resolve_all env [] root = Raise EmptyInputError) /\
  (forall env root x l,
      resolve env (x :: l) root <> Raise EmptyInputError /\
      resolve_all env (x :: l) root <> Raise EmptyInputError) /\
  resolve null_version_env [node_react] demo_root = Raise ValidationError /\
  resolve_all null_version_env [node_react] demo_root = Raise ValidationError.
Proof.
  split; [|split; [|split]].
  - intros env root.
    destruct (empty_input_is_an_error env root) as (H1 & H2 & _). by split.
  - intros env root x l.
    destruct (empty_input_is_an_error env root) as (_ & _ & H).
    destruct (H (x :: l)) as (H1 & H2 & _); [done|]. by split.
  - vm_compute. reflexivity.
  - vm_compute. reflexivity.
Qed.

(** ** The monorepo fields *)

(** C4: on a non-empty candidate list, the context returned by [resolve]
    has [is_monorepo] equal to (length > 1); when it is set,
    [detected_projects] is the input list in its order, otherwise it is
    empty; on a one-element list the stack is that element.  The call
    returns when the metadata of the candidates validates, and nothing but
    the validation of the winner's metadata makes it raise. *)
Theorem resolve_monorepo_fields (env : Env) (root : string)
    (x : DetectedStack) (xs : list DetectedStack) :
  match resolve env (x :: xs) root with
  | Ok ctx =>
      is_monorepo ctx = bool_decide (1 < length (x :: xs))%nat /\
      (is_monorepo ctx = true -> detected_projects ctx = x :: xs) /\
      (is_monorepo ctx = false -> detected_projects ctx = []) /\
      (xs = [] -> is_monorepo ctx = false /\ detected_projects ctx = [] /\
                  stack ctx = x)
  | Raise e =>
      e = ValidationError /\
      exists w, w ∈ x :: xs /\ _extract_metadata env w root = Raise ValidationError
  end /\
  ((forall s, s ∈ x :: xs -> is_Ok (_extract_metadata env s root)) ->
   is_Ok (resolve env (x :: xs) root)).
Proof.
  split; [|by apply resolve_total].
  rewrite resolve_cons.
  destruct (context_around env _ root (x :: xs)) as [ctx|e] eqn:H.
  - apply context_around_Ok in H as (Hs & _ & _ & Hm & Hd).
    rewrite Hm, Hd.
    split; [|split; [|split]].
    + destruct (Nat.ltb_spec 1 (length (x :: xs))); symmetry.
      * by apply bool_decide_eq_true_2.
      * apply bool_decide_eq_false_2. lia.
    + by intros ->.
    + by intros ->.
    + intros ->. simpl in *. done.
  - apply context_around_Raise in H as [-> H]. split; [done|].
    eexists. split; [|exact H].
    destruct (first_min_wins _get_priority x xs) as (p & Hp & _).
    by eapply list_elem_of_lookup_2.
Qed.

Lemma resolve_monorepo_fields_witness :
  exists ctx, resolve demo_env [ts_react; ts_express] demo_root = Ok ctx /\
              is_monorepo ctx = true /\
              detected_projects ctx = [ts_react; ts_express].
Proof.
  destruct (resolve_monorepo_fields demo_env demo_root ts_react [ts_express])
    as [H _].
  destruct (resolve demo_env [ts_react; ts_express] demo_root) as [ctx|e] eqn:Hr.
  - destruct H as (Hm & Hd & _). exists ctx.
    split; [reflexivity|]. split; [exact Hm|]. apply Hd. exact Hm.
  - exfalso. vm_compute in Hr. discriminate Hr.
Defined.

(** ** One context per candidate *)

(** What [resolve_all] returns: the contexts built in input order, sorted
    by the score of their stacks. *)
Lemma resolve_all_Ok (env : Env) (root : string) (l : list DetectedStack)
    (cs : list (ProjectContext DetectedStack)) :
  resolve_all env l root = Ok cs ->
  exists cs0,
    Forall2 (fun s c =>
               exists m, _extract_metadata env s (project_path_of root s) = Ok m /\
                         c = new_ProjectContext m s (project_path_of root s) false [])
            l cs0 /\
    cs = sorted (fun c => _get_priority (stack c)) cs0.
Proof.
  unfold resolve_all. destruct l as [|x xs]; [done|].
  change (negb (list_truthy (x :: xs))) with false. cbv iota.
  intros H. apply result_bind_Ok in H as (cs0 & H0 & H). injection H as <-.
  exists cs0. split; [|done].
  apply result_mapM_Ok in H0. eapply Forall2_impl; [exact H0|].
  intros s c Hc. apply result_bind_Ok in Hc as (m & Hm & Hc).
  injection Hc as <-. eauto.
Qed.

Lemma resolve_all_stacks (env : Env) (root : string) (l : list DetectedStack)
    (cs : list (ProjectContext DetectedStack)) :
  resolve_all env l root = Ok cs -> stack <$> cs = sorted _get_priority l.
Proof.
  intros H. apply resolve_all_Ok in H as (cs0 & H0 & ->).
  rewrite (sorted_fmap stack _get_priority). f_equal.
  induction H0 as [|s c l cs0 (m & _ & ->) _ IH]; [done|].
  rewrite fmap_cons, IH. done.
Qed.

(** C5: on a non-empty list of N candidates [resolve_all] returns N
    contexts, each with [is_monorepo] false, no detected projects, the root
    path joined with the project root of its candidate (the root path
    itself when the project root is missing or empty) and the metadata read
    there; their stacks, in order, are the input sorted by the score of
    [resolve] with the same stable sort.  The call returns when the
    metadata of every candidate validates, and nothing but the validation
    of some candidate's metadata makes it raise. *)
Theorem resolve_all_contexts (env : Env) (root : string)
    (x : DetectedStack) (xs : list DetectedStack) :
  match resolve_all env (x :: xs) root with
  | Ok cs =>
      length cs = length (x :: xs) /\
      Forall (fun c =>
                is_monorepo c = false /\ detected_projects c = [] /\
                root_path c = project_path_of root (stack c) /\
                _extract_metadata env (stack c) (root_path c) = Ok (metadata c))
             cs /\
      stack <$> cs = sorted _get_priority (x :: xs) /\
      ascending (fun c => _get_priority (stack c)) cs
  | Raise e =>
      e = ValidationError /\
      exists s, s ∈ x :: xs /\
                _extract_metadata env s (project_path_of root s)
                = Raise ValidationError
  end /\
  (forall s, project_root s = None \/ project_root s = Some "" ->
             project_path_of root s = root) /\
  (forall s r, project_root s = Some r -> r <> "" ->
               project_path_of root s = os_path_join root r) /\
  ((forall s, s ∈ x :: xs ->
              is_Ok (_extract_metadata env s (project_path_of root s))) ->
   is_Ok (resolve_all env (x :: xs) root)).
Proof.
  split; [|split; [|split]]; [| | |by apply resolve_all_total].
  - destruct (resolve_all env (x :: xs) root) as [cs|e] eqn:H.
    + pose proof (resolve_all_stacks _ _ _ _ H) as Hst.
      apply resolve_all_Ok in H as (cs0 & H0 & ->).
      split; [|split; [|split]].
      * rewrite sorted_length. symmetry. by eapply Forall2_length.
      * rewrite sorted_perm. apply Forall_forall. intros c Hc.
        apply list_elem_of_lookup in Hc as [i Hi].
        destruct (Forall2_lookup_r _ _ _ _ _ H0 Hi) as (s & _ & m & Hm & ->).
        done.
      * done.
      * apply sorted_ascending.
    + unfold resolve_all in H.
      change (negb (list_truthy (x :: xs))) with false in H. cbv iota in H.
      apply result_bind_Raise in H as [H|(cs & _ & H)]; [|done].
      apply result_mapM_Raise in H as (s & Hs & H).
      apply result_bind_Raise in H as [H|(m & _ & H)]; [|done].
      pose proof (extract_metadata_error _ _ _ _ H) as ->. eauto.
  - intros s [H|H]; unfold project_path_of; by rewrite H.
  - intros s r H Hr. unfold project_path_of. rewrite H. simpl.
    destruct (String.eqb_spec r ""); done.
Qed.

Lemma resolve_all_contexts_witness :
  exists cs, resolve_all demo_env [node_react; java_spring (Some "api"); ts_express]
               demo_root = Ok cs /\
             length cs = 3%nat /\
             stack <$> cs = [java_spring (Some "api"); ts_express; node_react] /\
             root_path <$> cs = ["/work/demo/api"; "/work/demo"; "/work/demo"].
Proof.
  destruct (resolve_all_contexts demo_env demo_root node_react
              [java_spring (Some "api"); ts_express]) as [H _].
  destruct (resolve_all demo_env [node_react; java_spring (Some "api"); ts_express]
              demo_root) as [cs|e] eqn:Hr.
  - destruct H as (Hlen & _ & Hst & _). exists cs.
    split; [reflexivity|]. split; [exact Hlen|]. split; [exact Hst|].
    vm_compute in Hr. injection Hr as <-. reflexivity.
  - exfalso. vm_compute in Hr. discriminate Hr.
Defined.

(** C10: when both calls return, the stack of the context of [resolve] is
    the stack of the first context of [resolve_all] on the same input. *)
Theorem resolve_is_head_of_resolve_all (env : Env) (root : string)
    (l : list DetectedStack) (ctx : ProjectContext DetectedStack)
    (cs : list (ProjectContext DetectedStack)) :
  resolve env l root = Ok ctx ->
  resolve_all env l root = Ok cs ->
  exists c rest, cs = c :: rest /\ stack c = stack ctx.
Proof.
  intros Hr Ha. destruct l as [|x xs]; [done|].
  rewrite resolve_cons in Hr. apply context_around_Ok in Hr as [Hw _].
  pose proof (resolve_all_stacks _ _ _ _ Ha) as Hst.
  pose proof (sorted_head _get_priority x xs) as Hh.
  rewrite <- Hst in Hh. destruct cs as [|c rest]; [done|].
  injection Hh as Hh. exists c, rest. split; [done|]. congruence.
Qed.

Lemma resolve_is_head_of_resolve_all_witness :
  exists ctx cs c rest,
    resolve demo_env [node_react; ts_express] demo_root = Ok ctx /\
    resolve_all demo_env [node_react; ts_express] demo_root = Ok cs /\
    cs = c :: rest /\ stack c = stack ctx.
Proof.
  destruct (resolve demo_env [node_react; ts_express] demo_root)
    as [ctx|e] eqn:Hr; [|exfalso; vm_compute in Hr; discriminate Hr].
  destruct (resolve_all demo_env [node_react; ts_express] demo_root)
    as [cs|e] eqn:Ha; [|exfalso; vm_compute in Ha; discriminate Ha].
  destruct (resolve_is_head_of_resolve_all demo_env demo_root
              [node_react; ts_express] ctx cs Hr Ha) as (c & rest & H1 & H2).
  exists ctx, cs, c, rest. repeat split; assumption.
Defined.

(** ** The store *)

Lemma St_bind_Ok {A B} (m : St A) (f : A -> St B) (h h' : store) (a : A) :
  m h = (Ok a, h') -> (m ≫= f) h = f a h'.
Proof. intros H. unfold mbind, St_bind. by rewrite H. Qed.

Lemma St_bind_Raise {A B} (m : St A) (f : A -> St B) (h h' : store) (e : exn) :
  m h = (Raise e, h') -> (m ≫= f) h = (Raise e, h').
Proof. intros H. unfold mbind, St_bind. by rewrite H. Qed.

Lemma reads_only_ret {A} (a : A) : reads_only (mret a : St A).
Proof. by intros h. Qed.

Lemma reads_only_raise {A} (e : exn) : reads_only (raise e : St A).
Proof. by intros h. Qed.

Lemma reads_only_lift {A} (r : result A) : reads_only (lift r).
Proof. by intros h. Qed.

Lemma reads_only_bind {A B} (m : St A) (f : A -> St B) :
  reads_only m -> (forall a, reads_only (f a)) -> reads_only (m ≫= f).
Proof.
  intros Hm Hf h. unfold mbind, St_bind. specialize (Hm h).
  destruct (m h) as [[a|e] h']; simpl in *; subst; [apply Hf|done].
Qed.

Lemma reads_only_load_stack (p : loc) : reads_only (load_stack p).
Proof. intros h. unfold load_stack. by destruct (h !! p) as [[]|]. Qed.

Lemma reads_only_load_list (p : loc) : reads_only (load_list p).
Proof. intros h. unfold load_list. by destruct (h !! p) as [[]|]. Qed.

Lemma reads_only_load_contexts (p : loc) : reads_only (load_contexts p).
Proof. intros h. unfold load_contexts. by destruct (h !! p) as [[]|]. Qed.

Lemma reads_only_mapM {A B} (f : A -> St B) (l : list A) :
  (forall a, reads_only (f a)) -> reads_only (mapM f l).
Proof.
  intros Hf. induction l as [|x l IH]; simpl.
  - apply reads_only_ret.
  - apply reads_only_bind; [done|]. intros y.
    apply reads_only_bind; [done|]. intros k. apply reads_only_ret.
Qed.

Lemma reads_only_sort_order {A} (keyfn : A -> St Z) (l : list A) :
  (forall a, reads_only (keyfn a)) -> reads_only (sort_order keyfn l).
Proof.
  intros Hk. apply reads_only_bind; [by apply reads_only_mapM|].
  intros keys. apply reads_only_ret.
Qed.

Lemma reads_only_priority_at (p : loc) : reads_only (priority_at p).
Proof.
  apply reads_only_bind; [apply reads_only_load_stack|].
  intros s. apply reads_only_ret.
Qed.

Lemma modifies_only_reads {A} (p : loc) (m : St A) :
  reads_only m -> modifies_only p m.
Proof. intros Hm h q _. by rewrite Hm. Qed.

Lemma modifies_only_write (p : loc) (o : obj) : modifies_only p (write p o).
Proof. intros h q Hq. simpl. by rewrite lookup_insert_ne. Qed.

Lemma modifies_only_bind {A B} (p : loc) (m : St A) (f : A -> St B) :
  modifies_only p m -> (forall a, modifies_only p (f a)) ->
  modifies_only p (m ≫= f).
Proof.
  intros Hm Hf h q Hq. unfold mbind, St_bind. specialize (Hm h q Hq).
  destruct (m h) as [[a|e] h']; simpl in *; [|done].
  by rewrite Hf.
Qed.

Lemma modifies_only_mapM {A B} (p : loc) (f : A -> St B) (l : list A) :
  (forall a, modifies_only p (f a)) -> modifies_only p (mapM f l).
Proof.
  intros Hf. induction l as [|x l IH]; simpl.
  - apply modifies_only_reads, reads_only_ret.
  - apply modifies_only_bind; [done|]. intros y.
    apply modifies_only_bind; [done|]. intros k.
    apply modifies_only_reads, reads_only_ret.
Qed.

Lemma preserves_reads {A} (m : St A) : reads_only m -> preserves m.
Proof. intros Hm h q o Hq. by rewrite Hm. Qed.

Lemma preserves_bind {A B} (m : St A) (f : A -> St B) :
  preserves m -> (forall a, preserves (f a)) -> preserves (m ≫= f).
Proof.
  intros Hm Hf h q o Hq. unfold mbind, St_bind. specialize (Hm h q o Hq).
  destruct (m h) as [[a|e] h']; simpl in *; [|done].
  by apply Hf.
Qed.

(** An allocation followed by writes to the new object only. *)
Lemma preserves_alloc_bind {B} (o : obj) (f : loc -> St B) :
  (forall p, modifies_only p (f p)) -> preserves (alloc o ≫= f).
Proof.
  intros Hf h q o' Hq. unfold mbind, St_bind, alloc.
  assert (q <> fresh (dom h)) as Hne.
  { intros ->. apply (is_fresh (dom h)). apply elem_of_dom. eauto. }
  rewrite Hf by done. by rewrite lookup_insert_ne.
Qed.

Lemma resolve_obj_preserves (env : Env) (l : loc) (root : string) :
  preserves (resolve_obj env l root).
Proof.
  unfold resolve_obj.
  apply preserves_bind; [apply preserves_reads, reads_only_load_list|].
  intros items. destruct (negb (list_truthy items)).
  { apply preserves_reads, reads_only_raise. }
  apply preserves_bind; [apply preserves_reads, reads_only_load_list|].
  intros counted.
  apply preserves_bind; [apply preserves_reads, reads_only_load_list|].
  intros items'.
  apply preserves_bind.
  { apply preserves_reads, reads_only_sort_order, reads_only_priority_at. }
  intros order. apply preserves_alloc_bind. intros p.
  apply modifies_only_reads.
  apply reads_only_bind; [apply reads_only_load_list|]. intros first.
  apply reads_only_bind; [apply reads_only_lift|]. intros winner.
  apply reads_only_bind; [apply reads_only_load_stack|]. intros w.
  apply reads_only_bind; [apply reads_only_lift|]. intros metadata.
  apply reads_only_bind.
  { destruct (1 <? length counted)%nat;
      [apply reads_only_load_list|apply reads_only_ret]. }
  intros projects. apply reads_only_ret.
Qed.

Lemma resolve_all_step_modifies (env : Env) (root : string) (c p : loc) :
  modifies_only c (resolve_all_step env root c p).
Proof.
  unfold resolve_all_step.
  apply modifies_only_bind;
    [apply modifies_only_reads, reads_only_load_stack|]. intros s.
  apply modifies_only_bind;
    [apply modifies_only_reads, reads_only_lift|]. intros metadata.
  apply modifies_only_bind;
    [apply modifies_only_reads, reads_only_load_contexts|]. intros cs.
  apply modifies_only_write.
Qed.

Lemma resolve_all_obj_preserves (env : Env) (l : loc) (root : string) :
  preserves (resolve_all_obj env l root).
Proof.
  unfold resolve_all_obj.
  apply preserves_bind; [apply preserves_reads, reads_only_load_list|].
  intros items. destruct (negb (list_truthy items)).
  { apply preserves_reads, reads_only_raise. }
  apply preserves_alloc_bind. intros c.
  apply modifies_only_bind;
    [apply modifies_only_reads, reads_only_load_list|]. intros items'.
  apply modifies_only_bind.
  { apply modifies_only_mapM. intros p. apply resolve_all_step_modifies. }
  intros _.
  apply modifies_only_bind;
    [apply modifies_only_reads, reads_only_load_contexts|]. intros cs.
  apply modifies_only_bind.
  { apply modifies_only_reads, reads_only_sort_order. intros ctx.
    apply reads_only_priority_at. }
  intros order.
  apply modifies_only_bind; [apply modifies_only_write|]. intros _.
  apply modifies_only_reads, reads_only_ret.
Qed.

Lemma deref_stack_preserved (h h' : store) (p : loc) (s : DetectedStack) :
  (forall q o, h !! q = Some o -> h' !! q = Some o) ->
  deref_stack h p = Some s -> deref_stack h' p = Some s.
Proof.
  intros Hsub. unfold deref_stack.
  destruct (h !! p) as [o|] eqn:Hp; [|done].
  by rewrite (Hsub _ _ Hp).
Qed.

Lemma candidates_preserved (h h' : store) (l : loc) (ss : list DetectedStack) :
  (forall q o, h !! q = Some o -> h' !! q = Some o) ->
  candidates h l = Some ss -> candidates h' l = Some ss.
Proof.
  intros Hsub. unfold candidates.
  destruct (h !! l) as [o|] eqn:Hl; [|done].
  rewrite (Hsub _ _ Hl). destruct o as [|items|]; try done.
  rewrite !mapM_Some. intros H. eapply Forall2_impl; [exact H|].
  intros p s. by apply deref_stack_preserved.
Qed.


(** ** [resolve] on objects computes [resolve] on values *)

Lemma load_list_eq (h : store) (l : loc) (items : list loc) :
  h !! l = Some (ObjStackList items) -> load_list l h = (Ok items, h).
Proof. intros H. unfold load_list. by rewrite H. Qed.

Lemma load_stack_eq (h : store) (p : loc) (s : DetectedStack) :
  deref_stack h p = Some s -> load_stack p h = (Ok s, h).
Proof.
  unfold deref_stack, load_stack.
  destruct (h !! p) as [[]|]; try done. by intros [= ->].
Qed.

Lemma priority_at_eq (h : store) (p : loc) (s : DetectedStack) :
  deref_stack h p = Some s -> priority_at p h = (Ok (_get_priority s), h).
Proof.
  intros H. unfold priority_at.
  by rewrite (St_bind_Ok _ _ _ _ _ (load_stack_eq _ _ _ H)).
Qed.

Lemma mapM_priority_at (h : store) (items : list loc) (ss : list DetectedStack) :
  Forall2 (fun p s => deref_stack h p = Some s) items ss ->
  mapM priority_at items h = (Ok (_get_priority <$> ss), h).
Proof.
  induction 1 as [|p s items ss Hp _ IH]; [done|].
  cbn [mapM].
  rewrite (St_bind_Ok _ _ _ _ _ (priority_at_eq _ _ _ Hp)).
  by rewrite (St_bind_Ok _ _ _ _ _ IH).
Qed.

Lemma zip_decorate {A B} (key : B -> Z) (ps : list (A * B)) :
  zip (key <$> ps.*2) ps.*1 = (fun q => (key q.2, q.1)) <$> ps.
Proof.
  induction ps as [|[a b] ps IH]; [done|].
  rewrite !fmap_cons. cbn [zip zip_with]. by rewrite IH.
Qed.

Lemma sort_order_pairs {A B} (key : B -> Z) (ps : list (A * B)) :
  snd <$> sorted fst (zip (key <$> ps.*2) ps.*1)
  = (sorted (fun q => key q.2) ps).*1.
Proof.
  rewrite zip_decorate.
  rewrite <- (sorted_fmap (fun q : A * B => (key q.2, q.1)) fst).
  rewrite <- list_fmap_compose. done.
Qed.

Lemma Forall2_pairs {A B} (R : A -> B -> Prop) (xs : list A) (ys : list B) :
  Forall2 R xs ys ->
  exists ps, xs = ps.*1 /\ ys = ps.*2 /\ Forall (fun q => R q.1 q.2) ps.
Proof.
  induction 1 as [|x y xs ys Hxy _ (ps & -> & -> & Hps)].
  - by exists [].
  - exists ((x, y) :: ps). repeat split; [done..|]. by constructor.
Qed.

(** The order computed on references is the order computed on values. *)
Lemma sort_order_Forall2 {A B} (R : A -> B -> Prop) (key : B -> Z)
    (items : list A) (ss : list B) :
  Forall2 R items ss ->
  Forall2 R (snd <$> sorted fst (zip (key <$> ss) items)) (sorted key ss).
Proof.
  intros H. apply Forall2_pairs in H as (ps & -> & -> & Hps).
  rewrite sort_order_pairs, <- (sorted_fmap snd key).
  assert (Forall (fun q => R q.1 q.2) (sorted (fun x : A * B => key x.2) ps))
    as Hs by by rewrite sorted_perm.
  induction Hs as [|q qs Hq _ IH]; [constructor|].
  rewrite !fmap_cons. constructor; done.
Qed.

Lemma resolve_obj_refines (env : Env) (root : string) (h : store) (l : loc)
    (ss : list DetectedStack) :
  candidates h l = Some ss ->
  resolved_value (resolve_obj env l root h)
  = match resolve env ss root with
    | Ok ctx => Ok (Some ctx)
    | Raise e => Raise e
    end.
Proof.
  unfold candidates. destruct (h !! l) as [[|items|]|] eqn:Hl; try done.
  rewrite mapM_Some. intros Hss.
  pose proof (Forall2_length _ _ _ Hss) as Hlen.
  unfold resolve_obj, resolve.
  rewrite (St_bind_Ok _ _ _ _ _ (load_list_eq _ _ _ Hl)).
  destruct Hss as [|p0 s0 items ss Hp0 Hss]; [done|].
  set (its := p0 :: items) in *. set (sts := s0 :: ss) in *.
  assert (Forall2 (fun p s => deref_stack h p = Some s) its sts) as Hall
    by by constructor.
  change (negb (list_truthy its)) with false.
  change (negb (list_truthy sts)) with false. cbv iota.
  rewrite (St_bind_Ok _ _ _ _ _ (load_list_eq _ _ _ Hl)).
  rewrite (St_bind_Ok _ _ _ _ _ (load_list_eq _ _ _ Hl)).
  unfold sort_order.
  rewrite (St_bind_Ok _ _ _ _ _
             (St_bind_Ok _ _ _ _ _ (mapM_priority_at _ _ _ Hall))).
  pose proof (sort_order_Forall2 _ _get_priority _ _ Hall) as Hord.
  set (order := snd <$> sorted fst (zip (_get_priority <$> sts) its)) in *.
  assert (h !! fresh (dom h) = None) as Hfresh.
  { apply not_elem_of_dom, is_fresh. }
  set (p := fresh (dom h)) in *.
  set (h1 := <[p := ObjStackList order]> h).
  assert (forall q o, h !! q = Some o -> h1 !! q = Some o) as Hsub.
  { intros q o Hq. unfold h1. rewrite lookup_insert_ne; [done|]. congruence. }
  assert (alloc (ObjStackList order) h = (Ok p, h1)) as Halloc by done.
  rewrite (St_bind_Ok _ _ _ _ _ Halloc).
  assert (h1 !! p = Some (ObjStackList order)) as Hp
    by apply lookup_insert_eq.
  rewrite (St_bind_Ok _ _ _ _ _ (load_list_eq _ _ _ Hp)).
  destruct (sorted _get_priority sts) as [|w srest] eqn:Hsorted.
  { pose proof (sorted_length _get_priority sts) as Hsl.
    rewrite Hsorted in Hsl. done. }
  apply Forall2_cons_inv_r in Hord as (wl & orest & Hw & Hrest & Horder).
  rewrite Horder. unfold getitem0. cbn [lookup list_lookup].
  assert (lift (Ok wl) h1 = (Ok wl, h1)) as Hlift by done.
  rewrite (St_bind_Ok _ _ _ _ _ Hlift).
  pose proof (deref_stack_preserved _ _ _ _ Hsub Hw) as Hw1.
  rewrite (St_bind_Ok _ _ _ _ _ (load_stack_eq _ _ _ Hw1)).
  cbn [mbind result_bind].
  destruct (_extract_metadata env w root) as [m|e] eqn:Hm.
  2:{ assert (lift (Raise e : result ProjectMetadata) h1 = (Raise e, h1))
        as Hl2 by done.
      by rewrite (St_bind_Raise _ _ _ _ _ Hl2). }
  assert (lift (Ok m) h1 = (Ok m, h1)) as Hl2 by done.
  rewrite (St_bind_Ok _ _ _ _ _ Hl2).
  replace (length its) with (length sts) by done.
  assert (Forall2 (fun p s => deref_stack h1 p = Some s) its sts) as Hall1.
  { eapply Forall2_impl; [exact Hall|]. intros q s.
    by apply deref_stack_preserved. }
  destruct (1 <? length sts)%nat.
  - assert (h1 !! l = Some (ObjStackList its)) as Hl1 by by apply Hsub.
    rewrite (St_bind_Ok _ _ _ _ _ (load_list_eq _ _ _ Hl1)).
    cbn [mret St_ret result_ret resolved_value].
    unfold deref_context, new_ProjectContext; cbn [stack detected_projects].
    rewrite Hw1. cbn [mbind option_bind].
    apply mapM_Some in Hall1. rewrite Hall1. done.
  - assert ((mret [] : St (list loc)) h1 = (Ok [], h1)) as Hnil by done.
    rewrite (St_bind_Ok _ _ _ _ _ Hnil).
    cbn [mret St_ret result_ret resolved_value].
    unfold deref_context, new_ProjectContext; cbn [stack detected_projects].
    rewrite Hw1. done.
Qed.

(** ** [resolve_all] on objects computes [resolve_all] on values *)

Lemma load_contexts_eq (h : store) (c : loc) (cs : list (ProjectContext loc)) :
  h !! c = Some (ObjContextList cs) -> load_contexts c h = (Ok cs, h).
Proof. intros H. unfold load_contexts. by rewrite H. Qed.

(** Writing a list of contexts over a list of contexts changes no stack. *)
Lemma deref_stack_write (h : store) (c p : loc)
    (old new : list (ProjectContext loc)) (s : DetectedStack) :
  h !! c = Some (ObjContextList old) ->
  deref_stack h p = Some s ->
  deref_stack (<[c := ObjContextList new]> h) p = Some s.
Proof.
  intros Hc. unfold deref_stack. destruct (decide (p = c)) as [->|Hne].
  - by rewrite Hc.
  - by rewrite lookup_insert_ne.
Qed.

Lemma deref_context_mono (h h' : store) (o : ProjectContext loc)
    (v : ProjectContext DetectedStack) :
  (forall p s, deref_stack h p = Some s -> deref_stack h' p = Some s) ->
  deref_context h o = Some v -> deref_context h' o = Some v.
Proof.
  intros Hsub. unfold deref_context.
  destruct (deref_stack h (stack o)) as [w|] eqn:Hw; [|done].
  rewrite (Hsub _ _ Hw). cbn [mbind option_bind].
  destruct (mapM (deref_stack h) (detected_projects o)) as [ps|] eqn:Hps;
    [|done].
  assert (mapM (deref_stack h') (detected_projects o) = Some ps) as ->; [|done].
  apply mapM_Some. apply mapM_Some in Hps.
  eapply Forall2_impl; [exact Hps|]. done.
Qed.

Lemma resolve_all_step_Ok (env : Env) (root : string) (c p : loc) (h : store)
    (s : DetectedStack) (m : ProjectMetadata) (acc : list (ProjectContext loc)) :
  deref_stack h p = Some s ->
  _extract_metadata env s (project_path_of root s) = Ok m ->
  h !! c = Some (ObjContextList acc) ->
  resolve_all_step env root c p h
  = (Ok tt,
     <[c := ObjContextList
              (acc ++ [new_ProjectContext m p (project_path_of root s) false []])]>
       h).
Proof.
  intros Hp Hm Hc. unfold resolve_all_step.
  rewrite (St_bind_Ok _ _ _ _ _ (load_stack_eq _ _ _ Hp)).
  rewrite Hm.
  assert (lift (Ok m) h = (Ok m, h)) as Hl by done.
  rewrite (St_bind_Ok _ _ _ _ _ Hl).
  by rewrite (St_bind_Ok _ _ _ _ _ (load_contexts_eq _ _ _ Hc)).
Qed.

Lemma resolve_all_step_Raise (env : Env) (root : string) (c p : loc)
    (h : store) (s : DetectedStack) (e : exn) :
  deref_stack h p = Some s ->
  _extract_metadata env s (project_path_of root s) = Raise e ->
  resolve_all_step env root c p h = (Raise e, h).
Proof.
  intros Hp Hm. unfold resolve_all_step.
  rewrite (St_bind_Ok _ _ _ _ _ (load_stack_eq _ _ _ Hp)).
  rewrite Hm.
  assert (lift (Raise e : result ProjectMetadata) h = (Raise e, h)) as Hl
    by done.
  by rewrite (St_bind_Raise _ _ _ _ _ Hl).
Qed.

(** The loop of [resolve_all]: the contexts are appended in input order,
    and the loop stops at the first candidate whose metadata does not
    validate. *)
Lemma resolve_all_loop (env : Env) (root : string) (c : loc) (h0 : store)
    (items : list loc) (ss : list DetectedStack) :
  Forall2 (fun p s => deref_stack h0 p = Some s) items ss ->
  forall (h : store) (acc : list (ProjectContext loc)),
    (forall p s, deref_stack h0 p = Some s -> deref_stack h p = Some s) ->
    h !! c = Some (ObjContextList acc) ->
    match mapM (fun s =>
                  metadata ← _extract_metadata env s (project_path_of root s);
                  mret (new_ProjectContext metadata s (project_path_of root s)
                          false []))
               ss with
    | Ok vs =>
        exists objs u,
          mapM (resolve_all_step env root c) items h
          = (Ok u, <[c := ObjContextList (acc ++ objs)]> h) /\
          Forall2 (fun o v => deref_context h0 o = Some v) objs vs
    | Raise e =>
        exists h', mapM (resolve_all_step env root c) items h = (Raise e, h')
    end.
Proof.
  induction 1 as [|p s items ss Hp _ IH]; intros h acc Hsub Hc.
  - cbn [mapM]. exists [], []. split; [|constructor].
    rewrite app_nil_r, insert_id; done.
  - cbn [mapM].
    destruct (_extract_metadata env s (project_path_of root s)) as [m|e] eqn:Hm.
    + cbn [mbind result_bind].
      pose proof (resolve_all_step_Ok env root c p h s m acc (Hsub _ _ Hp) Hm Hc)
        as Hstep.
      set (o := new_ProjectContext m p (project_path_of root s) false []) in *.
      set (h2 := <[c := ObjContextList (acc ++ [o])]> h) in *.
      assert (forall q t, deref_stack h0 q = Some t -> deref_stack h2 q = Some t)
        as Hsub2.
      { intros q t Hq. eapply deref_stack_write; [exact Hc|]. by apply Hsub. }
      assert (h2 !! c = Some (ObjContextList (acc ++ [o]))) as Hc2
        by apply lookup_insert_eq.
      specialize (IH h2 (acc ++ [o])%list Hsub2 Hc2).
      rewrite (St_bind_Ok _ _ _ _ _ Hstep).
      match type of IH with match ?r with _ => _ end =>
        destruct r as [vs|e] end.
      * destruct IH as (objs & u & Hloop & Hobjs).
        rewrite (St_bind_Ok _ _ _ _ _ Hloop).
        exists (o :: objs), (tt :: u). split.
        -- unfold h2. rewrite insert_insert_eq, <- app_assoc. done.
        -- constructor; [|done]. unfold deref_context, o. simpl.
           by rewrite Hp.
      * destruct IH as (h' & Hloop). exists h'.
        by rewrite (St_bind_Raise _ _ _ _ _ Hloop).
    + cbn [mbind result_bind]. exists h.
      by rewrite (St_bind_Raise _ _ _ _ _
                    (resolve_all_step_Raise env root c p h s e (Hsub _ _ Hp) Hm)).
Qed.

Lemma mapM_context_priority (h : store) (objs : list (ProjectContext loc))
    (vs : list (ProjectContext DetectedStack)) :
  Forall2 (fun o v => deref_context h o = Some v) objs vs ->
  mapM (fun ctx => priority_at (stack ctx)) objs h
  = (Ok ((fun v => _get_priority (stack v)) <$> vs), h).
Proof.
  induction 1 as [|o v objs vs Ho _ IH]; [done|].
  cbn [mapM].
  assert (deref_stack h (stack o) = Some (stack v)) as Hs.
  { unfold deref_context in Ho.
    destruct (deref_stack h (stack o)) as [w|]; [|done].
    cbn [mbind option_bind] in Ho.
    destruct (mapM (deref_stack h) (detected_projects o)); [|done].
    by injection Ho as <-. }
  rewrite (St_bind_Ok _ _ _ _ _ (priority_at_eq _ _ _ Hs)).
  by rewrite (St_bind_Ok _ _ _ _ _ IH).
Qed.

Lemma resolve_all_obj_refines (env : Env) (root : string) (h : store) (l : loc)
    (ss : list DetectedStack) :
  candidates h l = Some ss ->
  resolved_all_value (resolve_all_obj env l root h)
  = match resolve_all env ss root with
    | Ok cs => Ok (Some cs)
    | Raise e => Raise e
    end.
Proof.
  unfold candidates. destruct (h !! l) as [[|items|]|] eqn:Hl; try done.
  rewrite mapM_Some. intros Hss.
  unfold resolve_all_obj, resolve_all.
  rewrite (St_bind_Ok _ _ _ _ _ (load_list_eq _ _ _ Hl)).
  destruct Hss as [|p0 s0 items ss Hp0 Hss]; [done|].
  set (its := p0 :: items) in *. set (sts := s0 :: ss) in *.
  assert (Forall2 (fun p s => deref_stack h p = Some s) its sts) as Hall
    by by constructor.
  change (negb (list_truthy its)) with false.
  change (negb (list_truthy sts)) with false. cbv iota.
  assert (h !! fresh (dom h) = None) as Hfresh.
  { apply not_elem_of_dom, is_fresh. }
  set (c := fresh (dom h)) in *.
  set (h1 := <[c := ObjContextList []]> h).
  assert (alloc (ObjContextList []) h = (Ok c, h1)) as Halloc by done.
  rewrite (St_bind_Ok _ _ _ _ _ Halloc).
  assert (h1 !! l = Some (ObjStackList its)) as Hl1.
  { unfold h1. rewrite lookup_insert_ne; [done|]. congruence. }
  rewrite (St_bind_Ok _ _ _ _ _ (load_list_eq _ _ _ Hl1)).
  assert (forall p s, deref_stack h p = Some s -> deref_stack h1 p = Some s)
    as Hsub.
  { intros p s. unfold deref_stack, h1.
    destruct (decide (p = c)) as [->|Hne]; [by rewrite Hfresh|].
    by rewrite lookup_insert_ne. }
  assert (h1 !! c = Some (ObjContextList [])) as Hc1 by apply lookup_insert_eq.
  pose proof (resolve_all_loop env root c h its sts Hall h1 [] Hsub Hc1) as Hloop.
  match type of Hloop with match ?r with _ => _ end =>
    destruct r as [vs|e] end.
  2:{ destruct Hloop as (h' & Hloop).
      by rewrite (St_bind_Raise _ _ _ _ _ Hloop). }
  destruct Hloop as (objs & u & Hloop & Hobjs). cbn [app] in Hloop.
  rewrite (St_bind_Ok _ _ _ _ _ Hloop).
  set (h2 := <[c := ObjContextList objs]> h1) in *.
  assert (h2 !! c = Some (ObjContextList objs)) as Hc2 by apply lookup_insert_eq.
  rewrite (St_bind_Ok _ _ _ _ _ (load_contexts_eq _ _ _ Hc2)).
  assert (forall p s, deref_stack h p = Some s -> deref_stack h2 p = Some s)
    as Hsub2.
  { intros p s Hp. eapply deref_stack_write; [exact Hc1|]. by apply Hsub. }
  assert (Forall2 (fun o v => deref_context h2 o = Some v) objs vs) as Hobjs2.
  { eapply Forall2_impl; [exact Hobjs|]. intros o v.
    by apply deref_context_mono. }
  unfold sort_order.
  rewrite (St_bind_Ok _ _ _ _ _
             (St_bind_Ok _ _ _ _ _ (mapM_context_priority _ _ _ Hobjs2))).
  pose proof (sort_order_Forall2 _ (fun v => _get_priority (stack v)) _ _ Hobjs2)
    as Hord.
  set (order := snd <$> sorted fst
                  (zip ((fun v => _get_priority (stack v)) <$> vs) objs)) in *.
  set (h3 := <[c := ObjContextList order]> h2).
  assert (write c (ObjContextList order) h2 = (Ok tt, h3)) as Hwrite by done.
  rewrite (St_bind_Ok _ _ _ _ _ Hwrite).
  cbn [mret St_ret mbind result_bind result_ret resolved_all_value].
  unfold contexts_at, h3. rewrite lookup_insert_eq.
  assert (mapM (deref_context (<[c := ObjContextList order]> h2)) order
          = Some (sorted (fun v => _get_priority (stack v)) vs)) as ->; [|done].
  apply mapM_Some. eapply Forall2_impl; [exact Hord|].
  intros o v. apply deref_context_mono.
  intros p s. by apply deref_stack_write with (old := objs).
Qed.

(** ** The caller's list is left alone *)

(** C9: neither [resolve] nor [resolve_all] writes to an object that
    existed before the call, whatever the call returns or raises; so the
    candidate list holds the same references after the call, and reading
    it by value gives the same stacks (same length, same order, same
    fields).  [sorted] works on a list of its own, [list.sort] is called on
    the list of contexts that [resolve_all] has just built. *)
Theorem resolve_does_not_mutate_input (env : Env) (root : string)
    (h : store) (l : loc) :
  (forall q o, h !! q = Some o ->
               (resolve_obj env l root h).2 !! q = Some o /\
               (resolve_all_obj env l root h).2 !! q = Some o) /\
  (forall ss, candidates h l = Some ss ->
              candidates (resolve_obj env l root h).2 l = Some ss /\
              candidates (resolve_all_obj env l root h).2 l = Some ss).
Proof.
  split.
  - intros q o Hq. split.
    + by apply resolve_obj_preserves.
    + by apply resolve_all_obj_preserves.
  - intros ss Hss. split.
    + eapply candidates_preserved; [|exact Hss].
      intros q o. apply resolve_obj_preserves.
    + eapply candidates_preserved; [|exact Hss].
      intros q o. apply resolve_all_obj_preserves.
Qed.

Lemma resolve_does_not_mutate_input_witness :
  candidates demo_store 0%nat
  = Some [node_react; java_spring (Some "api"); ts_express] /\
  candidates (resolve_obj demo_env 0%nat demo_root demo_store).2 0%nat
  = Some [node_react; java_spring (Some "api"); ts_express] /\
  candidates (resolve_all_obj demo_env 0%nat demo_root demo_store).2 0%nat
  = Some [node_react; java_spring (Some "api"); ts_express].
Proof.
  assert (candidates demo_store 0%nat
          = Some [node_react; java_spring (Some "api"); ts_express]) as H
    by reflexivity.
  split; [exact H|].
  exact (proj2 (resolve_does_not_mutate_input demo_env demo_root demo_store 0%nat)
           _ H).
Defined.

(** ** Determinism *)

(** C8: two calls of [resolve] on candidate lists that are equal by value,
    in the same order, with the same file system, return contexts that are
    equal by value (the same stack, the same metadata) or raise the same
    exception; this holds for two different list objects and for a second
    call on the same list after the first.  The score of a stack is a
    function of its fields: computing it reads the stack and leaves the
    store as it was. *)
Theorem resolve_deterministic (env : Env) (root : string) (h1 h2 : store)
    (l1 l2 : loc) (ss : list DetectedStack) :
  candidates h1 l1 = Some ss ->
  candidates h2 l2 = Some ss ->
  resolved_value (resolve_obj env l1 root h1)
  = resolved_value (resolve_obj env l2 root h2) /\
  resolved_value (resolve_obj env l1 root (resolve_obj env l1 root h1).2)
  = resolved_value (resolve_obj env l1 root h1) /\
  (forall p1 p2 s,
      deref_stack h1 p1 = Some s -> deref_stack h2 p2 = Some s ->
      priority_at p1 h1 = (Ok (_get_priority s), h1) /\
      priority_at p2 h2 = (Ok (_get_priority s), h2)).
Proof.
  intros H1 H2. split; [|split].
  - by rewrite (resolve_obj_refines env root h1 l1 ss),
      (resolve_obj_refines env root h2 l2 ss).
  - rewrite (resolve_obj_refines env root h1 l1 ss) by done.
    apply resolve_obj_refines.
    eapply candidates_preserved; [|exact H1].
    intros q o. apply resolve_obj_preserves.
  - intros p1 p2 s Hp1 Hp2. split; by apply priority_at_eq.
Qed.

Lemma resolve_deterministic_witness :
  candidates demo_store 0%nat = candidates demo_store_copy 7%nat /\
  resolved_value (resolve_obj demo_env 0%nat demo_root demo_store)
  = resolved_value (resolve_obj demo_env 7%nat demo_root demo_store_copy).
Proof.
  split; [reflexivity|].
  exact (proj1 (resolve_deterministic demo_env demo_root demo_store
                  demo_store_copy 0%nat 7%nat
                  [node_react; java_spring (Some "api"); ts_express]
                  eq_refl eq_refl)).
Defined.

(** ** Metadata extraction *)

(** When [_extract_metadata] returns, the name is not empty. *)
Lemma extract_metadata_name_nonempty (env : Env) (s : DetectedStack)
    (root : string) (m : ProjectMetadata) :
  _extract_metadata env s root = Ok m -> name m <> "".
Proof.
  unfold _extract_metadata.
  match goal with |- context [py_truthy (l_name ?x)] => generalize x end.
  intros s' H. apply result_bind_Ok in H as (n & Hn & H).
  apply result_bind_Ok in H as (v & _ & H). injection H as <-. simpl.
  destruct (py_truthy (l_name s')) eqn:Ht; simpl in Hn.
  - destruct (l_name s'); try done. injection Hn as <-. simpl in Ht.
    intros ->. done.
  - destruct (String.eqb_spec (Path.name (Path.of_str root)) "") as [He|He];
      simpl in Hn; injection Hn as <-; done.
Qed.

(** Without any manifest the name is the last segment of the root path and
    the version is the default. *)
Lemma extract_metadata_no_files (s : DetectedStack) (root : string) :
  Path.name (Path.of_str root) <> "" ->
  _extract_metadata no_files s root
  = Ok {| name := Path.name (Path.of_str root); version := "0.1.0";
          description := None |}.
Proof.
  intros Hn. unfold _extract_metadata.
  assert (forall p (st : locals), _extract_from_csproj no_files p s st = st) as Hcs.
  { intros p st. unfold _extract_from_csproj. simpl.
    by destruct (endswith _ _). }
  destruct (language s); simpl; rewrite ?Hcs; simpl;
    by destruct (String.eqb_spec (Path.name (Path.of_str root)) "").
Qed.

(** With a [package.json] that holds a name and a version, both are
    taken from it. *)
Lemma extract_metadata_demo :
  _extract_metadata demo_env node_react demo_root
  = Ok {| name := "demo-svc"; version := "2.3.1"; description := None |}.
Proof. vm_compute. reflexivity. Qed.

(** C6, at the failing input: a [package.json] whose version is null.  The
    file is read and parsed without error, [version] becomes [None], and
    the construction of [ProjectMetadata] raises the validation error,
    which leaves [_extract_metadata]. *)
Theorem extract_metadata_null_version_raises :
  _extract_from_package_json null_version_env (Path.of_str demo_root)
    {| l_name := PyNone; l_version := PyStr "0.1.0" |}
  = {| l_name := PyStr "demo-svc"; l_version := PyNone |} /\
  _extract_metadata null_version_env node_react demo_root
  = Raise ValidationError /\
  resolve null_version_env [node_react] demo_root = Raise ValidationError.
Proof. repeat split; vm_compute; reflexivity. Qed.

(** * Further properties of the resolver *)

(** ** Score bands *)

Lemma score_band (s : DetectedStack) :
  score_low (language s) <= _get_priority s <= score_high (language s).
Proof.
  rewrite priority_formula.
  destruct s as [l f ? ? ? ? ? ? ? ? ? ? ? ? ? ? ? ? ? ? ? d t ? ?].
  unfold Reference.score; cbn [language framework has_dockerfile has_tests].
  destruct l, f, d, t; cbv; split; congruence.
Qed.

(** X1: the score of a stack lies in the band of its language, and both
    ends of every band are reached. *)
Theorem score_within_language_band (s : DetectedStack) :
  score_low (language s) <= _get_priority s <= score_high (language s) /\
  (exists f d t, _get_priority (mk_stack (language s) f None d t)
                 = score_low (language s)) /\
  (exists f d t, _get_priority (mk_stack (language s) f None d t)
                 = score_high (language s)).
Proof.
  split; [apply score_band|split].
  - destruct (language s).
    + by exists Framework.SPRING_BOOT, true, true.
    + by exists Framework.KTOR, true, true.
    + by exists Framework.DJANGO, true, true.
    + by exists Framework.NESTJS, true, true.
    + by exists Framework.NESTJS, true, true.
    + by exists Framework.GIN, true, true.
    + by exists Framework.ASPNET_CORE, true, true.
    + by exists Framework.LARAVEL, true, true.
    + by exists Framework.SPRING_BOOT, true, true.
  - destruct (language s).
    + by exists Framework.NONE, false, false.
    + by exists Framework.NONE, false, false.
    + by exists Framework.NONE, false, false.
    + by exists Framework.REACT, false, false.
    + by exists Framework.NONE, false, false.
    + by exists Framework.NONE, false, false.
    + by exists Framework.NONE, false, false.
    + by exists Framework.NONE, false, false.
    + by exists Framework.NONE, false, false.
Qed.

(** X2: a stack whose language comes earlier in the precedence list scores
    strictly lower than one whose language comes later or is not listed,
    whatever the frameworks and flags, with one exception: a TypeScript
    stack can score lower than a PHP stack. *)
Theorem language_precedence_dominates (a b : DetectedStack) :
  ((precedence (language a) < precedence (language b))%nat ->
   ~ (language a = Language.PHP /\ language b = Language.TYPESCRIPT) ->
   _get_priority a < _get_priority b) /\
  (exists p t, language p = Language.PHP /\ language t = Language.TYPESCRIPT /\
               _get_priority t < _get_priority p).
Proof.
  split.
  - intros Hlt Hex.
    pose proof (score_band a) as [_ Ha]. pose proof (score_band b) as [Hb _].
    destruct (language a), (language b); cbv in Hlt; simpl in Ha, Hb;
      try lia; exfalso; by apply Hex.
  - exists (mk_stack Language.PHP Framework.NONE None false false),
           (mk_stack Language.TYPESCRIPT Framework.EXPRESS None true true).
    by split; [|split].
Qed.

Lemma language_precedence_dominates_witness :
  (precedence (language (java_spring None)) < precedence (language node_react))%nat /\
  _get_priority (java_spring None) < _get_priority node_react.
Proof.
  split; [vm_compute; lia|].
  apply (proj1 (language_precedence_dominates (java_spring None) node_react)).
  - vm_compute. lia.
  - intros [H _]. discriminate H.
Defined.

(** ** Independence of the input order *)

Section OrderIndependence.
Context {A : Type} (key : A -> Z).

Lemma of_key_Permutation (k : Z) (l l' : list A) :
  l ≡ₚ l' -> of_key key k l ≡ₚ of_key key k l'.
Proof.
  unfold of_key. induction 1 as [|x l l' _ IH|x y l|l1 l2 l3 _ IH1 _ IH2]; simpl.
  - done.
  - destruct (key x =? k); by rewrite IH.
  - destruct (key x =? k), (key y =? k); try done. apply Permutation_swap.
  - by rewrite IH1.
Qed.

Lemma of_key_nil (k : Z) (l : list A) :
  (forall y, y ∈ l -> key y <> k) -> of_key key k l = [].
Proof.
  unfold of_key. induction l as [|x l IH]; intros H; simpl; [done|].
  destruct (Z.eqb_spec (key x) k) as [Heq|_].
  - exfalso. apply (H x); [apply list_elem_of_here|done].
  - apply IH. intros y Hy. apply H. by apply list_elem_of_further.
Qed.

Lemma of_key_NoDup_length (k : Z) (l : list A) :
  NoDup (key <$> l) -> (length (of_key key k l) <= 1)%nat.
Proof.
  induction l as [|x l IH]; [simpl; lia|].
  rewrite fmap_cons. intros Hnd. apply NoDup_cons in Hnd as [Hx Hnd].
  unfold of_key in *. cbn [List.filter].
  destruct (Z.eqb_spec (key x) k) as [Heq|_]; [|by apply IH].
  cbn [length]. fold (of_key key k l). rewrite (of_key_nil k l); [simpl; lia|].
  intros y Hy Hk. apply Hx. rewrite Heq, <- Hk. by apply list_elem_of_fmap_2.
Qed.

Lemma of_key_perm_eq (k : Z) (l l' : list A) :
  l ≡ₚ l' -> NoDup (key <$> l) -> of_key key k l' = of_key key k l.
Proof.
  intros Hp Hnd. pose proof (of_key_Permutation k _ _ Hp) as Hk.
  pose proof (of_key_NoDup_length k l Hnd) as Hlen.
  destruct (of_key key k l) as [|x [|y r]]; simpl in Hlen; [| |lia].
  - by apply Permutation_nil in Hk.
  - by apply Permutation_singleton_l in Hk.
Qed.

(** Lists with pairwise distinct keys sort to the same list in any order. *)
Lemma sorted_perm_eq (l l' : list A) :
  l ≡ₚ l' -> NoDup (key <$> l) -> sorted key l' = sorted key l.
Proof.
  intros Hp Hnd. apply stable_sort_unique; [apply sorted_ascending|].
  intros k. rewrite sorted_stable. by apply of_key_perm_eq.
Qed.

Lemma of_key_unique_winner (l : list A) (p : nat) (w : A) :
  l !! p = Some w ->
  (forall k y, l !! k = Some y -> key y = key w -> k = p) ->
  of_key key (key w) l = [w].
Proof.
  revert p. induction l as [|x l IH]; intros p Hp Hu; [done|].
  unfold of_key. simpl. destruct p as [|p]; simpl in Hp.
  - injection Hp as ->. rewrite Z.eqb_refl. f_equal.
    apply of_key_nil. intros y Hy Hk.
    apply list_elem_of_lookup in Hy as [k Hk'].
    by specialize (Hu (S k) y Hk' Hk).
  - destruct (Z.eqb_spec (key x) (key w)) as [Heq|_].
    + by specialize (Hu 0%nat x eq_refl Heq).
    + apply (IH p Hp). intros k y Hy Hk.
      specialize (Hu (S k) y Hy Hk). lia.
Qed.

(** A candidate that alone has the minimal key wins in every order. *)
Lemma wins_at_Permutation (l l' : list A) (p : nat) (w : A) :
  wins_at key l p w ->
  (forall k y, l !! k = Some y -> key y = key w -> k = p) ->
  l ≡ₚ l' ->
  exists q, wins_at key l' q w.
Proof.
  intros Hw Hu Hp. destruct Hw as (Hlp & Hbefore & Hall).
  assert (w ∈ l') as Hin.
  { rewrite <- Hp. by eapply list_elem_of_lookup_2. }
  assert (l' <> []) as Hne by (intros ->; by apply elem_of_nil in Hin).
  destruct (wins_at_exists key l' Hne) as (q & w' & Hw').
  exists q. replace w with w'; [done|].
  destruct Hw' as (Hq & _ & Hall').
  assert (key w' <= key w) as H1.
  { apply list_elem_of_lookup in Hin as [k Hk]. by apply (Hall' k). }
  assert (key w <= key w') as H2.
  { assert (w' ∈ l) as Hin' by (rewrite Hp; by eapply list_elem_of_lookup_2).
    apply list_elem_of_lookup in Hin' as [k Hk]. by apply (Hall k). }
  assert (w' ∈ of_key key (key w) l') as Hk.
  { apply of_key_elem. split; [by eapply list_elem_of_lookup_2|lia]. }
  pose proof (of_key_Permutation (key w) _ _ Hp) as Hperm.
  rewrite (of_key_unique_winner l p w Hlp Hu) in Hperm.
  apply Permutation_singleton_l in Hperm. rewrite <- Hperm in Hk.
  by apply list_elem_of_singleton in Hk.
Qed.

End OrderIndependence.

(** X3: when one candidate only has the minimal score, [resolve] builds
    its context around that candidate whatever the order of the input:
    for every permutation of the list, the stack, the metadata, the root
    path and the monorepo flag of the result are the same. *)
Theorem resolve_winner_order_independent (env : Env) (root : string)
    (l l' : list DetectedStack) (p : nat) (w : DetectedStack) :
  wins_at _get_priority l p w ->
  (forall k y, l !! k = Some y -> _get_priority y = _get_priority w -> k = p) ->
  l ≡ₚ l' ->
  resolve env l root = context_around env w root l /\
  resolve env l' root = context_around env w root l' /\
  match resolve env l root, resolve env l' root with
  | Ok c, Ok c' =>
      stack c' = stack c /\ metadata c' = metadata c /\
      root_path c' = root_path c /\ is_monorepo c' = is_monorepo c
  | Raise e, Raise e' => e' = e
  | _, _ => False
  end.
Proof.
  intros Hw Hu Hp.
  destruct (wins_at_Permutation _get_priority l l' p w Hw Hu Hp) as [q Hq].
  rewrite (resolve_wins env root l p w Hw), (resolve_wins env root l' q w Hq).
  split; [done|]. split; [done|].
  unfold context_around. rewrite (Permutation_length Hp).
  by destruct (_extract_metadata env w root).
Qed.

Lemma resolve_winner_order_independent_witness :
  exists c c',
    resolve demo_env [node_react; java_a; ts_express] demo_root = Ok c /\
    resolve demo_env [ts_express; node_react; java_a] demo_root = Ok c' /\
    stack c' = stack c /\ metadata c' = metadata c.
Proof.
  destruct (resolve_winner_order_independent demo_env demo_root
              [node_react; java_a; ts_express] [ts_express; node_react; java_a]
              1%nat java_a) as (_ & _ & H).
  - split; [reflexivity|]. split.
    + intros k y Hk Hy. destruct k as [|[|k]]; [|lia|lia].
      injection Hy as <-. vm_compute. reflexivity.
    + intros k y Hy.
      destruct k as [|[|[|k]]]; simpl in Hy; try discriminate Hy;
        injection Hy as <-; vm_compute; discriminate.
  - intros k y Hy Hk.
    destruct k as [|[|[|k]]]; simpl in Hy; try discriminate Hy;
      try reflexivity; injection Hy as <-; vm_compute in Hk; discriminate Hk.
  - symmetry. apply (Permutation_cons_append [node_react; java_a] ts_express).
  - destruct (resolve demo_env [node_react; java_a; ts_express] demo_root)
      as [c|e] eqn:H1;
      [|exfalso; vm_compute in H1; discriminate H1].
    destruct (resolve demo_env [ts_express; node_react; java_a] demo_root)
      as [c'|e] eqn:H2; [|contradiction].
    destruct H as (Hs & Hm & _). exists c, c'. repeat split; assumption.
Defined.

Lemma sorted_ext {A} (key1 key2 : A -> Z) (l : list A) :
  (forall x, key1 x = key2 x) -> sorted key1 l = sorted key2 l.
Proof.
  intros H. induction l as [|x l IH]; [done|].
  change (sorted key1 (x :: l)) with (insert_by key1 x (sorted key1 l)).
  change (sorted key2 (x :: l)) with (insert_by key2 x (sorted key2 l)).
  rewrite IH. generalize (sorted key2 l) as ys.
  induction ys as [|y ys IHys]; simpl; [done|].
  rewrite !H. by rewrite IHys.
Qed.

Lemma result_mapM_fmap {A B} (f : A -> result B) (g : A -> B) (l : list A) :
  (forall x, x ∈ l -> f x = Ok (g x)) -> mapM f l = Ok (g <$> l).
Proof.
  induction l as [|x l IH]; intros H; [done|].
  cbn [mapM]. rewrite (H x) by apply list_elem_of_here.
  cbn [mbind result_bind]. rewrite IH; [done|].
  intros y Hy. apply H. by apply list_elem_of_further.
Qed.

(** The context that [resolve_all] builds for one candidate. *)
Lemma resolve_all_fmap (env : Env) (root : string) (l : list DetectedStack) :
  l <> [] ->
  (forall s, s ∈ l -> is_Ok (_extract_metadata env s (project_path_of root s))) ->
  exists g : DetectedStack -> ProjectContext DetectedStack,
    (forall s, stack (g s) = s) /\
    (forall s m, _extract_metadata env s (project_path_of root s) = Ok m ->
                 g s = new_ProjectContext m s (project_path_of root s) false []) /\
    forall l', l' <> [] -> (forall s, s ∈ l' -> s ∈ l) ->
      resolve_all env l' root
      = Ok (sorted (fun c => _get_priority (stack c)) (g <$> l')).
Proof.
  intros Hne Hall.
  exists (fun s =>
            match _extract_metadata env s (project_path_of root s) with
            | Ok m => new_ProjectContext m s (project_path_of root s) false []
            | Raise _ =>
                new_ProjectContext
                  {| name := ""; version := ""; description := None |}
                  s "" false []
            end).
  split; [|split].
  - intros s. by destruct (_extract_metadata env s (project_path_of root s)).
  - intros s m Hm. by rewrite Hm.
  - intros l' Hne' Hsub. unfold resolve_all. destruct l' as [|x xs]; [done|].
    change (negb (list_truthy (x :: xs))) with false. cbv iota.
    erewrite result_mapM_fmap; [done|].
    intros s Hs. destruct (Hall s (Hsub s Hs)) as [m Hm]. by rewrite Hm.
Qed.

Lemma resolve_all_Raise_candidate (env : Env) (root : string)
    (l : list DetectedStack) (e : exn) :
  l <> [] -> resolve_all env l root = Raise e ->
  exists s e', s ∈ l /\
               _extract_metadata env s (project_path_of root s) = Raise e'.
Proof.
  intros Hne Hl. destruct l as [|x xs]; [done|]. unfold resolve_all in Hl.
  change (negb (list_truthy (x :: xs))) with false in Hl. cbv iota in Hl.
  apply result_bind_Raise in Hl as [Hl|(cs & _ & Hl)]; [|done].
  apply result_mapM_Raise in Hl as (s & Hs & Hl).
  apply result_bind_Raise in Hl as [Hl|(m & _ & Hl)]; [|done].
  by exists s, e.
Qed.

Lemma resolve_all_Raise_Permutation (env : Env) (root : string)
    (l l' : list DetectedStack) (e : exn) :
  l ≡ₚ l' -> resolve_all env l root = Raise e ->
  exists e', resolve_all env l' root = Raise e'.
Proof.
  intros Hp Hl.
  assert (l = [] \/ l <> []) as [->|Hne] by (destruct l; [left|right]; done).
  { apply Permutation_nil in Hp as ->. by exists e. }
  destruct (resolve_all_Raise_candidate env root l e Hne Hl)
    as (s & e0 & Hs & Hm).
  destruct (resolve_all env l' root) as [cs'|e'] eqn:Hl'; [|by exists e'].
  exfalso. apply resolve_all_Ok in Hl' as (cs0 & H0 & _).
  assert (s ∈ l') as Hs' by by rewrite <- Hp.
  apply list_elem_of_lookup in Hs' as [i Hi].
  destruct (Forall2_lookup_l _ _ _ _ _ H0 Hi) as (c & _ & m & Hm' & _).
  congruence.
Qed.

(** X4: when the scores of the candidates are pairwise distinct, the list
    that [resolve_all] returns does not depend on the order of its input:
    for every permutation of the candidates, either both calls return the
    same list of contexts, or both raise.  (Each call raises for the first
    candidate, in its own order, whose metadata fail to validate: the two
    exceptions need not be the same.) *)
Theorem resolve_all_order_independent (env : Env) (root : string)
    (l l' : list DetectedStack) :
  NoDup (_get_priority <$> l) -> l ≡ₚ l' ->
  match resolve_all env l root, resolve_all env l' root with
  | Ok cs, Ok cs' => cs' = cs
  | Raise _, Raise _ => True
  | _, _ => False
  end.
Proof.
  intros Hnd Hp.
  destruct (resolve_all env l root) as [cs|e] eqn:Hl.
  - destruct (resolve_all env l' root) as [cs'|e'] eqn:Hl'.
    2:{ symmetry in Hp.
        destruct (resolve_all_Raise_Permutation env root l' l e' Hp Hl')
          as [e Hl2]. congruence. }
    assert (l <> []) as Hne by (intros ->; discriminate Hl).
    assert (l' <> []) as Hne' by (intros ->; discriminate Hl').
    assert (forall s, s ∈ l ->
              is_Ok (_extract_metadata env s (project_path_of root s))) as Hall.
    { intros s Hs. apply resolve_all_Ok in Hl as (cs0 & H0 & _).
      apply list_elem_of_lookup in Hs as [i Hi].
      destruct (Forall2_lookup_l _ _ _ _ _ H0 Hi) as (c & _ & m & Hm & _).
      by exists m. }
    destruct (resolve_all_fmap env root l Hne Hall) as (g & Hg & _ & Hres).
    assert (forall k, sorted (fun c => _get_priority (stack c)) (g <$> k)
                      = g <$> sorted _get_priority k) as Hs.
    { intros k. rewrite <- (sorted_fmap g (fun c => _get_priority (stack c))).
      f_equal. apply sorted_ext. intros s. by rewrite Hg. }
    rewrite (Hres l Hne) in Hl by done.
    rewrite (Hres l' Hne') in Hl' by (intros s; by rewrite Hp).
    rewrite !Hs in Hl, Hl'. injection Hl as <-. injection Hl' as <-.
    f_equal. by apply sorted_perm_eq.
  - by destruct (resolve_all_Raise_Permutation env root l l' e Hp Hl) as [e' ->].
Qed.

Lemma resolve_all_order_independent_witness :
  exists cs,
    resolve_all demo_env [node_react; java_a; ts_express] demo_root = Ok cs /\
    resolve_all demo_env [ts_express; node_react; java_a] demo_root = Ok cs /\
    stack <$> cs = [java_a; ts_express; node_react].
Proof.
  assert (match resolve_all demo_env [node_react; java_a; ts_express] demo_root,
                resolve_all demo_env [ts_express; node_react; java_a] demo_root
          with
          | Ok cs, Ok cs' => cs' = cs
          | Raise _, Raise _ => True
          | _, _ => False
          end) as H.
  { apply (resolve_all_order_independent demo_env demo_root
             [node_react; java_a; ts_express] [ts_express; node_react; java_a]).
    - refine (bool_decide_unpack _ _). vm_compute. exact I.
    - symmetry. apply (Permutation_cons_append [node_react; java_a] ts_express). }
  destruct (resolve_all demo_env [node_react; java_a; ts_express] demo_root)
    as [cs|e] eqn:H1; [|exfalso; vm_compute in H1; discriminate H1].
  destruct (resolve_all demo_env [ts_express; node_react; java_a] demo_root)
    as [cs'|e] eqn:H2; [|contradiction].
  exists cs. split; [reflexivity|]. split; [by rewrite H|].
  vm_compute in H1. injection H1 as <-. reflexivity.
Defined.

(** X5: on a single candidate at the repository root (no project root, or
    an empty one), [resolve_all] returns the one context that [resolve]
    returns, and raises when [resolve] raises. *)
Theorem resolve_all_single_root_candidate (env : Env) (root : string)
    (x : DetectedStack) :
  project_root x = None \/ project_root x = Some "" ->
  resolve_all env [x] root
  = match resolve env [x] root with
    | Ok ctx => Ok [ctx]
    | Raise e => Raise e
    end.
Proof.
  intros Hx. unfold resolve_all, resolve.
  assert (project_path_of root x = root) as Hpath.
  { unfold project_path_of. by destruct Hx as [-> | ->]. }
  cbn [list_truthy negb mapM sorted foldr insert_by getitem0 lookup list_lookup
       length Nat.ltb Nat.leb].
  rewrite Hpath. cbn [mbind result_bind mret result_ret].
  by destruct (_extract_metadata env x root).
Qed.

Lemma resolve_all_single_root_candidate_witness :
  exists ctx, resolve demo_env [ts_express] demo_root = Ok ctx /\
              resolve_all demo_env [ts_express] demo_root = Ok [ctx].
Proof.
  pose proof (resolve_all_single_root_candidate demo_env demo_root ts_express
                (or_introl eq_refl)) as H.
  destruct (resolve demo_env [ts_express] demo_root) as [ctx|e] eqn:Hr.
  - exists ctx. split; [reflexivity|exact H].
  - exfalso. vm_compute in Hr. discriminate Hr.
Defined.

(** * Further properties of metadata extraction *)

Ltac try_unfold :=
  unfold try_except_pass, get_name_version, search_name, search_version,
    call, get_name, get_version, set_name, set_version, pass,
    mbind, Try_bind, mret, Try_ret.

Lemma str_contains_slash_cons (c : ascii) (w : string) :
  c <> slash -> str_contains "/" (String c w) = str_contains "/" w.
Proof.
  intros Hc.
  change (str_contains "/" (String c w))
    with (String.prefix "/" (String c w) || str_contains "/" w).
  assert (String.prefix "/" (String c w) = false) as ->; [|done].
  change (String.prefix "/" (String c w))
    with (if ascii_dec "/"%char c then String.prefix "" w else false).
  destruct (ascii_dec "/"%char c) as [He|_]; [|done].
  exfalso. apply Hc. by symmetry.
Qed.

(** No word of a split contains the separator. *)
Lemma split_on_no_sep (s : string) :
  Forall (fun w => str_contains "/" w = false) (split_on slash s).
Proof.
  induction s as [|c s IH]; simpl.
  - by repeat constructor.
  - destruct (Ascii.eqb_spec c slash) as [->|Hc].
    + constructor; [done|exact IH].
    + destruct (split_on slash s) as [|w ws].
      * constructor; [|constructor]. by rewrite str_contains_slash_cons.
      * apply Forall_cons in IH as [Hw Hws]. constructor; [|done].
        by rewrite str_contains_slash_cons.
Qed.

Lemma split_on_nonempty (s : string) : split_on slash s <> [].
Proof.
  destruct s as [|c s]; simpl; [done|].
  destruct (Ascii.eqb c slash); [done|]. by destruct (split_on slash s).
Qed.

Lemma last_segment_no_slash (s : string) :
  str_contains "/" (List.last (split_on slash s) "") = false.
Proof.
  pose proof (split_on_no_sep s) as H. pose proof (split_on_nonempty s) as Hne.
  induction (split_on slash s) as [|w ws IH]; [done|].
  apply Forall_cons in H as [Hw Hws]. destruct ws as [|w' ws']; [done|].
  by apply IH.
Qed.

(** X6: when [_extract_metadata] returns, the name of the metadata is not
    empty and there is no description. *)
Theorem metadata_name_never_empty (env : Env) (s : DetectedStack)
    (root : string) (m : ProjectMetadata) :
  _extract_metadata env s root = Ok m ->
  name m <> "" /\ description m = None.
Proof.
  intros H. split; [by eapply extract_metadata_name_nonempty|].
  unfold _extract_metadata in H. apply result_bind_Ok in H as (n & _ & H).
  apply result_bind_Ok in H as (v & _ & H). by injection H as <-.
Qed.

Lemma metadata_name_never_empty_witness :
  _extract_metadata composer_env php_laravel demo_root
  = Ok {| name := "billing"; version := "0.1.0"; description := None |} /\
  "billing" <> "".
Proof.
  assert (_extract_metadata composer_env php_laravel demo_root
          = Ok {| name := "billing"; version := "0.1.0"; description := None |})
    as H by (vm_compute; reflexivity).
  split; [exact H|].
  exact (proj1 (metadata_name_never_empty composer_env php_laravel demo_root _ H)).
Defined.

Lemma csproj_without_files (env : Env) (root : Path.t) (s : DetectedStack)
    (st : locals) :
  (forall p, path_exists env p = false) ->
  _extract_from_csproj env root s st = st.
Proof.
  intros H. unfold _extract_from_csproj.
  destruct (endswith _ _); [by rewrite H|].
  destruct (glob_csproj env root); [done|]. by rewrite H.
Qed.

(** X7: in a directory without any manifest, the name is the last segment
    of the root path, or the generated name that carries the language
    when the path has no last segment, and the version is 0.1.0. *)
Theorem metadata_without_manifests (env : Env) (s : DetectedStack)
    (root : string) :
  (forall p, path_exists env p = false) ->
  _extract_metadata env s root
  = Ok {| name := if String.eqb (Path.name (Path.of_str root)) ""
                  then ("auto-generated-" ++ Language.value (language s))%string
                  else Path.name (Path.of_str root);
          version := "0.1.0"; description := None |}.
Proof.
  intros H. unfold _extract_metadata.
  unfold _extract_from_package_json, _extract_from_python_config,
    _extract_from_jvm_config, _extract_from_go_mod, _extract_from_composer.
  rewrite !csproj_without_files by done. rewrite !H. simpl.
  destruct (language s); simpl;
    by destruct (String.eqb (Path.name (Path.of_str root)) "").
Qed.

Lemma metadata_without_manifests_witness :
  _extract_metadata no_files go_gin "/"
  = Ok {| name := "auto-generated-go"; version := "0.1.0"; description := None |} /\
  _extract_metadata no_files go_gin "/srv/shop"
  = Ok {| name := "shop"; version := "0.1.0"; description := None |}.
Proof.
  split.
  - exact (metadata_without_manifests no_files go_gin "/" (fun _ => eq_refl)).
  - exact (metadata_without_manifests no_files go_gin "/srv/shop"
             (fun _ => eq_refl)).
Defined.

(** X8: the [go.mod] extractor never changes the version, and the name it
    stores, if any, is a string without a slash: the last segment of the
    module path. *)
Theorem go_mod_keeps_version (env : Env) (root : Path.t) (st : locals) :
  l_version (_extract_from_go_mod env root st) = l_version st /\
  (l_name (_extract_from_go_mod env root st) = l_name st \/
   exists module_path,
     re_search env RE_MODULE
       (default "" (read_text env (Path.truediv root "go.mod")))
     = Some module_path /\
     l_name (_extract_from_go_mod env root st)
     = PyStr (List.last (split_on slash module_path) "") /\
     str_contains "/" (List.last (split_on slash module_path) "") = false).
Proof.
  unfold _extract_from_go_mod.
  destruct (path_exists env _); [|by split; [|left]].
  try_unfold.
  destruct (read_text env _) as [content|]; simpl; [|by split; [|left]].
  destruct (re_search env RE_MODULE content) as [mp|] eqn:Hre; simpl;
    [|by split; [|left]].
  split; [done|]. right. exists mp. split; [done|]. split; [done|].
  apply last_segment_no_slash.
Qed.

Lemma go_mod_keeps_version_aux (env : Env) (root : Path.t) (st : locals) :
  l_version (_extract_from_go_mod env root st) = l_version st /\
  (l_name (_extract_from_go_mod env root st) = l_name st \/
   exists n, l_name (_extract_from_go_mod env root st) = PyStr n).
Proof.
  unfold _extract_from_go_mod.
  destruct (path_exists env _); [|by split; [|left]].
  try_unfold.
  destruct (read_text env _) as [content|]; simpl; [|by split; [|left]].
  destruct (re_search env RE_MODULE content) as [mp|]; simpl;
    [|by split; [|left]].
  split; [done|]. right. by eexists.
Qed.

Lemma csproj_stores_strings_aux (env : Env) (root : Path.t)
    (s : DetectedStack) (st : locals) :
  (l_name (_extract_from_csproj env root s st) = l_name st \/
   exists n, l_name (_extract_from_csproj env root s st) = PyStr n) /\
  (l_version (_extract_from_csproj env root s st) = l_version st \/
   exists v, l_version (_extract_from_csproj env root s st) = PyStr v).
Proof.
  unfold _extract_from_csproj.
  match goal with
  | |- context [match ?c with Some p => _ | None => st end] =>
      destruct c as [p|]
  end; [|by split; left].
  destruct (path_exists env p); [|by split; left].
  try_unfold.
  destruct (xml_parse env p) as [root_elem|]; simpl; [|by split; left].
  destruct (find_descendant "Version" root_elem) as [ver|]; simpl;
    [|split; [right; by eexists|by left]].
  unfold py_text. destruct (text_of ver) as [v|]; simpl;
    [|split; [right; by eexists|by left]].
  destruct (String.eqb v ""); simpl; (split; [right; by eexists|]).
  - by left.
  - right. by exists v.
Qed.

(** X9: the [.csproj] extractor stores strings only.  Either it leaves the
    name and the version as they were, or the project file exists and
    parses, and then the name is the stem of that very file: the
    [config_file] of the stack under the root when it ends in [.csproj],
    the first file that [glob] returns otherwise.  The version is replaced
    by the text of the [Version] element when that text is not empty, and
    is left otherwise. *)
Theorem csproj_stores_strings_only (env : Env) (root : Path.t)
    (s : DetectedStack) (st : locals) :
  _extract_from_csproj env root s st = st \/
  exists p root_elem,
    csproj_file env root s p /\
    path_exists env p = true /\
    xml_parse env p = Some root_elem /\
    l_name (_extract_from_csproj env root s st) = PyStr (Path.stem p) /\
    ((l_version (_extract_from_csproj env root s st) = l_version st /\
      forall ver v, find_descendant "Version" root_elem = Some ver ->
                    text_of ver = Some v -> v = "") \/
     exists ver v,
       find_descendant "Version" root_elem = Some ver /\
       text_of ver = Some v /\ v <> "" /\
       l_version (_extract_from_csproj env root s st) = PyStr v).
Proof.
  unfold csproj_file. set (cf := default "" (config_file s)).
  assert (forall p out,
            ((endswith cf ".csproj" = true /\ p = Path.truediv root cf) \/
             (endswith cf ".csproj" = false /\
              head (glob_csproj env root) = Some p)) ->
            out = (if path_exists env p
                   then try_except_pass
                          (root_elem ← call (xml_parse env p);
                           set_name (PyStr (Path.stem p));;
                           match find_descendant "Version" root_elem with
                           | Some ver =>
                               if py_truthy (py_text ver)
                               then set_version (py_text ver) else pass
                           | None => pass
                           end) st
                   else st) ->
            out = st \/
            exists p0 root_elem,
              ((endswith cf ".csproj" = true /\ p0 = Path.truediv root cf) \/
               (endswith cf ".csproj" = false /\
                head (glob_csproj env root) = Some p0)) /\
              path_exists env p0 = true /\
              xml_parse env p0 = Some root_elem /\
              l_name out = PyStr (Path.stem p0) /\
              ((l_version out = l_version st /\
                forall ver v, find_descendant "Version" root_elem = Some ver ->
                              text_of ver = Some v -> v = "") \/
               exists ver v,
                 find_descendant "Version" root_elem = Some ver /\
                 text_of ver = Some v /\ v <> "" /\
                 l_version out = PyStr v)) as Hfile.
  { intros p out Hp ->. destruct (path_exists env p) eqn:Hex; [|by left].
    try_unfold.
    destruct (xml_parse env p) as [root_elem|] eqn:Hxml; simpl; [|by left].
    right. exists p, root_elem. split; [done|]. split; [done|]. split; [done|].
    destruct (find_descendant "Version" root_elem) as [ver|] eqn:Hver; simpl.
    2:{ split; [done|]. left. split; [done|]. intros ver v H. discriminate H. }
    unfold py_text. destruct (text_of ver) as [v|] eqn:Htext; simpl.
    2:{ split; [done|]. left. split; [done|].
        intros ver' v' [= <-] H. congruence. }
    destruct (String.eqb_spec v "") as [->|Hv]; simpl; (split; [done|]).
    - left. split; [done|]. intros ver' v' [= <-] H. congruence.
    - right. by exists ver, v. }
  unfold _extract_from_csproj. fold cf.
  destruct (endswith cf ".csproj") eqn:Hcf.
  - eapply Hfile; [by left|reflexivity].
  - revert Hfile. destruct (glob_csproj env root) as [|p rest]; intros Hfile;
      [by left|].
    eapply (Hfile p); [by right|reflexivity].
Qed.

(** On a file system whose probes answer, the metadata of a Go stack, of
    a .NET stack and of a stack of unknown language always validate. *)
Lemma metadata_validates_for_go_and_dotnet (env : Env) (s : DetectedStack)
    (root : string) :
  language s = Language.GO \/ language s = Language.DOTNET \/
  language s = Language.UNKNOWN ->
  exists m, _extract_metadata env s root = Ok m /\ name m <> "" /\
            (language s <> Language.DOTNET -> version m = "0.1.0").
Proof.
  intros Hl.
  assert (exists m, _extract_metadata env s root = Ok m /\
                    (language s <> Language.DOTNET -> version m = "0.1.0"))
    as (m & Hm & Hv).
  { unfold _extract_metadata.
    set (st0 := {| l_name := PyNone; l_version := PyStr "0.1.0" |}).
    destruct Hl as [Hl|[Hl|Hl]]; rewrite Hl; simpl.
    - destruct (go_mod_keeps_version_aux env (Path.of_str root) st0)
        as (Hver & Hname).
      rewrite Hver. simpl.
      destruct Hname as [-> | (n & ->)]; simpl.
      + destruct (String.eqb (Path.name (Path.of_str root)) ""); simpl;
          by eexists.
      + destruct (String.eqb n ""); simpl;
          [destruct (String.eqb (Path.name (Path.of_str root)) "")|];
          simpl; by eexists.
    - destruct (csproj_stores_strings_aux env (Path.of_str root) s st0)
        as (Hname & Hver).
      destruct Hver as [-> | (v & ->)]; destruct Hname as [-> | (n & ->)];
        simpl;
        repeat match goal with
               | |- context [String.eqb ?a ?b] => destruct (String.eqb a b); simpl
               end;
        eexists; (split; [reflexivity|intros H; by destruct H]).
    - destruct (String.eqb (Path.name (Path.of_str root)) ""); simpl;
        by eexists. }
  exists m. split; [done|]. split; [|done].
  by eapply extract_metadata_name_nonempty.
Qed.

(** ** Probes that raise *)

Lemma exists_probe_raises (pr : Probing.Probes) (p : Path.t) :
  Probing.exists_raises pr p = true -> a_probe_raises pr.
Proof. intros H. left. by exists p. Qed.

Lemma glob_probe_raises (pr : Probing.Probes) (p : Path.t) :
  Probing.glob_raises pr p = true -> a_probe_raises pr.
Proof. intros H. right. by exists p. Qed.

Ltac probe_step :=
  match goal with
  | |- context [Probing.exists_raises ?pr ?p] =>
      let H := fresh "Hraise" in
      destruct (Probing.exists_raises pr p) eqn:H;
      cbn [mbind Probing.probed_bind];
      [left; split; [done|by apply (exists_probe_raises pr p)]|clear H]
  | |- context [Probing.glob_raises ?pr ?p] =>
      let H := fresh "Hraise" in
      destruct (Probing.glob_raises pr p) eqn:H;
      cbn [mbind Probing.probed_bind];
      [left; split; [done|by apply (glob_probe_raises pr p)]|clear H]
  end.

Lemma probing_package_json (pr : Probing.Probes) (env : Env) (root : Path.t)
    (s : locals) :
  (Probing._extract_from_package_json pr env root s = Probing.OSError /\
   a_probe_raises pr) \/
  Probing._extract_from_package_json pr env root s
  = Probing.Answered (_extract_from_package_json env root s).
Proof.
  unfold Probing._extract_from_package_json, _extract_from_package_json,
    Probing.probe_exists.
  probe_step. right. by destruct (path_exists env _).
Qed.

Lemma probing_python_config (pr : Probing.Probes) (env : Env) (root : Path.t)
    (stack : DetectedStack) (s : locals) :
  (Probing._extract_from_python_config pr env root stack s = Probing.OSError /\
   a_probe_raises pr) \/
  Probing._extract_from_python_config pr env root stack s
  = Probing.Answered (_extract_from_python_config env root stack s).
Proof.
  unfold Probing._extract_from_python_config, _extract_from_python_config,
    Probing.probe_exists.
  probe_step.
  match goal with
  | |- context [py_truthy (l_name ?x)] => generalize x; intros s1
  end.
  destruct (py_truthy (l_name s1)); cbn [negb andb mbind Probing.probed_bind];
    [by right|].
  probe_step. right. by destruct (path_exists env _).
Qed.

Lemma probing_jvm_config (pr : Probing.Probes) (env : Env) (root : Path.t)
    (stack : DetectedStack) (s : locals) :
  (Probing._extract_from_jvm_config pr env root stack s = Probing.OSError /\
   a_probe_raises pr) \/
  Probing._extract_from_jvm_config pr env root stack s
  = Probing.Answered (_extract_from_jvm_config env root stack s).
Proof.
  unfold Probing._extract_from_jvm_config, _extract_from_jvm_config,
    Probing.probe_exists.
  probe_step.
  match goal with
  | |- context [py_truthy (l_name ?x)] => generalize x; intros s1
  end.
  assert (forall s2 out,
            out = ((if negb (py_truthy (l_name s2))
                    then
                      if Probing.exists_raises pr
                           (Path.truediv root "settings.gradle")
                      then Probing.OSError
                      else Probing.Answered
                             (path_exists env
                                (Path.truediv root "settings.gradle"))
                    else Probing.Answered false)
                   ≫= (fun e : bool =>
                         if e
                         then Probing.Answered
                                (try_except_pass
                                   (content ← call
                                      (read_text env
                                         (Path.truediv root "settings.gradle"));
                                    search_name env RE_ROOT_PROJECT_NAME content)
                                   s2)
                         else Probing.Answered s2)) ->
            (out = Probing.OSError /\ a_probe_raises pr) \/
            out = Probing.Answered
                    (if negb (py_truthy (l_name s2))
                        && path_exists env (Path.truediv root "settings.gradle")
                     then try_except_pass
                            (content ← call
                               (read_text env
                                  (Path.truediv root "settings.gradle"));
                             search_name env RE_ROOT_PROJECT_NAME content) s2
                     else s2)) as Hsettings.
  { intros s2 out ->.
    destruct (py_truthy (l_name s2)); cbn [negb andb mbind Probing.probed_bind];
      [by right|].
    probe_step. right. by destruct (path_exists env _). }
  destruct (py_truthy (l_name s1)) eqn:Hs1;
    cbn [negb andb mbind Probing.probed_bind].
  - by apply Hsettings.
  - probe_step. destruct (path_exists env (Path.truediv root "build.gradle"));
      by apply Hsettings.
Qed.

Lemma probing_go_mod (pr : Probing.Probes) (env : Env) (root : Path.t)
    (s : locals) :
  Probing._extract_from_go_mod pr env root s
  = if Probing.exists_raises pr (Path.truediv root "go.mod")
    then Probing.OSError
    else Probing.Answered (_extract_from_go_mod env root s).
Proof.
  unfold Probing._extract_from_go_mod, _extract_from_go_mod,
    Probing.probe_exists.
  destruct (Probing.exists_raises pr _); [done|].
  cbn [mbind Probing.probed_bind]. by destruct (path_exists env _).
Qed.

Lemma probing_csproj (pr : Probing.Probes) (env : Env) (root : Path.t)
    (stack : DetectedStack) (s : locals) :
  (Probing._extract_from_csproj pr env root stack s = Probing.OSError /\
   a_probe_raises pr) \/
  Probing._extract_from_csproj pr env root stack s
  = Probing.Answered (_extract_from_csproj env root stack s).
Proof.
  unfold Probing._extract_from_csproj, _extract_from_csproj,
    Probing.probe_exists, Probing.probe_glob.
  assert (forall p out,
            out = ((if Probing.exists_raises pr p
                    then Probing.OSError
                    else Probing.Answered (path_exists env p))
                   ≫= (fun e : bool =>
                         if e
                         then Probing.Answered
                                (try_except_pass
                                   (root_elem ← call (xml_parse env p);
                                    set_name (PyStr (Path.stem p));;
                                    match find_descendant "Version" root_elem
                                    with
                                    | Some ver =>
                                        if py_truthy (py_text ver)
                                        then set_version (py_text ver)
                                        else pass
                                    | None => pass
                                    end) s)
                         else Probing.Answered s)) ->
            (out = Probing.OSError /\ a_probe_raises pr) \/
            out = Probing.Answered
                    (if path_exists env p
                     then try_except_pass
                            (root_elem ← call (xml_parse env p);
                             set_name (PyStr (Path.stem p));;
                             match find_descendant "Version" root_elem with
                             | Some ver =>
                                 if py_truthy (py_text ver)
                                 then set_version (py_text ver) else pass
                             | None => pass
                             end) s
                     else s)) as Hfile.
  { intros p out ->. probe_step. right. by destruct (path_exists env p). }
  destruct (endswith (default "" (config_file stack)) ".csproj").
  - cbn [mbind Probing.probed_bind]. by apply Hfile.
  - probe_step.
    destruct (glob_csproj env root) as [|p rest]; [by right|].
    by apply Hfile.
Qed.

Lemma probing_csproj_cause (pr : Probing.Probes) (env : Env) (root : Path.t)
    (stack : DetectedStack) (s : locals) :
  Probing._extract_from_csproj pr env root stack s = Probing.OSError ->
  (endswith (default "" (config_file stack)) ".csproj" = false /\
   Probing.glob_raises pr root = true) \/
  exists p, csproj_file env root stack p /\
            Probing.exists_raises pr p = true.
Proof.
  unfold Probing._extract_from_csproj, Probing.probe_exists,
    Probing.probe_glob, csproj_file.
  destruct (endswith (default "" (config_file stack)) ".csproj").
  - cbn [mbind Probing.probed_bind].
    destruct (Probing.exists_raises pr _) eqn:Hraise.
    + intros _. right. eexists. split; [by left|done].
    + cbn [mbind Probing.probed_bind]. by destruct (path_exists env _).
  - destruct (Probing.glob_raises pr root);
      cbn [mbind Probing.probed_bind]; [intros _; by left|].
    destruct (glob_csproj env root) as [|p rest]; [done|].
    destruct (Probing.exists_raises pr p) eqn:Hraise.
    + intros _. right. exists p. split; [by right|done].
    + cbn [mbind Probing.probed_bind]. by destruct (path_exists env p).
Qed.

Lemma probing_composer (pr : Probing.Probes) (env : Env) (root : Path.t)
    (s : locals) :
  (Probing._extract_from_composer pr env root s = Probing.OSError /\
   a_probe_raises pr) \/
  Probing._extract_from_composer pr env root s
  = Probing.Answered (_extract_from_composer env root s).
Proof.
  unfold Probing._extract_from_composer, _extract_from_composer,
    Probing.probe_exists.
  probe_step. right. by destruct (path_exists env _).
Qed.

(** The extraction on [Env] is the extraction on a file system whose
    probes answer: with probes that can raise, either the [OSError] of a
    probe leaves [_extract_metadata], or the outcome is the one on [Env]. *)
Lemma probing_refines (pr : Probing.Probes) (env : Env) (s : DetectedStack)
    (root : string) :
  (Probing._extract_metadata pr env s root = Probing.OSError /\
   a_probe_raises pr) \/
  Probing._extract_metadata pr env s root
  = Probing.Answered (_extract_metadata env s root).
Proof.
  unfold Probing._extract_metadata, _extract_metadata.
  destruct (py_in (language s) [Language.NODEJS; Language.TYPESCRIPT]).
  { destruct (probing_package_json pr env (Path.of_str root)
                {| l_name := PyNone; l_version := PyStr "0.1.0" |})
      as [[-> ?] | ->]; [by left|by right]. }
  destruct (bool_decide (language s = Language.PYTHON)).
  { destruct (probing_python_config pr env (Path.of_str root) s
                {| l_name := PyNone; l_version := PyStr "0.1.0" |})
      as [[-> ?] | ->]; [by left|by right]. }
  destruct (py_in (language s) [Language.JAVA; Language.KOTLIN]).
  { destruct (probing_jvm_config pr env (Path.of_str root) s
                {| l_name := PyNone; l_version := PyStr "0.1.0" |})
      as [[-> ?] | ->]; [by left|by right]. }
  destruct (bool_decide (language s = Language.GO)).
  { rewrite probing_go_mod.
    destruct (Probing.exists_raises pr _) eqn:Hraise; [left|by right].
    split; [done|]. by eapply exists_probe_raises. }
  destruct (bool_decide (language s = Language.DOTNET)).
  { destruct (probing_csproj pr env (Path.of_str root) s
                {| l_name := PyNone; l_version := PyStr "0.1.0" |})
      as [[-> ?] | ->]; [by left|by right]. }
  destruct (bool_decide (language s = Language.PHP)).
  { destruct (probing_composer pr env (Path.of_str root)
                {| l_name := PyNone; l_version := PyStr "0.1.0" |})
      as [[-> ?] | ->]; [by left|by right]. }
  by right.
Qed.

(** When no probe raises, [_extract_metadata] does on the file system what
    it does on [Env]. *)
Lemma probing_answers (pr : Probing.Probes) (env : Env) (s : DetectedStack)
    (root : string) :
  (forall p, Probing.exists_raises pr p = false) ->
  (forall p, Probing.glob_raises pr p = false) ->
  Probing._extract_metadata pr env s root
  = Probing.Answered (_extract_metadata env s root).
Proof.
  intros Hex Hglob.
  destruct (probing_refines pr env s root) as [[_ [[p Hp]|[p Hp]]]|H];
    [| |done].
  - by rewrite Hex in Hp.
  - by rewrite Hglob in Hp.
Qed.

(** X10: for a Go stack, a .NET stack and a stack of unknown language,
    the construction of the metadata never fails, whatever the files
    hold.  [_extract_metadata] returns metadata with a name that is not
    empty (and the version 0.1.0 for Go and for an unknown language),
    unless a probe raises: [exists()] on [go.mod] for Go; for .NET [glob]
    on the root, when it is called, or [exists()] on the project file.
    That [OSError] leaves [_extract_metadata].  For a stack of unknown
    language no probe is made. *)
Theorem metadata_fails_only_on_probes (pr : Probing.Probes) (env : Env)
    (s : DetectedStack) (root : string) :
  language s = Language.GO \/ language s = Language.DOTNET \/
  language s = Language.UNKNOWN ->
  (Probing._extract_metadata pr env s root = Probing.OSError /\
   ((language s = Language.GO /\
     Probing.exists_raises pr (Path.truediv (Path.of_str root) "go.mod")
     = true) \/
    (language s = Language.DOTNET /\
     ((endswith (default "" (config_file s)) ".csproj" = false /\
       Probing.glob_raises pr (Path.of_str root) = true) \/
      exists p, csproj_file env (Path.of_str root) s p /\
                Probing.exists_raises pr p = true)))) \/
  exists m, Probing._extract_metadata pr env s root = Probing.Answered (Ok m) /\
            name m <> "" /\
            (language s <> Language.DOTNET -> version m = "0.1.0").
Proof.
  intros Hl.
  destruct (metadata_validates_for_go_and_dotnet env s root Hl)
    as (m & Hm & Hname & Hver).
  destruct (probing_refines pr env s root) as [[Hraise _]|Hans].
  2:{ right. exists m. by rewrite Hans, Hm. }
  left. split; [done|].
  unfold Probing._extract_metadata in Hraise.
  destruct Hl as [Hl|[Hl|Hl]]; rewrite Hl in Hraise; simpl in Hraise.
  - left. split; [done|]. rewrite probing_go_mod in Hraise.
    by destruct (Probing.exists_raises pr _).
  - right. split; [done|].
    apply (probing_csproj_cause pr env (Path.of_str root) s
             {| l_name := PyNone; l_version := PyStr "0.1.0" |}).
    by destruct (Probing._extract_from_csproj pr env (Path.of_str root) s _).
  - discriminate Hraise.
Qed.

Lemma metadata_fails_only_on_probes_witness :
  (exists m, Probing._extract_metadata quiet_probes go_env go_gin demo_root
             = Probing.Answered (Ok m) /\
             name m = "svc" /\ version m = "0.1.0") /\
  Probing._extract_metadata denied_probes go_env go_gin demo_root
  = Probing.OSError.
Proof.
  split.
  - destruct (metadata_fails_only_on_probes quiet_probes go_env go_gin
                demo_root) as [[H _]|(m & Hm & _ & Hv)].
    + by left.
    + vm_compute in H. discriminate H.
    + exists m. split; [exact Hm|]. split; [|by apply Hv].
      vm_compute in Hm. injection Hm as <-. reflexivity.
  - destruct (metadata_fails_only_on_probes denied_probes go_env go_gin
                demo_root) as [[H _]|(m & Hm & _)].
    + by left.
    + exact H.
    + vm_compute in Hm. discriminate Hm.
Defined.

(** X11: an absent or unreadable [package.json], or one that does not hold
    a JSON object, leaves the name and the version as they were; a JSON
    object gives each of them the value of its key, or leaves it when the
    key is missing. *)
Theorem package_json_read (env : Env) (root : Path.t) (st : locals) :
  let package_json := Path.truediv root "package.json" in
  (path_exists env package_json = false ->
   _extract_from_package_json env root st = st) /\
  (json_load env package_json = None ->
   _extract_from_package_json env root st = st) /\
  (forall v, json_load env package_json = Some v ->
             (forall d, v <> PyDict d) ->
             _extract_from_package_json env root st = st) /\
  (forall d, path_exists env package_json = true ->
             json_load env package_json = Some (PyDict d) ->
             _extract_from_package_json env root st
             = {| l_name := default (l_name st) (d !! "name");
                  l_version := default (l_version st) (d !! "version") |}).
Proof.
  intros package_json. unfold _extract_from_package_json. fold package_json.
  split; [|split; [|split]].
  - by intros ->.
  - intros ->. by destruct (path_exists env package_json).
  - intros v -> Hv. destruct (path_exists env package_json); [|done].
    try_unfold. simpl. destruct v; try done. by destruct (Hv entries).
  - intros d -> ->. try_unfold. simpl. by destruct st.
Qed.

Lemma package_json_read_witness :
  _extract_from_package_json demo_env (Path.of_str demo_root)
    {| l_name := PyNone; l_version := PyStr "0.1.0" |}
  = {| l_name := PyStr "demo-svc"; l_version := PyStr "2.3.1" |} /\
  _extract_from_package_json no_files (Path.of_str demo_root)
    {| l_name := PyNone; l_version := PyStr "0.1.0" |}
  = {| l_name := PyNone; l_version := PyStr "0.1.0" |}.
Proof.
  split.
  - exact (proj2 (proj2 (proj2
             (package_json_read demo_env (Path.of_str demo_root)
                {| l_name := PyNone; l_version := PyStr "0.1.0" |})))
             _ eq_refl eq_refl).
  - exact (proj1 (package_json_read no_files (Path.of_str demo_root)
                    {| l_name := PyNone; l_version := PyStr "0.1.0" |})
             eq_refl).
Defined.

(** X12: in [pyproject.toml] the Poetry table comes first: when it holds a
    name that is not empty, the name and the version are those of the
    Poetry table (the version is kept when the table has none), and
    neither the PEP 621 table nor [setup.py] is consulted.  Without a
    [tool] table, the PEP 621 table is read in the same way. *)
Theorem poetry_table_takes_precedence (env : Env) (root : Path.t)
    (stack : DetectedStack) (st : locals) (d table : gmap string pyval)
    (n : pyval) :
  path_exists env (Path.truediv root "pyproject.toml") = true ->
  toml_load env (Path.truediv root "pyproject.toml") = Some (PyDict d) ->
  table !! "name" = Some n -> py_truthy n = true ->
  ((exists tool, d !! "tool" = Some (PyDict tool) /\
                 tool !! "poetry" = Some (PyDict table)) \/
   (d !! "tool" = None /\ d !! "project" = Some (PyDict table))) ->
  _extract_from_python_config env root stack st
  = {| l_name := n; l_version := default (l_version st) (table !! "version") |}.
Proof.
  intros Hex Hload Hn Ht Hcase. unfold _extract_from_python_config.
  rewrite Hex, Hload. try_unfold.
  destruct Hcase as [(tool & Htool & Hpoetry)|(Htool & Hproject)].
  - cbn [py_contains py_getitem py_get]. rewrite Htool.
    rewrite (bool_decide_eq_true_2 (is_Some (Some (PyDict tool)))) by eauto.
    cbn [py_contains py_getitem py_get]. rewrite Hpoetry.
    rewrite (bool_decide_eq_true_2 (is_Some (Some (PyDict table)))) by eauto.
    cbn [py_contains py_getitem py_get]. rewrite Hn.
    simpl. rewrite Ht. done.
  - cbn [py_contains py_getitem py_get]. rewrite Htool, Hproject.
    rewrite (bool_decide_eq_false_2 (is_Some None))
      by (intros [? ?]; discriminate).
    rewrite (bool_decide_eq_true_2 (is_Some (Some (PyDict table)))) by eauto.
    cbn [py_contains py_getitem py_get]. rewrite Hn.
    simpl. rewrite Ht. done.
Qed.

Lemma poetry_table_takes_precedence_witness :
  _extract_from_python_config poetry_env (Path.of_str demo_root) python_django
    {| l_name := PyNone; l_version := PyStr "0.1.0" |}
  = {| l_name := PyStr "poetry-name"; l_version := PyStr "1.2.3" |}.
Proof.
  refine (poetry_table_takes_precedence poetry_env (Path.of_str demo_root)
            python_django {| l_name := PyNone; l_version := PyStr "0.1.0" |}
            _ (<["name" := PyStr "poetry-name"]>
                 (<["version" := PyStr "1.2.3"]> ∅))
            (PyStr "poetry-name") eq_refl eq_refl eq_refl eq_refl _).
  left. eexists. split; reflexivity.
Defined.

(** X13: Maven comes before Gradle: when [pom.xml] parses and its
    artifactId (the namespaced element first, the plain one otherwise) has
    a text that is not empty, the name is that text, the version is the
    text of the version element of the pom when there is one, and neither
    [build.gradle] nor [settings.gradle] is read. *)
Theorem maven_takes_precedence (env : Env) (root : Path.t)
    (stack : DetectedStack) (st : locals) (root_elem e : Element) (a : string) :
  path_exists env (Path.truediv root "pom.xml") = true ->
  xml_parse env (Path.truediv root "pom.xml") = Some root_elem ->
  match find_child (MAVEN_NS ++ "artifactId")%string root_elem with
  | Some e' => Some e'
  | None => find_child "artifactId" root_elem
  end = Some e ->
  text_of e = Some a -> a <> "" ->
  _extract_from_jvm_config env root stack st
  = {| l_name := PyStr a;
       l_version :=
         match match find_child (MAVEN_NS ++ "version")%string root_elem with
               | Some v => Some v
               | None => find_child "version" root_elem
               end with
         | Some v => py_text v
         | None => l_version st
         end |}.
Proof.
  intros Hex Hparse Hart Htext Ha. unfold _extract_from_jvm_config.
  rewrite Hex, Hparse. try_unfold. rewrite Hart.
  assert (py_truthy (py_text e) = true) as Ht.
  { unfold py_text. rewrite Htext. simpl. by destruct (String.eqb_spec a ""). }
  assert (py_text e = PyStr a) as He by (unfold py_text; by rewrite Htext).
  destruct (match find_child (MAVEN_NS ++ "version")%string root_elem with
            | Some v => Some v
            | None => find_child "version" root_elem
            end) as [v|]; simpl; repeat (rewrite Ht; simpl); by rewrite He.
Qed.

Lemma maven_takes_precedence_witness :
  _extract_from_jvm_config maven_env (Path.of_str demo_root) (java_spring None)
    {| l_name := PyNone; l_version := PyStr "0.1.0" |}
  = {| l_name := PyStr "demo-artifact"; l_version := PyStr "4.5.6" |}.
Proof.
  refine (maven_takes_precedence maven_env (Path.of_str demo_root)
            (java_spring None) {| l_name := PyNone; l_version := PyStr "0.1.0" |}
            demo_pom
            (Elem (MAVEN_NS ++ "artifactId")%string (Some "demo-artifact") [])
            "demo-artifact" eq_refl eq_refl eq_refl eq_refl _).
  discriminate.
Defined.

(** X14: a [composer.json] whose name is a non-empty string gives a name
    without a slash: the part after the last slash of a vendor/package
    name, the name itself when it has no slash.  The version is the value
    of the version key, or is left when the key is missing. *)
Theorem composer_name_drops_vendor (env : Env) (root : Path.t) (st : locals)
    (d : gmap string pyval) (full : string) :
  path_exists env (Path.truediv root "composer.json") = true ->
  json_load env (Path.truediv root "composer.json") = Some (PyDict d) ->
  d !! "name" = Some (PyStr full) -> full <> "" ->
  l_version (_extract_from_composer env root st)
  = default (l_version st) (d !! "version") /\
  exists n, l_name (_extract_from_composer env root st) = PyStr n /\
            str_contains "/" n = false /\
            n = if str_contains "/" full
                then List.last (split_on slash full) "" else full.
Proof.
  intros Hex Hload Hname Hfull. unfold _extract_from_composer.
  rewrite Hex, Hload. try_unfold. cbn [py_get]. rewrite Hname. simpl.
  destruct (String.eqb_spec full "") as [->|_]; [done|]. simpl.
  destruct (str_contains "/" full) eqn:Hs; simpl.
  - split; [done|]. eexists. split; [done|]. split; [|done].
    apply last_segment_no_slash.
  - split; [done|]. by exists full.
Qed.

Lemma composer_name_drops_vendor_witness :
  l_name (_extract_from_composer composer_env (Path.of_str demo_root)
            {| l_name := PyNone; l_version := PyStr "0.1.0" |})
  = PyStr "billing".
Proof.
  destruct (composer_name_drops_vendor composer_env (Path.of_str demo_root)
              {| l_name := PyNone; l_version := PyStr "0.1.0" |}
              (<["name" := PyStr "acme/billing"]> ∅) "acme/billing"
              eq_refl eq_refl eq_refl) as (_ & n & Hn & _ & Heq).
  - discriminate.
  - rewrite Hn, Heq. reflexivity.
Defined.

(** * Properties of the directory walk and of the analyzer *)

(** ** Paths below the repository root *)

Lemma below_root_segments (r : Path.t) (segs : list string) :
  Path.root (below r segs) = Path.root r /\
  Path.segments (below r segs) = (Path.segments r ++ segs)%list.
Proof.
  unfold below. revert r. induction segs as [|n segs IH]; intros r; simpl.
  - by rewrite app_nil_r.
  - destruct (IH (iterdir_child r n)) as [-> ->]. simpl.
    by rewrite <- app_assoc.
Qed.

Lemma below_snoc (r : Path.t) (segs : list string) (n : string) :
  below r (segs ++ [n]) = iterdir_child (below r segs) n.
Proof. unfold below. by rewrite foldl_app. Qed.

Lemma relative_to_below (r : Path.t) (segs : list string) :
  relative_to (below r segs) r = Some segs.
Proof.
  unfold relative_to. destruct (below_root_segments r segs) as [-> ->].
  rewrite String.eqb_refl, take_app_length, drop_app_length.
  by rewrite bool_decide_eq_true_2.
Qed.

Lemma should_search_child (p : Path.t) (n : string) :
  _should_search_dir (iterdir_child p n) = should_search_name n.
Proof.
  unfold _should_search_dir, Path.name, iterdir_child. simpl.
  by rewrite List.last_last.
Qed.

(** ** One step of the walk *)

Lemma search_unfold (d : Detector) (repo_root : Path.t) (node : FsNode)
    (current_path : Path.t) (depth : nat) (results : list DetectedStack) :
  _search_recursive d repo_root node current_path depth results
  = if (MAX_DEPTH <? depth)%nat then (results, None)
    else
      match detect d current_path with
      | Failed e => (results, Some e)
      | Done found =>
          let '(results, stop, raised) :=
            match found with
            | Some stack =>
                match relative_to current_path repo_root with
                | Some rel =>
                    let stack :=
                      set_project_root stack (project_root_of_rel rel) in
                    ((results ++ [stack])%list, is_multi_module stack, None)
                | None => (results, true, Some (DetectorError "ValueError"))
                end
            | None => (results, false, None)
            end in
          if stop : bool then (results, raised)
          else
            match node with
            | FsFile _ => (results, Some (DetectorError "NotADirectoryError"))
            | FsDir _ None => (results, None)
            | FsDir _ (Some items) =>
                search_loop d repo_root current_path depth items results
            end
      end.
Proof.
  destruct node as [n|n [items|]]; try reflexivity.
  cbn [_search_recursive].
  destruct (MAX_DEPTH <? depth)%nat; [done|].
  destruct (detect d current_path) as [found|e]; [|done].
  assert (forall res,
            (fix loop (items : list FsNode) (results : list DetectedStack)
               : list DetectedStack * option dexn :=
               match items with
               | [] => (results, None)
               | item :: rest =>
                   match item with
                   | FsDir name _ =>
                       if _should_search_dir (iterdir_child current_path name)
                       then
                         match _search_recursive d repo_root item
                                 (iterdir_child current_path name)
                                 (S depth) results with
                         | (results, None) => loop rest results
                         | (results, Some PermissionError) => (results, None)
                         | (results, Some e) => (results, Some e)
                         end
                       else loop rest results
                   | FsFile _ => loop rest results
                   end
               end) items res
            = search_loop d repo_root current_path depth items res) as Hloop.
  { induction items as [|item rest IH]; intros res; [done|].
    cbn [search_loop]. destruct item as [f|name listing]; [apply IH|].
    destruct (_should_search_dir (iterdir_child current_path name)); [|apply IH].
    destruct (_search_recursive d repo_root (FsDir name listing)
                (iterdir_child current_path name) (S depth) res)
      as [res' [[|msg]|]]; done. }
  destruct found as [stack|]; [|apply Hloop].
  destruct (relative_to current_path repo_root) as [rel|]; [|done].
  cbv zeta beta iota.
  destruct (is_multi_module (set_project_root stack (project_root_of_rel rel)));
    [done|apply Hloop].
Qed.

(** Induction on a directory tree: the property holds for a directory
    when it holds for its entries. *)
Lemma FsNode_induction (P : FsNode -> Prop) :
  (forall n, P (FsFile n)) ->
  (forall n, P (FsDir n None)) ->
  (forall n items, Forall P items -> P (FsDir n (Some items))) ->
  forall node, P node.
Proof.
  intros Hfile Hnone Hsome. fix IH 1. intros [n|n [items|]].
  - apply Hfile.
  - apply Hsome. induction items as [|item rest IHrest]; constructor.
    + apply IH.
    + apply IHrest.
  - apply Hnone.
Qed.

(** ** What the walk finds *)

Section Walk.
Context (d : Detector) (repo_root : Path.t).

(** The walk from [node] appends stacks found in the tree under it. *)
Let walk_ok (node : FsNode) : Prop :=
  forall base depth results,
  exists new,
    (_search_recursive d repo_root node (below repo_root base) depth results).1
    = (results ++ new)%list /\
    Forall (found_below d repo_root node base depth) new.

Lemma found_below_step (name n : string) (items : list FsNode)
    (listing : option (list FsNode)) (base : list string) (depth : nat)
    (r : DetectedStack) :
  should_search_name n = true ->
  FsDir n listing ∈ items ->
  found_below d repo_root (FsDir n listing) (base ++ [n]) (S depth) r ->
  found_below d repo_root (FsDir name (Some items)) base depth r.
Proof.
  intros Hn Hin (ext & s0 & Hdepth & Hext & Hdirs & Hdet & ->).
  exists (n :: ext), s0. rewrite <- app_assoc in *. simpl in *.
  split; [lia|]. split; [by constructor|]. split; [by exists listing|].
  by split.
Qed.

Lemma search_loop_results (name : string) (all_items : list FsNode)
    (base : list string) (depth : nat) (items : list FsNode) :
  Forall walk_ok items ->
  (forall item, item ∈ items -> item ∈ all_items) ->
  forall results,
  exists new,
    (search_loop d repo_root (below repo_root base) depth items results).1
    = (results ++ new)%list /\
    Forall (found_below d repo_root (FsDir name (Some all_items)) base depth)
           new.
Proof.
  induction 1 as [|item rest Hitem _ IH]; intros Hsub results.
  - exists []. by rewrite app_nil_r.
  - assert (forall x, x ∈ rest -> x ∈ all_items) as Hsub'
      by (intros x Hx; by apply Hsub, list_elem_of_further).
    cbn [search_loop]. destruct item as [f|n listing]; [by apply IH|].
    rewrite should_search_child.
    destruct (should_search_name n) eqn:Hn; [|by apply IH].
    rewrite <- below_snoc.
    destruct (Hitem (base ++ [n])%list (S depth) results) as (new1 & H1 & Hall1).
    assert (Forall (found_below d repo_root (FsDir name (Some all_items))
                      base depth) new1) as Hall1'.
    { eapply Forall_impl; [exact Hall1|]. intros r.
      apply found_below_step; [done|]. apply Hsub, list_elem_of_here. }
    destruct (_search_recursive d repo_root (FsDir n listing)
                (below repo_root (base ++ [n])) (S depth) results)
      as [res1 exn]. simpl in H1. subst res1.
    destruct exn as [[|msg]|]; try (by exists new1).
    destruct (IH Hsub' (results ++ new1)%list) as (new2 & H2 & Hall2).
    exists (new1 ++ new2)%list. rewrite H2, app_assoc. split; [done|].
    by apply Forall_app.
Qed.

Lemma search_step_results (node : FsNode) :
  (forall n items, node = FsDir n (Some items) -> Forall walk_ok items) ->
  walk_ok node.
Proof.
  intros Hitems base depth results. rewrite search_unfold.
  destruct (Nat.ltb_spec MAX_DEPTH depth) as [Hdeep|Hdepth].
  { exists []. by rewrite app_nil_r. }
  destruct (detect d (below repo_root base)) as [found|e] eqn:Hdet.
  2:{ exists []. by rewrite app_nil_r. }
  assert (forall results1,
            exists new,
              (match node with
               | FsFile _ =>
                   (results1, Some (DetectorError "NotADirectoryError"))
               | FsDir _ None => (results1, None)
               | FsDir _ (Some items) =>
                   search_loop d repo_root (below repo_root base) depth items
                     results1
               end).1 = (results1 ++ new)%list /\
              Forall (found_below d repo_root node base depth) new) as Htail.
  { intros results1. destruct node as [f|n [items|]].
    - exists []. by rewrite app_nil_r.
    - apply search_loop_results; [by eapply Hitems|done].
    - exists []. by rewrite app_nil_r. }
  destruct found as [stack|]; [|apply Htail].
  rewrite relative_to_below. cbv zeta beta iota.
  set (st := set_project_root stack (project_root_of_rel base)).
  assert (found_below d repo_root node base depth st) as Hst.
  { exists [], stack. rewrite app_nil_r. simpl.
    split; [lia|]. split; [constructor|]. by split. }
  destruct (is_multi_module st).
  { exists [st]. split; [done|]. by constructor. }
  destruct (Htail (results ++ [st])%list) as (new & Hnew & Hall).
  exists (st :: new). rewrite Hnew, <- app_assoc. split; [done|].
  by constructor.
Qed.

Lemma search_results (node : FsNode) : walk_ok node.
Proof.
  induction node as [n|n|n items IH] using FsNode_induction;
    apply search_step_results; intros n' items' Heq; try discriminate Heq.
  by injection Heq as _ <-.
Qed.

(** A [PermissionError] leaves the walk only when [detect] raised it in
    the directory where the walk started. *)
Lemma search_loop_no_permission_error (current_path : Path.t) (depth : nat)
    (items : list FsNode) (results res : list DetectedStack) :
  search_loop d repo_root current_path depth items results
  <> (res, Some PermissionError).
Proof.
  revert results. induction items as [|item rest IH]; intros results; [done|].
  cbn [search_loop]. destruct item as [f|n listing]; [apply IH|].
  destruct (_should_search_dir (iterdir_child current_path n)); [|apply IH].
  destruct (_search_recursive d repo_root (FsDir n listing)
              (iterdir_child current_path n) (S depth) results)
    as [res1 [[|msg]|]]; done.
Qed.

Lemma search_permission_error (node : FsNode) (current_path : Path.t)
    (depth : nat) (results res : list DetectedStack) :
  _search_recursive d repo_root node current_path depth results
  = (res, Some PermissionError) ->
  detect d current_path = Failed PermissionError.
Proof.
  rewrite search_unfold.
  destruct (MAX_DEPTH <? depth)%nat; [done|].
  destruct (detect d current_path) as [found|e]; [|by intros [= _ ->]].
  destruct found as [stack|].
  - destruct (relative_to current_path repo_root) as [rel|]; [|done].
    cbv zeta beta iota.
    destruct (is_multi_module _); [done|].
    destruct node as [f|n [items|]]; try done.
    intros H. by apply search_loop_no_permission_error in H.
  - destruct node as [f|n [items|]]; try done.
    intros H. by apply search_loop_no_permission_error in H.
Qed.

End Walk.

Lemma searched_name_not_skipped (n : string) :
  should_search_name n = true ->
  (n ∉ SKIP_DIRS) /\
  (String.prefix "." n = true -> n = ".github" \/ n = ".gitlab") /\
  endswith n ".egg-info" = false.
Proof.
  unfold should_search_name, py_in.
  destruct (String.prefix "." n) eqn:Hdot; simpl.
  - destruct (bool_decide_reflect (n ∈ [".github"; ".gitlab"])) as [Hin|Hin];
      simpl; [|done].
    destruct (bool_decide_reflect (n ∈ SKIP_DIRS)); [done|].
    destruct (endswith n ".egg-info"); [done|]. intros _.
    split; [done|]. split; [|done]. intros _.
    apply elem_of_cons in Hin as [->|Hin]; [by left|].
    apply list_elem_of_singleton in Hin as ->. by right.
  - destruct (bool_decide_reflect (n ∈ SKIP_DIRS)); [done|].
    destruct (endswith n ".egg-info"); [done|]. done.
Qed.

(** X15: every stack that [detect_all] returns was detected in a directory
    of the tree, at most [MAX_DEPTH] levels below the repository root and
    reached from it through directories that their parents list and that
    are searched (none of them in [SKIP_DIRS], none hidden except
    [.github] and [.gitlab], none an egg-info directory); its project root
    is the relative path of that directory, [None] for the repository
    root itself. *)
Theorem detect_all_results (d : Detector) (tree : FsNode) (root : Path.t)
    (results : list DetectedStack) :
  detect_all d tree root = Done results ->
  Forall (fun r =>
            exists segs s0,
              (length segs <= MAX_DEPTH)%nat /\
              dirs_below tree segs /\
              Forall (fun n =>
                        (n ∉ SKIP_DIRS) /\
                        (String.prefix "." n = true ->
                         n = ".github" \/ n = ".gitlab") /\
                        endswith n ".egg-info" = false) segs /\
              detect d (below root segs) = Done (Some s0) /\
              r = set_project_root s0 (project_root_of_rel segs) /\
              (segs = [] -> project_root r = None))
         results.
Proof.
  unfold detect_all. intros H.
  destruct (search_results d root tree [] 0%nat []) as (new & Hnew & Hall).
  change (below root []) with root in Hnew.
  destruct (_search_recursive d root tree root 0 []) as [res [e|]]; [done|].
  injection H as <-. simpl in Hnew. subst new.
  eapply Forall_impl; [exact Hall|].
  intros r (ext & s0 & Hdepth & Hext & Hdirs & Hdet & ->). simpl in *.
  exists ext, s0. split; [lia|]. split; [done|]. split.
  - eapply Forall_impl; [exact Hext|]. intros n.
    apply searched_name_not_skipped.
  - split; [done|]. split; [done|]. by intros ->.
Qed.

Lemma detect_all_results_witness :
  exists results,
    detect_all demo_java_detector demo_tree (Path.of_str demo_root)
    = Done results /\
    project_root <$> results = [Some "api"; Some "web/api"] /\
    Forall (fun r => exists segs s0,
                       (length segs <= MAX_DEPTH)%nat /\
                       dirs_below demo_tree segs /\
                       r = set_project_root s0 (project_root_of_rel segs))
           results.
Proof.
  destruct (detect_all demo_java_detector demo_tree (Path.of_str demo_root))
    as [results|e] eqn:H; [|exfalso; vm_compute in H; discriminate H].
  pose proof (detect_all_results _ _ _ _ H) as Hall.
  exists results. split; [reflexivity|]. split.
  - vm_compute in H. injection H as <-. reflexivity.
  - eapply Forall_impl; [exact Hall|].
    intros r (segs & s0 & Hlen & Hdirs & _ & _ & Hr & _). exists segs, s0.
    exact (conj Hlen (conj Hdirs Hr)).
Defined.

(** X16: [detect_all] raises [PermissionError] exactly when [detect] raises
    it in the repository root; a [PermissionError] raised further down,
    by a listing or by [detect], is dropped by the walk. *)
Theorem detect_all_permission_error (d : Detector) (tree : FsNode)
    (root : Path.t) :
  detect_all d tree root = Failed PermissionError <->
  detect d root = Failed PermissionError.
Proof.
  unfold detect_all. split.
  - destruct (_search_recursive d root tree root 0 []) as [res [e|]] eqn:H;
      [|done].
    intros [= ->]. by eapply search_permission_error.
  - intros H. rewrite search_unfold. cbn [Nat.ltb Nat.leb MAX_DEPTH].
    by rewrite H.
Qed.

Lemma detect_all_permission_error_witness :
  detect_all demo_denied_detector demo_tree (Path.of_str demo_root)
  = Failed PermissionError.
Proof.
  apply (proj2 (detect_all_permission_error demo_denied_detector demo_tree
                  (Path.of_str demo_root))).
  reflexivity.
Defined.

(** X17: when [detect] finds a multi-module project in the repository
    root, [detect_all] returns that project alone, with no project root,
    and does not look into any directory. *)
Theorem detect_all_multi_module_root (d : Detector) (tree : FsNode)
    (root : Path.t) (s0 : DetectedStack) :
  detect d root = Done (Some s0) -> is_multi_module s0 = true ->
  detect_all d tree root = Done [set_project_root s0 None].
Proof.
  intros Hdet Hmulti. unfold detect_all. rewrite search_unfold.
  cbn [Nat.ltb Nat.leb MAX_DEPTH]. rewrite Hdet.
  pose proof (relative_to_below root []) as Hrel.
  change (below root []) with root in Hrel. rewrite Hrel.
  cbv zeta beta iota.
  change (project_root_of_rel []) with (@None string).
  cbn [is_multi_module set_project_root]. by rewrite Hmulti.
Qed.

Lemma detect_all_multi_module_root_witness :
  detect_all demo_java_detector demo_tree (Path.of_str "/srv/billing")
  = Done [multi_module_java].
Proof.
  exact (detect_all_multi_module_root demo_java_detector demo_tree
           (Path.of_str "/srv/billing") multi_module_java eq_refl eq_refl).
Defined.

(** ** The analyzer *)

Lemma omap_length_le {A B : Type} (f : A -> option B) (l : list A) :
  (length (omap f l) <= length l)%nat.
Proof.
  induction l as [|x l IH]; [done|].
  change (omap f (x :: l))
    with (match f x with Some y => y :: omap f l | None => omap f l end).
  destruct (f x); simpl; lia.
Qed.

(** X18: [_analyze_single] returns the stacks that the detectors find in
    the root directory, one per detector at most, in the order in which
    the detectors were registered; a detector that raises is passed over
    and the others still run. *)
Theorem analyze_single_collects (a : Analyzer) (project_root : Path.t) :
  _analyze_single a project_root
  = omap (fun d => match detect d project_root with
                   | Done found => found
                   | Failed _ => None
                   end) (detectors a) /\
  (length (_analyze_single a project_root) <= length (detectors a))%nat.
Proof.
  assert (forall ds acc,
            foldl (fun results d =>
                     match detect d project_root with
                     | Done (Some result) => (results ++ [result])%list
                     | Done None => results
                     | Failed _ => results
                     end) acc ds
            = (acc ++ omap (fun d => match detect d project_root with
                                    | Done found => found
                                    | Failed _ => None
                                    end) ds)%list) as H.
  { induction ds as [|d ds IH]; intros acc; simpl.
    - by rewrite app_nil_r.
    - rewrite IH. destruct (detect d project_root) as [[r|]|e]; simpl; try done.
      by rewrite <- app_assoc. }
  unfold _analyze_single. rewrite H. simpl. split; [done|].
  apply omap_length_le.
Qed.

(** X19: [analyze_path] returns nothing when the path does not exist under
    the repository root; otherwise every stack it returns has the given
    path as its project root, whatever the detector had put there. *)
Theorem analyze_path_sets_project_root (a : Analyzer) (env : Env)
    (root : Path.t) (path : string) :
  (path_exists env (Path.truediv root path) = false ->
   analyze_path a env root path = []) /\
  Forall (fun r => project_root r = Some path)
         (analyze_path a env root path).
Proof.
  unfold analyze_path. split; [by intros ->|].
  destruct (path_exists env (Path.truediv root path)); simpl;
    [|constructor].
  assert (forall ds acc,
            Forall (fun r => project_root r = Some path) acc ->
            Forall (fun r => project_root r = Some path)
              (foldl (fun results d =>
                        match detect d (Path.truediv root path) with
                        | Done (Some result) =>
                            (results ++ [set_project_root result (Some path)])%list
                        | Done None => results
                        | Failed _ => results
                        end) acc ds)) as H.
  { induction ds as [|d ds IH]; intros acc Hacc; simpl; [done|].
    apply IH. destruct (detect d _) as [[r|]|e]; try done.
    apply Forall_app. split; [done|]. by repeat constructor. }
  apply H. constructor.
Qed.

Lemma analyze_path_sets_project_root_witness :
  analyze_path demo_analyzer no_files (Path.of_str demo_root) "web" = [] /\
  Forall (fun r => project_root r = Some "web")
         (analyze_path demo_analyzer demo_dirs_env (Path.of_str demo_root) "web") /\
  length (analyze_path demo_analyzer demo_dirs_env (Path.of_str demo_root) "web")
  = 1%nat.
Proof.
  split; [|split].
  - apply (proj1 (analyze_path_sets_project_root demo_analyzer no_files
                    (Path.of_str demo_root) "web")).
    reflexivity.
  - apply (proj2 (analyze_path_sets_project_root demo_analyzer demo_dirs_env
                    (Path.of_str demo_root) "web")).
  - reflexivity.
Defined.

Lemma add_unseen_invariant (acc : list DetectedStack * gset (Language.t * string))
    (r : DetectedStack) :
  NoDup (dedup_key <$> acc.1) ->
  (forall k, k ∈ acc.2 <-> k ∈ dedup_key <$> acc.1) ->
  NoDup (dedup_key <$> (add_unseen acc r).1) /\
  (forall k, k ∈ (add_unseen acc r).2 <-> k ∈ dedup_key <$> (add_unseen acc r).1) /\
  (forall x, x ∈ acc.1 -> x ∈ (add_unseen acc r).1) /\
  dedup_key r ∈ (add_unseen acc r).2.
Proof.
  destruct acc as [all seen]. simpl. intros Hnd Hseen. unfold add_unseen.
  destruct (bool_decide_reflect (dedup_key r ∈ seen)) as [Hin|Hnin]; simpl.
  - done.
  - rewrite fmap_app. simpl. repeat split.
    + apply NoDup_app. split; [done|]. split.
      * intros k Hk Hk'. apply list_elem_of_singleton in Hk' as ->.
        by apply Hnin, Hseen.
      * apply NoDup_singleton.
    + intros Hk. apply elem_of_app. apply elem_of_union in Hk as [Hk|Hk].
      * right. apply elem_of_singleton in Hk as ->. apply list_elem_of_here.
      * left. by apply Hseen.
    + intros Hk. apply elem_of_app in Hk as [Hk|Hk].
      * apply elem_of_union_r. by apply Hseen.
      * apply elem_of_union_l. apply list_elem_of_singleton in Hk as ->.
        by apply elem_of_singleton.
    + intros x Hx. apply elem_of_app. by left.
    + apply elem_of_union_l. by apply elem_of_singleton.
Qed.

Lemma foldl_add_unseen_invariant (rs : list DetectedStack)
    (acc : list DetectedStack * gset (Language.t * string)) :
  dedup_ok acc ->
  dedup_ok (foldl add_unseen acc rs) /\
  (forall x, x ∈ acc.1 -> x ∈ (foldl add_unseen acc rs).1).
Proof.
  revert acc. induction rs as [|r rs IH]; intros acc [Hnd Hseen]; simpl.
  - done.
  - destruct (add_unseen_invariant acc r Hnd Hseen) as (H1 & H2 & H3 & _).
    destruct (IH (add_unseen acc r) (conj H1 H2)) as [Hok Hsub].
    split; [done|]. intros x Hx. by apply Hsub, H3.
Qed.

Lemma analyze_detector_invariant (tree : FsNode) (project_root : Path.t)
    (acc : list DetectedStack * gset (Language.t * string)) (d : Detector) :
  dedup_ok acc ->
  dedup_ok (analyze_detector tree project_root acc d) /\
  (forall x, x ∈ acc.1 -> x ∈ (analyze_detector tree project_root acc d).1) /\
  (forall r, detect d project_root = Done (Some r) ->
             dedup_key r ∈ (analyze_detector tree project_root acc d).2).
Proof.
  intros Hok. unfold analyze_detector.
  destruct (detect d project_root) as [[r|]|e]; [| |done].
  - assert (exists acc1 skip,
              (if bool_decide (dedup_key r ∈ acc.2) then (acc, false)
               else (add_unseen acc r, is_multi_module r)) = (acc1, skip) /\
              dedup_ok acc1 /\ (forall x, x ∈ acc.1 -> x ∈ acc1.1) /\
              dedup_key r ∈ acc1.2) as (acc1 & skip & -> & Hok1 & Hsub1 & Hr1).
    { destruct (bool_decide_reflect (dedup_key r ∈ acc.2)) as [Hin|Hnin].
      - by exists acc, false.
      - destruct Hok as [Hnd Hseen].
        destruct (add_unseen_invariant acc r Hnd Hseen) as (H1 & H2 & H3 & H4).
        exists (add_unseen acc r), (is_multi_module r).
        split; [done|]. split; [by split|]. by split. }
    assert (forall r', Done (Some r) = Done (Some r') -> r' = r) as Hinj
      by (by intros r' [= ->]).
    destruct skip.
    { split; [done|]. split; [done|]. intros r' Hr'. by rewrite (Hinj _ Hr'). }
    destruct (detect_all d tree project_root) as [rs|e].
    + destruct (foldl_add_unseen_invariant rs acc1 Hok1) as [Hok2 Hsub2].
      split; [done|]. split; [intros x Hx; by apply Hsub2, Hsub1|].
      intros r' Hr'. rewrite (Hinj _ Hr').
      destruct Hok1 as [_ Hseen1]. destruct Hok2 as [_ Hseen2].
      apply Hseen2. apply Hseen1 in Hr1.
      apply list_elem_of_fmap in Hr1 as (x & -> & Hx).
      apply list_elem_of_fmap_2. by apply Hsub2.
    + split; [done|]. split; [done|]. intros r' Hr'. by rewrite (Hinj _ Hr').
  - destruct (detect_all d tree project_root) as [rs|e].
    + destruct (foldl_add_unseen_invariant rs acc Hok) as [Hok2 Hsub2].
      split; [done|]. split; [done|]. intros r' Hr'. discriminate Hr'.
    + split; [done|]. split; [done|]. intros r' Hr'. discriminate Hr'.
Qed.

Lemma analyze_recursive_invariant (tree : FsNode) (project_root : Path.t)
    (ds : list Detector)
    (acc : list DetectedStack * gset (Language.t * string)) :
  dedup_ok acc ->
  dedup_ok (foldl (analyze_detector tree project_root) acc ds) /\
  (forall x, x ∈ acc.1 ->
             x ∈ (foldl (analyze_detector tree project_root) acc ds).1) /\
  (forall d r, d ∈ ds -> detect d project_root = Done (Some r) ->
               dedup_key r
               ∈ (foldl (analyze_detector tree project_root) acc ds).2).
Proof.
  revert acc. induction ds as [|d ds IH]; intros acc Hok; simpl.
  - split; [done|]. split; [done|]. intros d r Hd. by apply elem_of_nil in Hd.
  - destruct (analyze_detector_invariant tree project_root acc d Hok)
      as (Hok1 & Hsub1 & Hr1).
    destruct (IH _ Hok1) as (Hok2 & Hsub2 & Hr2).
    split; [done|]. split; [intros x Hx; by apply Hsub2, Hsub1|].
    intros d' r Hd' Hdet. apply elem_of_cons in Hd' as [->|Hd'].
    + destruct Hok1 as [_ Hseen1]. destruct Hok2 as [_ Hseen2].
      apply Hseen2. specialize (Hr1 r Hdet). apply Hseen1 in Hr1.
      apply list_elem_of_fmap in Hr1 as (x & -> & Hx).
      apply list_elem_of_fmap_2. by apply Hsub2.
    + by eapply Hr2.
Qed.

Lemma analyze_recursive_NoDup (a : Analyzer) (tree : FsNode)
    (project_root : Path.t) :
  NoDup (dedup_key <$> _analyze_recursive a tree project_root).
Proof.
  unfold _analyze_recursive.
  destruct (analyze_recursive_invariant tree project_root (detectors a) ([], ∅))
    as ((Hnd & _) & _); [|done].
  split; [constructor|]. intros k. simpl. split; intros Hk.
  - by apply not_elem_of_empty in Hk.
  - by apply elem_of_nil in Hk.
Qed.

Lemma seen_mono (acc acc' : list DetectedStack * gset (Language.t * string))
    (k : Language.t * string) :
  dedup_ok acc -> dedup_ok acc' -> (forall x, x ∈ acc.1 -> x ∈ acc'.1) ->
  k ∈ acc.2 -> k ∈ acc'.2.
Proof.
  intros [_ Hseen] [_ Hseen'] Hsub Hk. apply Hseen'. apply Hseen in Hk.
  apply list_elem_of_fmap in Hk as (x & -> & Hx).
  apply list_elem_of_fmap_2. by apply Hsub.
Qed.

Lemma foldl_add_unseen_keys (rs : list DetectedStack)
    (acc : list DetectedStack * gset (Language.t * string)) :
  dedup_ok acc ->
  forall r, r ∈ rs -> dedup_key r ∈ (foldl add_unseen acc rs).2.
Proof.
  revert acc. induction rs as [|r0 rs IH]; intros acc Hok r Hr.
  - by apply elem_of_nil in Hr.
  - destruct Hok as [Hnd Hseen].
    destruct (add_unseen_invariant acc r0 Hnd Hseen) as (H1 & H2 & H3 & H4).
    simpl. apply elem_of_cons in Hr as [->|Hr].
    + destruct (foldl_add_unseen_invariant rs (add_unseen acc r0) (conj H1 H2))
        as [Hok' Hsub'].
      by apply (seen_mono (add_unseen acc r0)).
    + by apply IH.
Qed.

Lemma add_unseen_origin (acc : list DetectedStack * gset (Language.t * string))
    (r x : DetectedStack) :
  x ∈ (add_unseen acc r).1 -> x ∈ acc.1 \/ x = r.
Proof.
  destruct acc as [all seen]. unfold add_unseen.
  destruct (bool_decide (dedup_key r ∈ seen)); simpl; [by left|].
  intros Hx. apply elem_of_app in Hx as [Hx|Hx]; [by left|].
  right. by apply list_elem_of_singleton in Hx.
Qed.

Lemma foldl_add_unseen_origin (rs : list DetectedStack)
    (acc : list DetectedStack * gset (Language.t * string)) (x : DetectedStack) :
  x ∈ (foldl add_unseen acc rs).1 -> x ∈ acc.1 \/ x ∈ rs.
Proof.
  revert acc. induction rs as [|r rs IH]; intros acc Hx; simpl in Hx.
  - by left.
  - destruct (IH _ Hx) as [Hacc|Hrs].
    + destruct (add_unseen_origin acc r x Hacc) as [H| ->].
      * by left.
      * right. apply list_elem_of_here.
    + right. by apply list_elem_of_further.
Qed.

Lemma analyze_detector_origin (tree : FsNode) (project_root : Path.t)
    (acc : list DetectedStack * gset (Language.t * string)) (d : Detector)
    (x : DetectedStack) :
  x ∈ (analyze_detector tree project_root acc d).1 ->
  x ∈ acc.1 \/ detected_by tree project_root d x.
Proof.
  unfold analyze_detector, detected_by.
  destruct (detect d project_root) as [[r|]|e]; [| |by left].
  - assert (forall acc1 : list DetectedStack * gset (Language.t * string),
              (forall y, y ∈ acc1.1 -> y ∈ acc.1 \/ y = r) ->
              x ∈ (match detect_all d tree project_root with
                   | Done recursive_results => foldl add_unseen acc1 recursive_results
                   | Failed _ => acc1
                   end).1 ->
              x ∈ acc.1 \/ Done (Some r) = Done (Some x) \/
              exists rs, detect_all d tree project_root = Done rs /\ x ∈ rs)
      as Hwalk.
    { intros acc1 Hacc1 Hx. destruct (detect_all d tree project_root) as [rs|e].
      - destruct (foldl_add_unseen_origin rs acc1 x Hx) as [H|H].
        + destruct (Hacc1 x H) as [?| ->]; [by left|]. right. by left.
        + right. right. by exists rs.
      - destruct (Hacc1 x Hx) as [?| ->]; [by left|]. right. by left. }
    destruct (bool_decide (dedup_key r ∈ acc.2)).
    + apply Hwalk. intros y Hy. by left.
    + destruct (is_multi_module r).
      * intros Hx. destruct (add_unseen_origin acc r x Hx) as [?| ->];
          [by left|]. right. by left.
      * apply Hwalk. apply add_unseen_origin.
  - intros Hx. destruct (detect_all d tree project_root) as [rs|e]; [|by left].
    destruct (foldl_add_unseen_origin rs acc x Hx) as [H|H]; [by left|].
    right. right. by exists rs.
Qed.

Lemma analyze_detector_walk_keys (tree : FsNode) (project_root : Path.t)
    (acc : list DetectedStack * gset (Language.t * string)) (d : Detector)
    (found : option DetectedStack) (rs : list DetectedStack) :
  dedup_ok acc ->
  detect d project_root = Done found ->
  (forall r0, found = Some r0 -> is_multi_module r0 = false) ->
  detect_all d tree project_root = Done rs ->
  forall r, r ∈ rs ->
            dedup_key r ∈ (analyze_detector tree project_root acc d).2.
Proof.
  intros Hok Hdet Hmm Hall r Hr. unfold analyze_detector.
  rewrite Hdet. destruct found as [r0|].
  - rewrite (Hmm r0 eq_refl).
    destruct (bool_decide (dedup_key r0 ∈ acc.2)); rewrite Hall.
    + by apply foldl_add_unseen_keys.
    + apply foldl_add_unseen_keys; [|done]. destruct Hok as [Hnd Hseen].
      destruct (add_unseen_invariant acc r0 Hnd Hseen) as (H1 & H2 & _).
      by split.
  - rewrite Hall. by apply foldl_add_unseen_keys.
Qed.

(** What the tests against [seen_paths] keep, [ex] being the stacks tested
    so far: the keys seen are those of [ex], and the results are the
    stacks of [ex] that come first with their key, in the order of [ex]. *)
Lemma add_unseen_first (ex : list DetectedStack)
    (acc : list DetectedStack * gset (Language.t * string)) (r : DetectedStack) :
  acc.2 = list_to_set (dedup_key <$> ex) ->
  acc.1 `sublist_of` ex ->
  (forall x, x ∈ acc.1 <-> first_with_key ex x) ->
  (add_unseen acc r).2 = list_to_set (dedup_key <$> (ex ++ [r])%list) /\
  (add_unseen acc r).1 `sublist_of` (ex ++ [r])%list /\
  (forall x, x ∈ (add_unseen acc r).1 <-> first_with_key (ex ++ [r])%list x).
Proof.
  destruct acc as [all seen]. simpl. intros -> Hsub Hfirst.
  assert (forall x, first_with_key ex x -> first_with_key (ex ++ [r])%list x)
    as Hext.
  { intros x (i & Hi & Hbefore). exists i. split.
    - by apply lookup_app_l_Some.
    - intros j y Hj Hy. apply (Hbefore j y Hj).
      apply lookup_lt_Some in Hi.
      rewrite lookup_app_l in Hy by lia. done. }
  assert (forall x, first_with_key (ex ++ [r])%list x ->
                    first_with_key ex x \/
                    (x = r /\ dedup_key r ∉ dedup_key <$> ex)) as Hinv.
  { intros x (i & Hi & Hbefore).
    destruct (decide (i < length ex)%nat) as [Hlt|Hge].
    - left. exists i. rewrite lookup_app_l in Hi by done. split; [done|].
      intros j y Hj Hy. apply (Hbefore j y Hj). by apply lookup_app_l_Some.
    - right. rewrite lookup_app_r in Hi by lia.
      apply list_lookup_singleton_Some in Hi as [Hi <-]. split; [done|].
      intros Hin. apply list_elem_of_fmap in Hin as (y & Hkey & Hy).
      apply list_elem_of_lookup in Hy as [j Hj].
      apply (Hbefore j y).
      + apply lookup_lt_Some in Hj. lia.
      + by apply lookup_app_l_Some.
      + done. }
  unfold add_unseen.
  destruct (bool_decide_reflect
              (dedup_key r ∈ (list_to_set (dedup_key <$> ex)
                              : gset (Language.t * string)))) as [Hin|Hnin];
    simpl.
  - apply elem_of_list_to_set in Hin. split; [|split].
    + rewrite fmap_app, list_to_set_app_L. simpl. apply set_eq. intros k.
      rewrite elem_of_union, elem_of_union, elem_of_singleton,
        elem_of_list_to_set. split; [by left|].
      intros [H|[->|H]]; [done|done|]. by apply not_elem_of_empty in H.
    + by apply sublist_inserts_r.
    + intros x. rewrite Hfirst. split; [apply Hext|].
      intros H. by destruct (Hinv x H) as [?|[_ ?]].
  - rewrite elem_of_list_to_set in Hnin. split; [|split].
    + rewrite fmap_app, list_to_set_app_L. simpl. apply set_eq. intros k.
      rewrite !elem_of_union, !elem_of_singleton, elem_of_list_to_set.
      split.
      * intros [->|H]; [right; by left|by left].
      * intros [H|[->|H]]; [by right|by left|].
        by apply not_elem_of_empty in H.
    + by apply sublist_app.
    + intros x. rewrite elem_of_app, Hfirst, list_elem_of_singleton. split.
      * intros [H| ->]; [by apply Hext|].
        exists (length ex). split.
        -- rewrite lookup_app_r by lia. by rewrite Nat.sub_diag.
        -- intros j y Hj Hy Hkey. apply Hnin.
           rewrite lookup_app_l in Hy by done. rewrite <- Hkey.
           apply list_elem_of_fmap_2. by eapply list_elem_of_lookup_2.
      * intros H. destruct (Hinv x H) as [?|[-> _]]; [by left|by right].
Qed.

Lemma foldl_add_unseen_first (rs ex : list DetectedStack)
    (acc : list DetectedStack * gset (Language.t * string)) :
  acc.2 = list_to_set (dedup_key <$> ex) ->
  acc.1 `sublist_of` ex ->
  (forall x, x ∈ acc.1 <-> first_with_key ex x) ->
  (foldl add_unseen acc rs).2 = list_to_set (dedup_key <$> (ex ++ rs)%list) /\
  (foldl add_unseen acc rs).1 `sublist_of` (ex ++ rs)%list /\
  (forall x, x ∈ (foldl add_unseen acc rs).1 <-> first_with_key (ex ++ rs)%list x).
Proof.
  revert ex acc. induction rs as [|r rs IH]; intros ex acc Hseen Hsub Hfirst.
  - by rewrite app_nil_r.
  - destruct (add_unseen_first ex acc r Hseen Hsub Hfirst) as (H1 & H2 & H3).
    simpl. rewrite (cons_middle r ex rs), app_assoc. by apply IH.
Qed.

(** One turn of the loop runs the test on the stacks of [examined_by]. *)
Lemma analyze_detector_examined (tree : FsNode) (root : Path.t)
    (acc : list DetectedStack * gset (Language.t * string)) (d : Detector) :
  analyze_detector tree root acc d
  = foldl add_unseen acc (examined_by tree root acc.2 d).
Proof.
  unfold analyze_detector, examined_by.
  destruct (detect d root) as [[r|]|e]; [| |done].
  - destruct (bool_decide (dedup_key r ∈ acc.2)) eqn:Hseen.
    + assert (add_unseen acc r = acc) as Hsame.
      { destruct acc as [all seen]. unfold add_unseen. simpl in Hseen.
        by rewrite Hseen. }
      simpl. rewrite Hsame.
      by destruct (detect_all d tree root).
    + destruct (is_multi_module r); [done|].
      simpl. by destruct (detect_all d tree root).
  - by destruct (detect_all d tree root).
Qed.

(** X20: the stacks returned by [_analyze_recursive] have pairwise distinct
    keys (language, project root or the empty string), and of the stacks
    with the same key the first one found is kept: the result holds,
    in the order in which the analysis tests them, exactly the stacks
    that no stack with the same key precedes. *)
Theorem analyze_recursive_keys_distinct (a : Analyzer) (tree : FsNode)
    (root : Path.t) :
  NoDup (dedup_key <$> _analyze_recursive a tree root) /\
  _analyze_recursive a tree root `sublist_of` examined a tree root /\
  (forall x, x ∈ _analyze_recursive a tree root <->
             first_with_key (examined a tree root) x).
Proof.
  split; [apply analyze_recursive_NoDup|].
  unfold _analyze_recursive, examined.
  assert (forall ds ex (acc : list DetectedStack * gset (Language.t * string)),
            acc.2 = list_to_set (dedup_key <$> ex) ->
            acc.1 `sublist_of` ex ->
            (forall x, x ∈ acc.1 <-> first_with_key ex x) ->
            (foldl (analyze_detector tree root) acc ds).1
              `sublist_of`
              foldl (fun ex d =>
                       (ex ++ examined_by tree root
                                (list_to_set (dedup_key <$> ex)) d)%list)
                    ex ds /\
            (forall x,
                x ∈ (foldl (analyze_detector tree root) acc ds).1 <->
                first_with_key
                  (foldl (fun ex d =>
                            (ex ++ examined_by tree root
                                     (list_to_set (dedup_key <$> ex)) d)%list)
                         ex ds) x)) as H.
  { induction ds as [|d ds IH]; intros ex acc Hseen Hsub Hfirst; [done|].
    simpl. rewrite analyze_detector_examined, <- Hseen.
    destruct (foldl_add_unseen_first (examined_by tree root acc.2 d) ex acc
                Hseen Hsub Hfirst) as (H1 & H2 & H3).
    by apply IH. }
  apply (H (detectors a) [] ([], ∅)).
  - done.
  - done.
  - intros x. split.
    + intros Hx. by apply elem_of_nil in Hx.
    + intros (i & Hi & _). by rewrite lookup_nil in Hi.
Qed.

(** X21: no detection in the root directory is lost by the recursive
    analysis: for every stack that a registered detector finds in the root
    directory, the result holds a stack with the same key. *)
Theorem analyze_recursive_keeps_root_detections (a : Analyzer) (tree : FsNode)
    (project_root : Path.t) (d : Detector) (r : DetectedStack) :
  d ∈ detectors a -> detect d project_root = Done (Some r) ->
  exists r', r' ∈ _analyze_recursive a tree project_root /\
             dedup_key r' = dedup_key r.
Proof.
  intros Hd Hdet. unfold _analyze_recursive.
  destruct (analyze_recursive_invariant tree project_root (detectors a) ([], ∅))
    as ((_ & Hseen) & _ & Hr).
  { split; [constructor|]. intros k. simpl. split; intros Hk.
    - by apply not_elem_of_empty in Hk.
    - by apply elem_of_nil in Hk. }
  specialize (Hr d r Hd Hdet). apply Hseen in Hr.
  apply list_elem_of_fmap in Hr as (x & Hx & Hin). by exists x.
Qed.

Lemma analyze_recursive_keeps_root_detections_witness :
  exists r', r' ∈ _analyze_recursive demo_analyzer demo_tree
                    (Path.of_str "/srv/billing") /\
             dedup_key r' = dedup_key multi_module_java.
Proof.
  apply (analyze_recursive_keeps_root_detections demo_analyzer demo_tree
           (Path.of_str "/srv/billing") demo_java_detector multi_module_java).
  - apply list_elem_of_here.
  - reflexivity.
Defined.

(** X22: the analysis feeds the resolver: [resolve] raises the empty-input
    error on the result of the recursive analysis exactly when no stack was
    detected; when it returns a monorepo context, the detected projects
    are the stacks of the analysis, at least two, with pairwise distinct
    keys. *)
Theorem resolve_after_analysis (env : Env) (a : Analyzer) (tree : FsNode)
    (project_root : Path.t) (root : string) :
  (resolve env (_analyze_recursive a tree project_root) root
   = Raise EmptyInputError <->
   _analyze_recursive a tree project_root = []) /\
  (forall ctx,
      resolve env (_analyze_recursive a tree project_root) root = Ok ctx ->
      is_monorepo ctx = true ->
      detected_projects ctx = _analyze_recursive a tree project_root /\
      (2 <= length (detected_projects ctx))%nat /\
      NoDup (dedup_key <$> detected_projects ctx)).
Proof.
  pose proof (analyze_recursive_NoDup a tree project_root) as Hnd.
  destruct (_analyze_recursive a tree project_root) as [|x xs].
  - split; [done|]. intros ctx H. discriminate H.
  - split.
    + split; [|done]. rewrite resolve_cons. intros H.
      by apply context_around_Raise in H as [? _].
    + intros ctx H Hmono. rewrite resolve_cons in H.
      apply context_around_Ok in H as (_ & _ & _ & Hm & Hd).
      rewrite Hm in Hmono. rewrite Hmono in Hd. rewrite Hd.
      split; [done|]. split; [|done].
      apply Nat.ltb_lt in Hmono. lia.
Qed.

Lemma resolve_after_analysis_witness :
  exists ctx,
    resolve no_files
      (_analyze_recursive demo_analyzer demo_tree (Path.of_str demo_root))
      demo_root = Ok ctx /\
    is_monorepo ctx = true /\
    project_root <$> detected_projects ctx
    = [Some "api"; Some "web/api"; Some "web"].
Proof.
  destruct (resolve_after_analysis no_files demo_analyzer demo_tree
              (Path.of_str demo_root) demo_root) as [_ H].
  destruct (resolve no_files
              (_analyze_recursive demo_analyzer demo_tree (Path.of_str demo_root))
              demo_root) as [ctx|e] eqn:Hr;
    [|exfalso; vm_compute in Hr; discriminate Hr].
  assert (is_monorepo ctx = true) as Hm.
  { vm_compute in Hr. injection Hr as <-. reflexivity. }
  destruct (H ctx eq_refl Hm) as (Hd & _ & _).
  exists ctx. split; [reflexivity|]. split; [exact Hm|].
  rewrite Hd. reflexivity.
Defined.

(** X23: the recursive analysis invents nothing: every stack it returns
    was found by a registered detector, in the root directory or by the
    walk of that detector. *)
Theorem analyze_recursive_results_detected (a : Analyzer) (tree : FsNode)
    (root : Path.t) :
  Forall (fun x => exists d, d ∈ detectors a /\ detected_by tree root d x)
         (_analyze_recursive a tree root).
Proof.
  unfold _analyze_recursive. apply Forall_forall. intros x Hx.
  assert (forall ds (acc : list DetectedStack * gset (Language.t * string)),
            x ∈ (foldl (analyze_detector tree root) acc ds).1 ->
            x ∈ acc.1 \/ exists d, d ∈ ds /\ detected_by tree root d x) as H.
  { induction ds as [|d ds IH]; intros acc Hin; simpl in Hin; [by left|].
    destruct (IH _ Hin) as [Hacc|(d' & Hd' & Hby)].
    - destruct (analyze_detector_origin tree root acc d x Hacc) as [?|Hby].
      + by left.
      + right. exists d. split; [apply list_elem_of_here|done].
    - right. exists d'. split; [by apply list_elem_of_further|done]. }
  destruct (H _ _ Hx) as [Hnil|Hd]; [|done]. by apply elem_of_nil in Hnil.
Qed.

(** X24: no project of a walk is lost: when a registered detector finds no
    multi-module project in the root directory and its walk returns, the
    result of the recursive analysis holds, for every stack of the walk, a
    stack with the same key. *)
Theorem analyze_recursive_keeps_walk_results (a : Analyzer) (tree : FsNode)
    (root : Path.t) (d : Detector) (found : option DetectedStack)
    (rs : list DetectedStack) :
  d ∈ detectors a ->
  detect d root = Done found ->
  (forall r0, found = Some r0 -> is_multi_module r0 = false) ->
  detect_all d tree root = Done rs ->
  Forall (fun r => exists r', r' ∈ _analyze_recursive a tree root /\
                              dedup_key r' = dedup_key r) rs.
Proof.
  intros Hd Hdet Hmm Hall. apply Forall_forall. intros r Hr.
  unfold _analyze_recursive.
  assert (forall ds (acc : list DetectedStack * gset (Language.t * string)),
            dedup_ok acc -> d ∈ ds ->
            dedup_key r ∈ (foldl (analyze_detector tree root) acc ds).2) as H.
  { induction ds as [|d0 ds IH]; intros acc Hok Hin; simpl.
    - by apply elem_of_nil in Hin.
    - destruct (analyze_detector_invariant tree root acc d0 Hok) as (Hok1 & _ & _).
      apply elem_of_cons in Hin as [<-|Hin]; [|by apply IH].
      destruct (analyze_recursive_invariant tree root ds _ Hok1)
        as (Hok2 & Hsub2 & _).
      apply (seen_mono (analyze_detector tree root acc d)); try done.
      by apply (analyze_detector_walk_keys tree root acc d found rs). }
  assert (dedup_ok ([], ∅)) as Hok0.
  { split; [constructor|]. intros k. simpl. split; intros Hk.
    - by apply not_elem_of_empty in Hk.
    - by apply elem_of_nil in Hk. }
  specialize (H (detectors a) _ Hok0 Hd).
  destruct (analyze_recursive_invariant tree root (detectors a) _ Hok0)
    as ((_ & Hseen) & _ & _).
  apply Hseen in H. apply list_elem_of_fmap in H as (x & Hx & Hin).
  by exists x.
Qed.

Lemma analyze_recursive_keeps_walk_results_witness :
  Forall (fun r => exists r', r' ∈ _analyze_recursive demo_analyzer demo_tree
                                     (Path.of_str demo_root) /\
                              dedup_key r' = dedup_key r)
         [set_project_root node_react (Some "web")].
Proof.
  apply (analyze_recursive_keeps_walk_results demo_analyzer demo_tree
           (Path.of_str demo_root) demo_node_detector None).
  - apply list_elem_of_further, list_elem_of_here.
  - reflexivity.
  - intros r0 H. discriminate H.
  - reflexivity.
Defined.
